(** * tsh: job control of a tiny shell

    A shallow embedding of [tsh.c]: the job list and its helper routines,
    the three signal handlers, [waitfg], the [bg]/[fg] built-ins, the
    parser [parseline], the single-command launcher [eval], the pipeline
    launcher [my_pipe] and the read loop of [main].

    The shell is one process.  Its globals (the job list, [verbose]) and
    its signal mask are fields of a [world]; the calls it makes on the
    kernel are recorded as a trace of [event]s, and what the kernel answers
    (fork results, pipe descriptors, changed children, arriving signals) is
    read from tapes that are fields of the same [world].  What the stack
    holds where [my_pipe] puts its rows of arguments, and never ends them,
    is read from a tape as well.

    The code is embedded twice.  In the first embedding a handler runs to
    completion where the main flow waits: while it is suspended in
    [sigsuspend], and between two command lines; this is the code as it
    runs when no signal lands anywhere else.  In the second, the module
    [Async], a signal may land before every statement of the main flow,
    and a signal that is blocked when it lands is held pending until the
    mask lets it in. *)

From stdpp Require Import base list strings pretty.
From Stdlib Require Import ZArith Lia Ascii.

Open Scope Z_scope.

(** ** Manifest constants *)

Definition MAXJOBS : nat := 16.

Definition UNDEF : Z := 0.
Definition FG : Z := 1.
Definition BG : Z := 2.
Definition ST : Z := 3.

(** ** The job list *)

Record job_t := mkjob {
  pid : Z;
  jid : Z;
  state : Z;
  cmdline : string
}.

Definition set_state (s : Z) (j : job_t) : job_t :=
  mkjob (pid j) (jid j) s (cmdline j).

Definition clearjob (_ : job_t) : job_t := mkjob 0 0 UNDEF "".

Definition initjobs (jobs : list job_t) : list job_t := clearjob <$> jobs.

(** [struct job_t jobs[MAXJOBS]] has static storage: it starts zeroed. *)
Definition jobs_static : list job_t := replicate MAXJOBS (mkjob 0 0 0 "").

(** [freejid]: the first loop fills [taken], the second one scans it from
    index 1.  A jid outside [0 .. MAXJOBS] would index [taken] out of its
    bounds; the model returns [None] there. *)
Definition mark_taken (taken : option (list bool)) (j : job_t) : option (list bool) :=
  match taken with
  | None => None
  | Some t =>
      if decide (jid j = 0) then Some t
      else if decide (0 <= jid j <= Z.of_nat MAXJOBS)
           then Some (<[Z.to_nat (jid j) := true]> t)
           else None
  end.

Definition taken_of (jobs : list job_t) : option (list bool) :=
  foldl mark_taken (Some (replicate (S MAXJOBS) false)) jobs.

Fixpoint scan_free (i : Z) (taken : list bool) : Z :=
  match taken with
  | [] => 0
  | t :: ts => if t then scan_free (i + 1) ts else i
  end.

Definition freejid (jobs : list job_t) : option Z :=
  scan_free 1 ∘ drop 1 <$> taken_of jobs.

(** A pointer into the job list is the index of the slot. *)
Definition getjobpid (jobs : list job_t) (p : Z) : option nat :=
  if decide (p < 1) then None
  else fst <$> list_find (λ j, pid j = p) jobs.

Definition getjobjid (jobs : list job_t) (i : Z) : option nat :=
  if decide (i < 1) then None
  else fst <$> list_find (λ j, jid j = i) jobs.

Definition pid2jid (jobs : list job_t) (p : Z) : Z :=
  if decide (p < 1) then 0
  else match list_find (λ j, pid j = p) jobs with
       | Some (_, j) => jid j
       | None => 0
       end.

Definition fgpid (jobs : list job_t) : Z :=
  match list_find (λ j, state j = FG) jobs with
  | Some (_, j) => pid j
  | None => 0
  end.

(** The table part of [deletejob]: the new list and the returned int. *)
Definition deletejob_tbl (jobs : list job_t) (p : Z) : list job_t * Z :=
  if decide (p < 1) then (jobs, 0)
  else match list_find (λ j, pid j = p) jobs with
       | Some (i, _) => (alter clearjob i jobs, 1)
       | None => (jobs, 0)
       end.

(** The slot [addjob] fills: the first one whose pid is 0. *)
Definition free_slot (jobs : list job_t) : option nat :=
  fst <$> list_find (λ j, pid j = 0) jobs.

(** Read-only views used in the statements. *)
Definition live (j : job_t) : Prop := pid j ≠ 0.

Definition jid_in_use (jobs : list job_t) (i : Z) : Prop :=
  ∃ j, j ∈ jobs ∧ live j ∧ jid j = i.

Definition fg_count (jobs : list job_t) : nat :=
  length (filter (λ j, state j = FG) jobs).

(** ** Signals, wait statuses and the trace of system calls *)

Inductive signo := SIGINT | SIGQUIT | SIGUSR1 | SIGCHLD | SIGCONT | SIGTSTP.

Global Instance signo_eq_dec : EqDecision signo.
Proof. solve_decision. Defined.

(** A [sigset_t] is the list of its members. *)
Definition sigset := list signo.
Definition sigemptyset : sigset := [].
Definition sigaddset (m : sigset) (s : signo) : sigset := s :: m.
Definition sigismember (m : sigset) (s : signo) : bool := bool_decide (s ∈ m).

(** What [waitpid] stores in [status] under [WNOHANG | WUNTRACED]. *)
Inductive wstatus :=
| WStopped (sig : Z)
| WSignaled (sig : Z)
| WExited (code : Z).

Definition WIFSTOPPED (s : wstatus) : bool :=
  match s with WStopped _ => true | _ => false end.
Definition WIFSIGNALED (s : wstatus) : bool :=
  match s with WSignaled _ => true | _ => false end.
Definition WIFEXITED (s : wstatus) : bool :=
  match s with WExited _ => true | _ => false end.
Definition WSTOPSIG (s : wstatus) : Z :=
  match s with WStopped n => n | _ => 0 end.
Definition WTERMSIG (s : wstatus) : Z :=
  match s with WSignaled n => n | _ => 0 end.

Inductive handler_t :=
| SIG_DFL | sigint_handler_f | sigtstp_handler_f | sigchld_handler_f
| sigusr1_handler_f | sigquit_handler_f.

Definition STDIN_FILENO : Z := 0.
Definition STDOUT_FILENO : Z := 1.
Definition STDERR_FILENO : Z := 2.

Inductive event :=
| EPrintf (s : string)                      (* stdio on stdout *)
| EStderr (s : string)                      (* fprintf(stderr, ..), perror *)
| EWrite (fd : Z) (s : string) (ok : bool)  (* write(2) and whether it worked *)
| EWaitpid (ret : Z)                        (* waitpid(-1, _, WNOHANG|WUNTRACED) *)
| EKill (target : Z) (sig : signo)
| ESetpgid (p pg : Z)
| ESignal (sig : signo) (h : handler_t)
| EFork (ret : Z)
| EPipe (fds : option (Z * Z))
| EDup2 (oldfd newfd : Z)
| EClose (fd : Z)
| ERedirect (fd : Z) (file : option string) (* open (of no string when [None]),
                                               dup2 onto fd, close *)
| EExecvp (file : option string) (argv : list string) (ok : bool)
| ESigsuspend (m : sigset).

(** A signal arriving at the shell.  With a SIGCHLD come the children whose
    status changed since the last arrival. *)
Record delivery := mkdelivery {
  d_sig : signo;
  d_changed : list (Z * wstatus)
}.

(** ** The world: the shell's globals, its mask, the trace, the kernel's tapes *)

(** An entry of the uninitialised array [new_argv] of [my_pipe] that is not
    NULL: a pointer to a string, or a pointer that cannot be read. *)
Inductive cell := Str (s : string) | Wild.

(** The statements of the main flow before which the definitions of
    [Async] let signals in. *)
Inductive point :=
| at_prompt                (* main: printf("%s", prompt) *)
| at_listjobs              (* builtin_cmd: listjobs(jobs) *)
| at_bgfg_printf           (* do_bgfg: one of the refusals *)
| at_bgfg_getjob           (* do_bgfg: getjobjid(jobs, jid), getjobpid(jobs, pid) *)
| at_bgfg_test             (* do_bgfg: the tests of cur_job->state *)
| at_bgfg_kill             (* do_bgfg: kill(-(cur_job->pid), SIGCONT) *)
| at_bgfg_state            (* do_bgfg: cur_job->state = BG, cur_job->state = FG *)
| at_bgfg_print            (* do_bgfg: the printf of the job *)
| at_bgfg_waitfg           (* do_bgfg: waitfg(cur_job->pid) *)
| at_waitfg_block          (* waitfg: sigprocmask(SIG_BLOCK, ..) *)
| at_waitfg_test           (* waitfg: fgpid(jobs) == pid *)
| at_waitfg_sigsuspend     (* waitfg: sigsuspend(&prev_mask) *)
| at_waitfg_restore        (* waitfg: sigprocmask(SIG_SETMASK, ..) *)
| at_block                 (* eval: sigprocmask(SIG_BLOCK, ..) *)
| at_pipe                  (* my_pipe: pipe(pipefd) *)
| at_pipe_failed           (* my_pipe: printf("Piping error") *)
| at_fork                  (* eval, my_pipe: fork() *)
| at_fork_failed           (* eval: printf("Error forking"); my_pipe: perror("fork") *)
| at_setpgid               (* eval, my_pipe: setpgid(pid, pid) *)
| at_signal                (* eval, my_pipe: Signal(SIGINT, ..), Signal(SIGTSTP, ..) *)
| at_close                 (* my_pipe: close(prev_fd), close(pipefd[1]) *)
| at_addjob_freejid        (* addjob: freejid(jobs) *)
| at_addjob_full           (* addjob: printf("Tried to create too many jobs\n") *)
| at_addjob_search         (* addjob: the search of a slot with pid 0 *)
| at_addjob_pid            (* addjob: jobs[i].pid = pid *)
| at_addjob_state          (* addjob: jobs[i].state = state *)
| at_addjob_jid            (* addjob: jobs[i].jid = free *)
| at_addjob_cmdline        (* addjob: strcpy(jobs[i].cmdline, cmdline) *)
| at_addjob_note           (* addjob: printf("Added job ..") *)
| at_pid2jid               (* eval, my_pipe: pid2jid(pid) *)
| at_getjobpid             (* eval, my_pipe: getjobpid(jobs, pid) *)
| at_job_printf            (* eval, my_pipe: printf("[%d] (%d) %s", ..) *)
| at_restore.              (* eval, my_pipe: sigprocmask(SIG_SETMASK, ..) *)

Global Instance point_eq_dec : EqDecision point.
Proof. solve_decision. Defined.

Record world := World {
  jobs : list job_t;            (* the global job list *)
  verbose : bool;               (* the global flag set by -v *)
  blocked : sigset;             (* the process signal mask *)
  trace : list event;           (* system calls made so far, oldest first *)
  children : list (Z * wstatus);(* changed children not yet reaped *)
  forks : list Z;               (* what the next calls of fork return *)
  pipes : list (option (Z * Z));(* what the next calls of pipe produce *)
  write_errs : list bool;       (* whether the next calls of write fail *)
  wakeups : list (list delivery);(* the signals arriving during each suspension *)
  path : list string;           (* the programs execvp finds *)
  stale : list (list cell);     (* what the next rows read of new_argv hold after
                                   the tokens written, up to the first NULL *)
  arrivals : list (point * list delivery);
                                (* the signals that land between two statements:
                                   each batch at the next point of that name *)
  pending : list signo          (* signals raised while blocked, not yet delivered *)
}.

(** A world with a zeroed stack under [new_argv], in which no signal lands
    between two statements and none is pending. *)
Definition mkworld (js : list job_t) (v : bool) (m : sigset) (t : list event)
    (c : list (Z * wstatus)) (fk : list Z) (pp : list (option (Z * Z)))
    (we : list bool) (wk : list (list delivery)) (progs : list string) : world :=
  World js v m t c fk pp we wk progs [] [] [].

Definition with_jobs (f : list job_t → list job_t) (w : world) : world :=
  World (f (jobs w)) (verbose w) (blocked w) (trace w) (children w)
        (forks w) (pipes w) (write_errs w) (wakeups w) (path w)
        (stale w) (arrivals w) (pending w).
Definition with_verbose (v : bool) (w : world) : world :=
  World (jobs w) v (blocked w) (trace w) (children w)
        (forks w) (pipes w) (write_errs w) (wakeups w) (path w)
        (stale w) (arrivals w) (pending w).
Definition with_blocked (m : sigset) (w : world) : world :=
  World (jobs w) (verbose w) m (trace w) (children w)
        (forks w) (pipes w) (write_errs w) (wakeups w) (path w)
        (stale w) (arrivals w) (pending w).
Definition emit (e : event) (w : world) : world :=
  World (jobs w) (verbose w) (blocked w) (trace w ++ [e]) (children w)
        (forks w) (pipes w) (write_errs w) (wakeups w) (path w)
        (stale w) (arrivals w) (pending w).
Definition with_children (c : list (Z * wstatus)) (w : world) : world :=
  World (jobs w) (verbose w) (blocked w) (trace w) c
        (forks w) (pipes w) (write_errs w) (wakeups w) (path w)
        (stale w) (arrivals w) (pending w).
Definition with_forks (l : list Z) (w : world) : world :=
  World (jobs w) (verbose w) (blocked w) (trace w) (children w)
        l (pipes w) (write_errs w) (wakeups w) (path w)
        (stale w) (arrivals w) (pending w).
Definition with_pipes (l : list (option (Z * Z))) (w : world) : world :=
  World (jobs w) (verbose w) (blocked w) (trace w) (children w)
        (forks w) l (write_errs w) (wakeups w) (path w)
        (stale w) (arrivals w) (pending w).
Definition with_write_errs (l : list bool) (w : world) : world :=
  World (jobs w) (verbose w) (blocked w) (trace w) (children w)
        (forks w) (pipes w) l (wakeups w) (path w)
        (stale w) (arrivals w) (pending w).
Definition with_wakeups (l : list (list delivery)) (w : world) : world :=
  World (jobs w) (verbose w) (blocked w) (trace w) (children w)
        (forks w) (pipes w) (write_errs w) l (path w)
        (stale w) (arrivals w) (pending w).
Definition with_stale (l : list (list cell)) (w : world) : world :=
  World (jobs w) (verbose w) (blocked w) (trace w) (children w)
        (forks w) (pipes w) (write_errs w) (wakeups w) (path w)
        l (arrivals w) (pending w).
Definition with_arrivals (l : list (point * list delivery)) (w : world) : world :=
  World (jobs w) (verbose w) (blocked w) (trace w) (children w)
        (forks w) (pipes w) (write_errs w) (wakeups w) (path w)
        (stale w) l (pending w).
Definition with_pending (l : list signo) (w : world) : world :=
  World (jobs w) (verbose w) (blocked w) (trace w) (children w)
        (forks w) (pipes w) (write_errs w) (wakeups w) (path w)
        (stale w) (arrivals w) l.

(** ** Outcomes and sequencing *)

Inductive result (A : Type) :=
| Ret (a : A) (w : world)        (* the call returned *)
| Exit (code : Z) (w : world)    (* exit() was called *)
| Fault (w : world)              (* NULL dereferenced or an array overrun *)
| Gone (w : world)               (* execvp replaced the process image *)
| Blocked (w : world).           (* suspended, and no signal arrives any more *)
Arguments Ret {A} a w.
Arguments Exit {A} code w.
Arguments Fault {A} w.
Arguments Gone {A} w.
Arguments Blocked {A} w.

Definition M (A : Type) : Type := world → result A.

Global Instance M_ret : MRet M := λ A a w, Ret a w.

Global Instance M_bind : MBind M := λ A B k m w,
  match m w with
  | Ret a w' => k a w'
  | Exit c w' => Exit c w'
  | Fault w' => Fault w'
  | Gone w' => Gone w'
  | Blocked w' => Blocked w'
  end.

Definition exit {A} (code : Z) : M A := λ w, Exit code w.
Definition fault {A} : M A := λ w, Fault w.
Definition sleep_forever {A} : M A := λ w, Blocked w.
Definition gone {A} : M A := λ w, Gone w.
Definition skip : M unit := mret tt.
Definition get : M world := λ w, Ret w w.
Definition modify (f : world → world) : M unit := λ w, Ret tt (f w).
Definition log (e : event) : M unit := modify (emit e).

(** The world an outcome carries. *)
Definition final {A} (r : result A) : world :=
  match r with
  | Ret _ w | Exit _ w | Fault w | Gone w | Blocked w => w
  end.

Definition printf (s : string) : M unit := log (EPrintf s).
Definition kill (target : Z) (sig : signo) : M unit := log (EKill target sig).
Definition setpgid (p pg : Z) : M unit := log (ESetpgid p pg).
Definition Signal (sig : signo) (h : handler_t) : M unit := log (ESignal sig h).
Definition close (fd : Z) : M unit := log (EClose fd).
Definition dup2 (oldfd newfd : Z) : M unit := log (EDup2 oldfd newfd).

(** [%d] *)
Definition fmt_d (n : Z) : string := pretty n.

(** [sigprocmask(SIG_BLOCK, &mask, &prev_mask)] returns the old mask;
    [sigprocmask(SIG_SETMASK, &prev_mask, NULL)] installs one. *)
Definition sigprocmask_block (m : sigset) : M sigset :=
  λ w, Ret (blocked w) (with_blocked (m ++ blocked w) w).
Definition sigprocmask_setmask (m : sigset) : M unit :=
  modify (with_blocked m).

(** [write(fd, buf, len)]: -1 when the tape says so, [len] otherwise. *)
Definition write (fd : Z) (s : string) : M Z :=
  λ w, match write_errs w with
       | true :: l => Ret (-1) (emit (EWrite fd s false) (with_write_errs l w))
       | false :: l => Ret (Z.of_nat (String.length s))
                           (emit (EWrite fd s true) (with_write_errs l w))
       | [] => Ret (Z.of_nat (String.length s)) (emit (EWrite fd s true) w)
       end.

(** [waitpid(-1, &status, WNOHANG | WUNTRACED)]: the next changed child, or
    0 at once when there is none. *)
Definition waitpid_nohang : M (Z * option wstatus) :=
  λ w, match children w with
       | (p, s) :: rest => Ret (p, Some s) (emit (EWaitpid p) (with_children rest w))
       | [] => Ret (0, None) (emit (EWaitpid 0) w)
       end.

Definition fork : M Z :=
  λ w, match forks w with
       | p :: l => Ret p (emit (EFork p) (with_forks l w))
       | [] => Ret (-1) (emit (EFork (-1)) w)
       end.

Definition pipe : M (option (Z * Z)) :=
  λ w, match pipes w with
       | r :: l => Ret r (emit (EPipe r) (with_pipes l w))
       | [] => Ret None (emit (EPipe None) w)
       end.

(** ** Job-list routines that print *)

Definition NL : string := String "010"%char "".

Definition addjob (p : Z) (st : Z) (cmd : string) : M Z :=
  if decide (p < 1) then mret 0
  else
    w ← get;
    match freejid (jobs w) with
    | None => fault
    | Some free =>
        if decide (free = 0) then
          printf ("Tried to create too many jobs" +:+ NL);; mret 0
        else
          match free_slot (jobs w) with
          | Some i =>
              modify (with_jobs (λ js, <[i := mkjob p free st cmd]> js));;
              (if verbose w
               then printf ("Added job [" +:+ fmt_d free +:+ "] " +:+ fmt_d p
                            +:+ " " +:+ cmd +:+ NL)
               else skip);;
              mret 1
          | None => mret 0
          end
    end.

Definition deletejob (p : Z) : M Z :=
  w ← get;
  modify (with_jobs (λ _, (deletejob_tbl (jobs w) p).1));;
  mret (deletejob_tbl (jobs w) p).2.

Fixpoint listjobs_from (i : nat) (js : list job_t) : M unit :=
  match js with
  | [] => skip
  | j :: js' =>
      (if decide (pid j ≠ 0)
       then printf ("[" +:+ fmt_d (jid j) +:+ "] (" +:+ fmt_d (pid j) +:+ ") ");;
            printf (if decide (state j = BG) then "Running "
                    else if decide (state j = FG) then "Foreground "
                    else if decide (state j = ST) then "Stopped "
                    else "listjobs: Internal error: job[" +:+ fmt_d (Z.of_nat i)
                         +:+ "].state=" +:+ fmt_d (state j) +:+ " ");;
            printf (cmdline j)
       else skip);;
      listjobs_from (S i) js'
  end.

Definition listjobs : M unit := w ← get; listjobs_from 0 (jobs w).

(** ** Signal handlers *)

(** The two notices of [sigchld_handler], as [snprintf] composes them. *)
Definition stopped_msg (j : job_t) (sig : Z) : string :=
  "Job [" +:+ fmt_d (jid j) +:+ "] (" +:+ fmt_d (pid j)
  +:+ ") stopped by signal " +:+ fmt_d sig +:+ NL.

Definition terminated_msg (j : job_t) (sig : Z) : string :=
  "Job [" +:+ fmt_d (jid j) +:+ "] (" +:+ fmt_d (pid j)
  +:+ ") terminated by signal " +:+ fmt_d sig +:+ NL.

(** [if (len > 0) { err = write(STDOUT_FILENO, buf, len); if (err == -1) exit(1); }] *)
Definition write_notice (buf : string) : M unit :=
  if decide (0 < Z.of_nat (String.length buf)) then
    err ← write STDOUT_FILENO buf;
    if decide (err = -1) then exit 1 else skip
  else skip.

(** The body of the [while] loop of [sigchld_handler] for one reaped child.
    [job] may be NULL; the two notices read [job->jid] and [job->pid]
    all the same. *)
Definition reap_one (p : Z) (status : wstatus) : M unit :=
  w ← get;
  let job := getjobpid (jobs w) p in
  if WIFSTOPPED status then
    (match job with
     | Some i => modify (with_jobs (alter (set_state ST) i))
     | None => skip
     end);;
    w1 ← get;
    match job ≫= (λ i, jobs w1 !! i) with
    | None => fault
    | Some j => write_notice (stopped_msg j (WSTOPSIG status))
    end
  else if WIFSIGNALED status then
    match job ≫= (λ i, jobs w !! i) with
    | None => fault
    | Some j =>
        write_notice (terminated_msg j (WTERMSIG status));;
        deletejob p;; skip
    end
  else if WIFEXITED status then
    deletejob p;; skip
  else skip.

(** [while ((pid = waitpid(-1, &status, WNOHANG | WUNTRACED)) > 0) ...];
    [bound] only bounds the recursion: every turn consumes one changed child. *)
Fixpoint sigchld_loop (bound : list (Z * wstatus)) : M unit :=
  r ← waitpid_nohang;
  if decide (0 < r.1) then
    match r.2, bound with
    | Some status, _ :: bound' => reap_one r.1 status;; sigchld_loop bound'
    | _, _ => skip
    end
  else skip.

Definition sigchld_handler : M unit :=
  w ← get; sigchld_loop (children w).

Definition sigint_handler : M unit :=
  w ← get;
  let p := fgpid (jobs w) in
  if decide (p ≠ 0) then kill (- p) SIGINT else skip.

Definition sigtstp_handler : M unit :=
  w ← get;
  let p := fgpid (jobs w) in
  let job := getjobpid (jobs w) p in
  (if decide (p ≠ 0) then kill (- p) SIGTSTP else skip);;
  match job with
  | None => exit 1
  | Some i => modify (with_jobs (alter (set_state ST) i))
  end.

Definition sigquit_handler : M unit :=
  printf ("Terminating after receipt of SIGQUIT signal" +:+ NL);; exit 1.

(** The handlers [main] installs; [None] where the shell installs none
    (SIGCONT keeps its default action and wakes nobody).  [sigusr1_handler]
    only sets the flag [ready], which nothing reads. *)
Definition handler_of (s : signo) : option (M unit) :=
  match s with
  | SIGCHLD => Some sigchld_handler
  | SIGINT => Some sigint_handler
  | SIGTSTP => Some sigtstp_handler
  | SIGQUIT => Some sigquit_handler
  | SIGUSR1 => Some (skip)
  | SIGCONT => None
  end.

(** One arriving signal under mask [m]: the kernel notes the changed
    children; the handler runs unless [m] blocks the signal.  Returns whether
    a handler ran. *)
Definition deliver (m : sigset) (d : delivery) : M bool :=
  w ← get;
  modify (with_children (children w ++ d_changed d));;
  match handler_of (d_sig d) with
  | Some h => if sigismember m (d_sig d) then mret false else h;; mret true
  | None => mret false
  end.

Fixpoint deliver_all (m : sigset) (ds : list delivery) : M bool :=
  match ds with
  | [] => mret false
  | d :: ds' => a ← deliver m d; b ← deliver_all m ds'; mret (a || b)
  end.

(** [sigsuspend(&m)]: install [m], sleep until a handler has run, put the
    mask back.  With nothing left to arrive the caller sleeps for ever. *)
Fixpoint suspend_on (m : sigset) (tape : list (list delivery)) : M unit :=
  match tape with
  | [] => modify (with_wakeups []);; sleep_forever
  | batch :: tape' =>
      modify (with_wakeups tape');;
      deliver_all m batch ≫= λ ran : bool,
      if ran then skip else suspend_on m tape'
  end.

Definition sigsuspend (m : sigset) : M unit :=
  log (ESigsuspend m);;
  w ← get;
  suspend_on m (wakeups w).

(** ** waitfg *)

(** [while (fgpid(jobs) == pid) sigsuspend(&prev_mask);]  Every turn uses up
    one wake-up at least, so the length of the tape bounds the turns. *)
Fixpoint waitfg_loop (fuel : nat) (p : Z) (prev_mask : sigset) : M unit :=
  w ← get;
  if decide (fgpid (jobs w) = p) then
    sigsuspend prev_mask;;
    match fuel with
    | O => sleep_forever
    | S fuel' => waitfg_loop fuel' p prev_mask
    end
  else skip.

Definition waitfg (p : Z) : M unit :=
  prev_mask ← sigprocmask_block (sigaddset sigemptyset SIGCHLD);
  w ← get;
  waitfg_loop (length (wakeups w)) p prev_mask;;
  sigprocmask_setmask prev_mask.

(** ** The bg and fg built-ins *)

Definition is_digit (c : ascii) : bool :=
  (48 <=? nat_of_ascii c)%nat && (nat_of_ascii c <=? 57)%nat.

Definition is_space (c : ascii) : bool :=
  (nat_of_ascii c =? 32)%nat ||
  ((9 <=? nat_of_ascii c)%nat && (nat_of_ascii c <=? 13)%nat).

Fixpoint atoi_digits (acc : Z) (s : string) : Z :=
  match s with
  | String c s' =>
      if is_digit c
      then atoi_digits (acc * 10 + (Z.of_nat (nat_of_ascii c) - 48)) s'
      else acc
  | EmptyString => acc
  end.

(** The number [strtol(s, NULL, 10)] reads: blanks, an optional sign, then
    digits up to the first other character; 0 when there is no digit. *)
Fixpoint decimal (s : string) : Z :=
  match s with
  | String c s' =>
      if is_space c then decimal s'
      else if Ascii.eqb c "-" then - atoi_digits 0 s'
      else if Ascii.eqb c "+" then atoi_digits 0 s'
      else atoi_digits 0 s
  | EmptyString => 0
  end.

(** [long] has 64 bits and [int] 32, as on the machines the shell is
    built for. *)
Definition LONG_MAX : Z := 9223372036854775807.
Definition LONG_MIN : Z := -9223372036854775808.
Definition INT_MAX : Z := 2147483647.

(** [strtol] returns LONG_MAX or LONG_MIN for a number that does not fit
    a [long]. *)
Definition strtol (s : string) : Z := Z.max LONG_MIN (Z.min LONG_MAX (decimal s)).

(** The conversion of a [long] to [int] keeps the low 32 bits. *)
Definition to_int (z : Z) : Z := (z + 2 ^ 31) `mod` 2 ^ 32 - 2 ^ 31.

(** [atoi(s)] is [(int) strtol(s, NULL, 10)]. *)
Definition atoi (s : string) : Z := to_int (strtol s).

(** [id[0]] (the terminating NUL for an empty string) and [&id[1]]. *)
Definition char0 (s : string) : ascii :=
  match s with String c _ => c | EmptyString => "000"%char end.
Definition from1 (s : string) : string :=
  match s with String _ r => r | EmptyString => EmptyString end.

(** The first half of [do_bgfg]: find [cur_job] from [argv[1]].  [None]
    stands for the early [return]s, taken after the message is printed. *)
Definition bgfg_target (argv0 id : string) : M (option nat) :=
  w ← get;
  if Ascii.eqb (char0 id) "%" then
    let i := atoi (from1 id) in
    if decide (i = 0) then
      printf (argv0 +:+ ": argument must be a PID or %jid" +:+ NL);; mret None
    else
      match getjobjid (jobs w) i with
      | None => printf ("%" +:+ fmt_d i +:+ ": No such job" +:+ NL);; mret None
      | Some k => mret (Some k)
      end
  else
    let p := atoi id in
    if decide (p = 0) then
      printf (argv0 +:+ ": argument must be a PID or %jid" +:+ NL);; mret None
    else
      match getjobpid (jobs w) p with
      | None => printf ("(" +:+ fmt_d p +:+ "): No such process" +:+ NL);; mret None
      | Some k => mret (Some k)
      end.

Definition do_bgfg (argv : list string) : M unit :=
  let argv0 := default "" (argv !! 0%nat) in
  match argv !! 1%nat with
  | None => printf (argv0 +:+ " command requires PID or %jid argument" +:+ NL)
  | Some id =>
      cur ← bgfg_target argv0 id;
      match cur with
      | None => skip
      | Some k =>
          w ← get;
          match jobs w !! k with
          | None => fault
          | Some cur_job =>
              if decide (argv0 = "bg" ∧ state cur_job = ST) then
                kill (- pid cur_job) SIGCONT;;
                modify (with_jobs (alter (set_state BG) k));;
                printf ("[" +:+ fmt_d (jid cur_job) +:+ "] (" +:+ fmt_d (pid cur_job)
                        +:+ ") " +:+ cmdline cur_job)
              else if decide (argv0 = "fg" ∧ (state cur_job = ST ∨ state cur_job = BG)) then
                kill (- pid cur_job) SIGCONT;;
                modify (with_jobs (alter (set_state FG) k));;
                waitfg (pid cur_job)
              else skip
          end
      end
  end.

Definition builtin_cmd (argv : list string) : M Z :=
  let argv0 := default "" (argv !! 0%nat) in
  if decide (argv0 = "quit") then exit 0
  else if decide (argv0 = "jobs") then listjobs;; mret 0
  else if decide (argv0 = "bg" ∨ argv0 = "fg") then do_bgfg argv;; mret 0
  else mret 1.

(** ** parseline *)

Fixpoint skip_spaces (s : string) : string :=
  match s with
  | String c s' => if Ascii.eqb c " " then skip_spaces s' else s
  | EmptyString => s
  end.

(** [strchr(buf, c)], as the text before the first [c] and the text after it. *)
Fixpoint cut_at (c : ascii) (s : string) : option (string * string) :=
  match s with
  | EmptyString => None
  | String a s' =>
      if Ascii.eqb a c then Some (EmptyString, s')
      else prod_map (String a) id <$> cut_at c s'
  end.

Definition next_delim (buf : string) : option (string * string) :=
  match buf with
  | String c b => if Ascii.eqb c "'" then cut_at "'" b else cut_at " " buf
  | EmptyString => None
  end.

(** [while (delim) ...]: one argument a turn; every turn consumes the
    delimiter, so the length of the line bounds the turns. *)
Fixpoint parse_args (fuel : nat) (buf : string) : list string :=
  match fuel with
  | O => []
  | S fuel' =>
      match next_delim (skip_spaces buf) with
      | Some (arg, rest) => arg :: parse_args fuel' rest
      | None => []
      end
  end.

(** [buf[strlen(buf)-1] = ' '] *)
Fixpoint blank_last (s : string) : string :=
  match s with
  | EmptyString => EmptyString
  | String _ EmptyString => " "
  | String c s' => String c (blank_last s')
  end.

Definition parseline (cmdline : string) : list string :=
  parse_args (String.length cmdline) (blank_last cmdline).

(** ** Launching *)

(** The arguments [execvp] sees: up to the first NULL. *)
Fixpoint args_of (argv : list (option string)) : list string :=
  match argv with
  | Some a :: rest => a :: args_of rest
  | _ => []
  end.

Definition execvp (file : option string) (argv : list (option string)) : M Z :=
  w ← get;
  match file with
  | Some f =>
      if bool_decide (f ∈ path w)
      then log (EExecvp file (args_of argv) true);; gone
      else log (EExecvp file (args_of argv) false);; mret (-1)
  | None => log (EExecvp file (args_of argv) false);; mret (-1)
  end.

(** [setup_redirection]: the loop runs on past each NULL it writes, up to
    the first entry that was NULL already (the end of the list here). *)
Fixpoint setup_redirection (argv : list (option string)) : M (list (option string)) :=
  match argv with
  | Some a :: rest =>
      if decide (a = "<") then
        log (ERedirect STDIN_FILENO (mjoin (head rest)));;
        rest' ← setup_redirection rest; mret (None :: rest')
      else if decide (a = ">") then
        log (ERedirect STDOUT_FILENO (mjoin (head rest)));;
        rest' ← setup_redirection rest; mret (None :: rest')
      else
        rest' ← setup_redirection rest; mret (Some a :: rest')
  | _ => mret argv
  end.

Definition has_piping (argv : list string) : bool :=
  bool_decide ("|" ∈ argv).

(** [strcmp(argv[argc-1], "&") == 0] *)
Definition wants_bg (argv : list string) : bool :=
  bool_decide (last argv = Some "&").

Definition mask3 : sigset :=
  sigaddset (sigaddset (sigaddset sigemptyset SIGCHLD) SIGINT) SIGTSTP.

(** What the parent does once the child exists; the same lines close
    [eval] and each turn of the loop of [my_pipe]. *)
Definition register_job (argv : list string) (p : Z) (prev_mask : sigset)
    (cmd : string) : M unit :=
  if wants_bg argv then
    addjob p BG cmd;;
    w ← get;
    let i := pid2jid (jobs w) p in
    match getjobpid (jobs w) p ≫= (λ k, jobs w !! k) with
    | None => fault
    | Some job =>
        printf ("[" +:+ fmt_d i +:+ "] (" +:+ fmt_d p +:+ ") " +:+ cmdline job);;
        sigprocmask_setmask prev_mask
    end
  else
    addjob p FG cmd;;
    sigprocmask_setmask prev_mask;;
    waitfg p.

(** The child of [eval], from [fork() == 0] on. *)
Definition eval_child (argv : list string) (prev_mask : sigset) : M unit :=
  sigprocmask_setmask prev_mask;;
  setpgid 0 0;;
  Signal SIGINT SIG_DFL;;
  Signal SIGTSTP SIG_DFL;;
  argv1 ← setup_redirection (Some <$> argv);
  match last argv1 with
  | Some (Some a) =>
      let argv2 := if decide (a = "&")
                   then <[(length argv1 - 1)%nat := None]> argv1 else argv1 in
      err ← execvp (mjoin (head argv2)) argv2;
      if decide (err < 0) then
        printf (default "(null)" (mjoin (head argv2)) +:+ ": Command not found" +:+ NL);;
        exit err
      else skip
  | _ => fault
  end.

(** The split of [my_pipe]: the argument list cut at every "|". *)
Fixpoint split_stages (argv : list string) : list (list string) :=
  match argv with
  | [] => [[]]
  | a :: rest =>
      if decide (a = "|") then [] :: split_stages rest
      else match split_stages rest with
           | s :: ss => (a :: s) :: ss
           | [] => [[a]]
           end
  end.

(** A row of [new_argv] as the child finds it.  [my_pipe] writes the tokens
    of the stage into the row and no NULL after them: what follows is what
    the stack held before, read up to its first NULL.  Of these entries,
    [strings_of] are the strings up to the first pointer that cannot be
    read, and [readable] says that there is no such pointer. *)
Fixpoint strings_of (cs : list cell) : list string :=
  match cs with
  | Str s :: r => s :: strings_of r
  | _ => []
  end.

Fixpoint readable (cs : list cell) : bool :=
  match cs with
  | [] => true
  | Str _ :: r => readable r
  | Wild :: _ => false
  end.

(** The child of one turn of [my_pipe].  [setup_redirection] runs over the
    row as it stands in memory; at a pointer that cannot be read its
    [strcmp] faults. *)
Definition pipe_child (stage : list string) (is_last : bool) (prev_fd wr : Z)
    (prev_mask : sigset) : M unit :=
  sigprocmask_setmask prev_mask;;
  setpgid 0 0;;
  Signal SIGINT SIG_DFL;;
  Signal SIGTSTP SIG_DFL;;
  w ← get;
  let left_over := default [] (head (stale w)) in
  modify (with_stale (tail (stale w)));;
  argv1 ← setup_redirection (Some <$> (stage ++ strings_of left_over));
  if readable left_over then
    (if decide (prev_fd ≠ -1)
     then dup2 prev_fd STDIN_FILENO;; close prev_fd else skip);;
    (if is_last then skip else dup2 wr STDOUT_FILENO);;
    err ← execvp (mjoin (head argv1)) argv1;
    if decide (err = -1) then
      log (EStderr ("Failed to execute command: "
                    +:+ default "(null)" (mjoin (head argv1)) +:+ NL))
    else skip
  else fault.

(** [for (j = 0; j < count; j++)] over the stages still to start; a
    [return] inside the loop is a branch that does not recurse. *)
Fixpoint pipe_loop (stages : list (list string)) (prev_fd : Z)
    (argv : list string) (prev_mask : sigset) (cmd : string) : M unit :=
  match stages with
  | [] => skip
  | stage :: rest =>
      fds ← pipe;
      match fds with
      | None => printf "Piping error"
      | Some (rd, wr) =>
          p ← fork;
          if decide (p = 0) then
            pipe_child stage (bool_decide (rest = [])) prev_fd wr prev_mask
          else if decide (p < 0) then
            log (EStderr "fork")
          else
            setpgid p p;;
            Signal SIGINT sigint_handler_f;;
            Signal SIGTSTP sigtstp_handler_f;;
            (if decide (prev_fd ≠ -1) then close prev_fd else skip);;
            close wr;;
            register_job argv p prev_mask cmd;;
            pipe_loop rest rd argv prev_mask cmd
      end
  end.

Definition my_pipe (argv : list string) (prev_mask : sigset) (cmd : string) : M unit :=
  pipe_loop (split_stages argv) (-1) argv prev_mask cmd.

Definition eval (cmd : string) : M unit :=
  let argv := parseline cmd in
  match argv with
  | [] => skip
  | argv0 :: _ =>
      if decide (argv0 = "quit" ∨ argv0 = "jobs" ∨ argv0 = "bg" ∨ argv0 = "fg") then
        err ← builtin_cmd argv;
        if decide (err ≠ 0) then exit err else skip
      else if has_piping argv then
        prev_mask ← sigprocmask_block mask3;
        my_pipe argv prev_mask cmd
      else
        prev_mask ← sigprocmask_block mask3;
        p ← fork;
        if decide (p < 0) then printf "Error forking"
        else if decide (p = 0) then eval_child argv prev_mask
        else
          setpgid p p;;
          Signal SIGINT sigint_handler_f;;
          Signal SIGTSTP sigtstp_handler_f;;
          register_job argv p prev_mask cmd
  end.

(** ** The read/eval loop *)

Definition prompt : string := "tsh> ".

(** One turn of the loop as the shell sees it: the signals that arrive
    while [fgets] waits, then the line read. *)
Record input := mkinput {
  arriving : list delivery;
  line : string
}.

Fixpoint shell_loop (emit_prompt : bool) (inputs : list input) : M unit :=
  (if emit_prompt then printf prompt else skip);;
  match inputs with
  | [] => exit 0
  | i :: rest =>
      w ← get;
      deliver_all (blocked w) (arriving i);;
      eval (line i);;
      shell_loop emit_prompt rest
  end.

(** [main] after [getopt]: [v] and [p] are the flags -v and -p. *)
Definition main (v p : bool) (inputs : list input) : M unit :=
  dup2 STDOUT_FILENO STDERR_FILENO;;
  modify (with_verbose v);;
  Signal SIGUSR1 sigusr1_handler_f;;
  Signal SIGINT sigint_handler_f;;
  Signal SIGTSTP sigtstp_handler_f;;
  Signal SIGCHLD sigchld_handler_f;;
  Signal SIGQUIT sigquit_handler_f;;
  modify (with_jobs initjobs);;
  shell_loop (negb p) inputs.

(** The process at its start, given the kernel's tapes. *)
Definition boot (fk : list Z) (pp : list (option (Z * Z))) (we : list bool)
    (wk : list (list delivery)) (progs : list string) : world :=
  mkworld jobs_static false [] [] [] fk pp we wk progs.

(** ** Signals that land between two statements *)

(** In the definitions above a handler runs where the main flow waits:
    between two command lines and inside [sigsuspend].  The kernel delivers
    a signal wherever the mask lets it in.  The definitions of [Async] are
    the same code with the places marked at which a signal may land - before
    every statement of the main flow that calls the kernel, prints, or
    reads or writes the job list (a loop that only reads the list counts as
    one statement, and so does [listjobs]).  What lands at such a place is
    read from the tape [arrivals]: its next batch arrives at the next place
    of the name the batch goes with.  A signal that is blocked when it
    lands is held pending until the mask lets it in.  A handler runs to
    its end before the main flow goes on. *)

Definition set_pid (p : Z) (j : job_t) : job_t :=
  mkjob p (jid j) (state j) (cmdline j).
Definition set_jid (i : Z) (j : job_t) : job_t :=
  mkjob (pid j) i (state j) (cmdline j).
Definition set_cmdline (c : string) (j : job_t) : job_t :=
  mkjob (pid j) (jid j) (state j) c.

(** The number of a signal; of the pending signals the kernel delivers the
    one of the lowest number first. *)
Definition signum (s : signo) : Z :=
  match s with
  | SIGINT => 2 | SIGQUIT => 3 | SIGUSR1 => 10
  | SIGCHLD => 17 | SIGCONT => 18 | SIGTSTP => 20
  end.

(** A signal is pending or not: it is not counted. *)
Fixpoint hold (s : signo) (l : list signo) : list signo :=
  match l with
  | [] => [s]
  | x :: r =>
      if decide (s = x) then l
      else if decide (signum s < signum x) then s :: l
      else x :: hold s r
  end.

(** The deliveries still to come and the pending signals: what bounds the
    turns of the loop of [waitfg]. *)
Definition weight (w : world) : nat :=
  length (pending w) + sum_list (length ∘ snd <$> arrivals w)
  + sum_list (S ∘ length <$> wakeups w).

Module Async.

(** One arriving signal under mask [m]: as [deliver], but a blocked signal
    is held pending. *)
Definition raise (m : sigset) (d : delivery) : M bool :=
  w ← get;
  modify (with_children (children w ++ d_changed d));;
  match handler_of (d_sig d) with
  | Some h =>
      if sigismember m (d_sig d)
      then modify (λ v, with_pending (hold (d_sig d) (pending v)) v);; mret false
      else h;; mret true
  | None => mret false
  end.

Fixpoint raise_all (m : sigset) (ds : list delivery) : M bool :=
  match ds with
  | [] => mret false
  | d :: ds' => a ← raise m d; b ← raise_all m ds'; mret (a || b)
  end.

(** The pending signals [ss] that mask [m] lets in are delivered.  Returns
    whether a handler ran. *)
Fixpoint release_from (m : sigset) (ss : list signo) : M bool :=
  match ss with
  | [] => mret false
  | s :: ss' =>
      if sigismember m s then release_from m ss'
      else
        modify (λ v, with_pending (filter (λ x, x ≠ s) (pending v)) v);;
        default skip (handler_of s);;
        release_from m ss';;
        mret true
  end.

Definition release (m : sigset) : M bool :=
  w ← get; release_from m (pending w).

(** The main flow is about to run the statement named [pt]. *)
Definition arrive (pt : point) : M unit :=
  w ← get;
  match arrivals w with
  | (q, batch) :: rest =>
      if decide (q = pt)
      then modify (with_arrivals rest);; raise_all (blocked w) batch;; skip
      else skip
  | [] => skip
  end.

(** [sigprocmask(SIG_SETMASK, &prev_mask, NULL)]: the pending signals that
    the new mask lets in are delivered before the call returns. *)
Definition sigprocmask_setmask (m : sigset) : M unit :=
  modify (with_blocked m);; release m;; skip.

Fixpoint suspend_on (m : sigset) (tape : list (list delivery)) : M unit :=
  match tape with
  | [] => modify (with_wakeups []);; sleep_forever
  | batch :: tape' =>
      modify (with_wakeups tape');;
      raise_all m batch ≫= λ ran : bool,
      if ran then skip else suspend_on m tape'
  end.

(** [sigsuspend(&m)]: with a pending signal that [m] lets in the call does
    not sleep; the mask of before is back when it returns. *)
Definition sigsuspend (m : sigset) : M unit :=
  log (ESigsuspend m);;
  release m ≫= λ ran : bool,
  (if ran then skip else (w ← get; suspend_on m (wakeups w)));;
  w ← get;
  release (blocked w);; skip.

(** Every turn of the loop uses up a pending signal or a wake-up, so
    [weight] bounds the turns. *)
Fixpoint waitfg_loop (fuel : nat) (p : Z) (prev_mask : sigset) : M unit :=
  arrive at_waitfg_test;;
  w ← get;
  if decide (fgpid (jobs w) = p) then
    arrive at_waitfg_sigsuspend;;
    sigsuspend prev_mask;;
    match fuel with
    | O => sleep_forever
    | S fuel' => waitfg_loop fuel' p prev_mask
    end
  else skip.

Definition waitfg (p : Z) : M unit :=
  arrive at_waitfg_block;;
  prev_mask ← sigprocmask_block (sigaddset sigemptyset SIGCHLD);
  w ← get;
  waitfg_loop (weight w) p prev_mask;;
  arrive at_waitfg_restore;;
  sigprocmask_setmask prev_mask.

(** [jobs[i]], read now. *)
Definition slot (i : nat) : M job_t :=
  w ← get;
  match jobs w !! i with
  | Some j => mret j
  | None => fault
  end.

Definition addjob (p : Z) (st : Z) (cmd : string) : M Z :=
  if decide (p < 1) then mret 0
  else
    arrive at_addjob_freejid;;
    w ← get;
    match freejid (jobs w) with
    | None => fault
    | Some free =>
        if decide (free = 0) then
          arrive at_addjob_full;;
          printf ("Tried to create too many jobs" +:+ NL);; mret 0
        else
          arrive at_addjob_search;;
          w1 ← get;
          match free_slot (jobs w1) with
          | Some i =>
              arrive at_addjob_pid;;
              modify (with_jobs (alter (set_pid p) i));;
              arrive at_addjob_state;;
              modify (with_jobs (alter (set_state st) i));;
              arrive at_addjob_jid;;
              modify (with_jobs (alter (set_jid free) i));;
              arrive at_addjob_cmdline;;
              modify (with_jobs (alter (set_cmdline cmd) i));;
              (if verbose w1 then
                 arrive at_addjob_note;;
                 j ← slot i;
                 printf ("Added job [" +:+ fmt_d (jid j) +:+ "] " +:+ fmt_d (pid j)
                         +:+ " " +:+ cmdline j +:+ NL)
               else skip);;
              mret 1
          | None => mret 0
          end
    end.

Definition bgfg_target (argv0 id : string) : M (option nat) :=
  if Ascii.eqb (char0 id) "%" then
    let i := atoi (from1 id) in
    if decide (i = 0) then
      arrive at_bgfg_printf;;
      printf (argv0 +:+ ": argument must be a PID or %jid" +:+ NL);; mret None
    else
      arrive at_bgfg_getjob;;
      w ← get;
      match getjobjid (jobs w) i with
      | None =>
          arrive at_bgfg_printf;;
          printf ("%" +:+ fmt_d i +:+ ": No such job" +:+ NL);; mret None
      | Some k => mret (Some k)
      end
  else
    let p := atoi id in
    if decide (p = 0) then
      arrive at_bgfg_printf;;
      printf (argv0 +:+ ": argument must be a PID or %jid" +:+ NL);; mret None
    else
      arrive at_bgfg_getjob;;
      w ← get;
      match getjobpid (jobs w) p with
      | None =>
          arrive at_bgfg_printf;;
          printf ("(" +:+ fmt_d p +:+ "): No such process" +:+ NL);; mret None
      | Some k => mret (Some k)
      end.

(** [cur_job] points at slot [k]; its fields are read where the statements
    read them. *)
Definition do_bgfg (argv : list string) : M unit :=
  let argv0 := default "" (argv !! 0%nat) in
  match argv !! 1%nat with
  | None =>
      arrive at_bgfg_printf;;
      printf (argv0 +:+ " command requires PID or %jid argument" +:+ NL)
  | Some id =>
      cur ← bgfg_target argv0 id;
      match cur with
      | None => skip
      | Some k =>
          arrive at_bgfg_test;;
          cur_job ← slot k;
          if decide (argv0 = "bg" ∧ state cur_job = ST) then
            arrive at_bgfg_kill;;
            j1 ← slot k;
            kill (- pid j1) SIGCONT;;
            arrive at_bgfg_state;;
            modify (with_jobs (alter (set_state BG) k));;
            arrive at_bgfg_print;;
            j2 ← slot k;
            printf ("[" +:+ fmt_d (jid j2) +:+ "] (" +:+ fmt_d (pid j2)
                    +:+ ") " +:+ cmdline j2)
          else
            arrive at_bgfg_test;;
            cur_job' ← slot k;
            if decide (argv0 = "fg" ∧ (state cur_job' = ST ∨ state cur_job' = BG)) then
              arrive at_bgfg_kill;;
              j1 ← slot k;
              kill (- pid j1) SIGCONT;;
              arrive at_bgfg_state;;
              modify (with_jobs (alter (set_state FG) k));;
              arrive at_bgfg_waitfg;;
              j2 ← slot k;
              waitfg (pid j2)
            else skip
      end
  end.

Definition builtin_cmd (argv : list string) : M Z :=
  let argv0 := default "" (argv !! 0%nat) in
  if decide (argv0 = "quit") then exit 0
  else if decide (argv0 = "jobs") then arrive at_listjobs;; listjobs;; mret 0
  else if decide (argv0 = "bg" ∨ argv0 = "fg") then do_bgfg argv;; mret 0
  else mret 1.

Definition register_job (argv : list string) (p : Z) (prev_mask : sigset)
    (cmd : string) : M unit :=
  if wants_bg argv then
    addjob p BG cmd;;
    arrive at_pid2jid;;
    w ← get;
    let i := pid2jid (jobs w) p in
    arrive at_getjobpid;;
    w1 ← get;
    let job := getjobpid (jobs w1) p in
    arrive at_job_printf;;
    w2 ← get;
    match job ≫= (λ k, jobs w2 !! k) with
    | None => fault
    | Some j =>
        printf ("[" +:+ fmt_d i +:+ "] (" +:+ fmt_d p +:+ ") " +:+ cmdline j);;
        arrive at_restore;;
        sigprocmask_setmask prev_mask
    end
  else
    addjob p FG cmd;;
    arrive at_restore;;
    sigprocmask_setmask prev_mask;;
    waitfg p.

Fixpoint pipe_loop (stages : list (list string)) (prev_fd : Z)
    (argv : list string) (prev_mask : sigset) (cmd : string) : M unit :=
  match stages with
  | [] => skip
  | stage :: rest =>
      arrive at_pipe;;
      fds ← pipe;
      match fds with
      | None => arrive at_pipe_failed;; printf "Piping error"
      | Some (rd, wr) =>
          arrive at_fork;;
          p ← fork;
          if decide (p = 0) then
            pipe_child stage (bool_decide (rest = [])) prev_fd wr prev_mask
          else if decide (p < 0) then
            arrive at_fork_failed;;
            log (EStderr "fork")
          else
            arrive at_setpgid;;
            setpgid p p;;
            arrive at_signal;;
            Signal SIGINT sigint_handler_f;;
            arrive at_signal;;
            Signal SIGTSTP sigtstp_handler_f;;
            (if decide (prev_fd ≠ -1) then arrive at_close;; close prev_fd else skip);;
            arrive at_close;;
            close wr;;
            register_job argv p prev_mask cmd;;
            pipe_loop rest rd argv prev_mask cmd
      end
  end.

Definition my_pipe (argv : list string) (prev_mask : sigset) (cmd : string) : M unit :=
  pipe_loop (split_stages argv) (-1) argv prev_mask cmd.

Definition eval (cmd : string) : M unit :=
  let argv := parseline cmd in
  match argv with
  | [] => skip
  | argv0 :: _ =>
      if decide (argv0 = "quit" ∨ argv0 = "jobs" ∨ argv0 = "bg" ∨ argv0 = "fg") then
        err ← builtin_cmd argv;
        if decide (err ≠ 0) then exit err else skip
      else if has_piping argv then
        arrive at_block;;
        prev_mask ← sigprocmask_block mask3;
        my_pipe argv prev_mask cmd
      else
        arrive at_block;;
        prev_mask ← sigprocmask_block mask3;
        arrive at_fork;;
        p ← fork;
        if decide (p < 0) then arrive at_fork_failed;; printf "Error forking"
        else if decide (p = 0) then eval_child argv prev_mask
        else
          arrive at_setpgid;;
          setpgid p p;;
          arrive at_signal;;
          Signal SIGINT sigint_handler_f;;
          arrive at_signal;;
          Signal SIGTSTP sigtstp_handler_f;;
          register_job argv p prev_mask cmd
  end.

(** The signals of [arriving] land while [fgets] waits for the line. *)
Fixpoint shell_loop (emit_prompt : bool) (inputs : list input) : M unit :=
  (if emit_prompt then arrive at_prompt;; printf prompt else skip);;
  match inputs with
  | [] => exit 0
  | i :: rest =>
      w ← get;
      raise_all (blocked w) (arriving i);;
      eval (line i);;
      shell_loop emit_prompt rest
  end.

(** Until [main] has installed the handlers a signal ends the shell: none
    lands there. *)
Definition main (v p : bool) (inputs : list input) : M unit :=
  dup2 STDOUT_FILENO STDERR_FILENO;;
  modify (with_verbose v);;
  Signal SIGUSR1 sigusr1_handler_f;;
  Signal SIGINT sigint_handler_f;;
  Signal SIGTSTP sigtstp_handler_f;;
  Signal SIGCHLD sigchld_handler_f;;
  Signal SIGQUIT sigquit_handler_f;;
  modify (with_jobs initjobs);;
  shell_loop (negb p) inputs.

End Async.

(** * Vocabulary of the statements *)

Definition slot_ok (j : job_t) : Prop :=
  (pid j = 0 ∧ jid j = 0 ∧ state j = UNDEF) ∨
  (1 ≤ pid j ∧ 1 ≤ jid j ≤ Z.of_nat MAXJOBS ∧
   (state j = FG ∨ state j = BG ∨ state j = ST)).

(** Every slot is either cleared or holds a job with a pid, a jid in
    [1 .. MAXJOBS] and a state; live jobs have distinct jids and pids. *)
Record wf_jobs (js : list job_t) : Prop := mk_wf {
  wf_len : length js = MAXJOBS;
  wf_slot : Forall slot_ok js;
  wf_jids : ∀ a b ja jb, js !! a = Some ja → js !! b = Some jb →
            live ja → live jb → jid ja = jid jb → a = b;
  wf_pids : ∀ a b ja jb, js !! a = Some ja → js !! b = Some jb →
            live ja → live jb → pid ja = pid jb → a = b
}.

Ltac run :=
  unfold mbind, M_bind, mret, M_ret, get, modify, log, printf, kill, setpgid,
    Signal, close, dup2, exit, fault, gone, skip, sleep_forever,
    sigprocmask_block, sigprocmask_setmask in *; simpl in *.

Definition jids_in_range (js : list job_t) : Prop :=
  Forall (λ j, 0 ≤ jid j ≤ Z.of_nat MAXJOBS) js.

Definition added_note (f p : Z) (cmd : string) : event :=
  EPrintf ("Added job [" +:+ fmt_d f +:+ "] " +:+ fmt_d p +:+ " " +:+ cmd +:+ NL).

Definition full_note : event := EPrintf ("Tried to create too many jobs" +:+ NL).

(** A form of well-formedness that can be decided by evaluation. *)
Definition wf_check (js : list job_t) : Prop :=
  length js = MAXJOBS ∧ Forall slot_ok js ∧
  NoDup (jid <$> filter live js) ∧ NoDup (pid <$> filter live js).

Global Instance live_dec (j : job_t) : Decision (live j).
Proof. unfold live. apply _. Defined.

Global Instance slot_ok_dec (j : job_t) : Decision (slot_ok j).
Proof. unfold slot_ok. apply _. Defined.

Global Instance wf_check_dec (js : list job_t) : Decision (wf_check js).
Proof. unfold wf_check. apply _. Defined.

(** [demotes js js']: slot by slot, a job that is in the foreground in
    [js'] is the very job [js] had there.  Clearing a slot and stopping a
    job both fit; putting a job in the foreground does not. *)
Definition demotes (js js' : list job_t) : Prop :=
  Forall2 (λ a b, state b = FG → b = a) js js'.

Definition no_fg (js : list job_t) : Prop := Forall (λ j, state j ≠ FG) js.

(** Every foreground job has pid [p]. *)
Definition fg_only (p : Z) (js : list job_t) : Prop :=
  Forall (λ j, state j = FG → pid j = p) js.

(** Outcomes preserving a property of the world, whatever the outcome. *)
Definition keeps {A} (I : world → Prop) (m : M A) : Prop :=
  ∀ w, I w → I (final (m w)).

(** Closes [keeps I m] for a primitive [m] that leaves alone what [I] reads. *)
Ltac kept := by (intros ? ?; simpl in *).

(** What the handlers keep: any property of the world that survives the
    few writes they make. *)
Definition not_setpgid (e : event) : Prop :=
  match e with ESetpgid _ _ => False | _ => True end.

(** Closes [keeps Inv m] for a primitive [m], with the hypotheses at hand or
    with [emit_rule] for what [m] logs. *)
Ltac kept_by emit_rule :=
  intros ? ?; simpl; first [ by auto | apply emit_rule; [exact I | by auto] ].

(** The job list after a handler is a demotion of the list before. *)
Definition demoting {A} (m : M A) : Prop :=
  ∀ js, keeps (λ w, demotes js (jobs w)) m.

(** [hoare P m Q E]: from a world in [P], [m] returns into [Q], and any
    other outcome (exit, fault, exec, sleeping for ever) leaves a world in [E]. *)
Definition hoare {A} (P : world → Prop) (m : M A) (Q : A → world → Prop)
    (E : world → Prop) : Prop :=
  ∀ w, P w → match m w with
             | Ret a w' => Q a w'
             | r => E (final r)
             end.

(** Closes [hoare P m Q E] for a primitive [m] by evaluation. *)
Ltac stepped := by (intros ? ?; simpl in *).

Definition idle (w : world) : Prop := no_fg (jobs w).
Definition atmost1 (w : world) : Prop := (fg_count (jobs w) ≤ 1)%nat.
Definition waiting (p : Z) (w : world) : Prop :=
  fg_only p (jobs w) ∧ (fg_count (jobs w) ≤ 1)%nat.

(** Code that never writes the job list. *)
Definition jobs_fixed {A} (m : M A) : Prop :=
  ∀ js, keeps (λ w, jobs w = js) m.

Fixpoint count_nl (s : string) : nat :=
  match s with
  | EmptyString => 0
  | String c s' => (if Ascii.eqb c "010" then 1 else 0) + count_nl s'
  end.

Fixpoint ends_with_nl (s : string) : bool :=
  match s with
  | EmptyString => false
  | String c EmptyString => Ascii.eqb c "010"
  | String _ s' => ends_with_nl s'
  end.

(** One newline, and it is the last character. *)
Definition one_line (s : string) : Prop :=
  count_nl s = 1%nat ∧ ends_with_nl s = true.

(** Code that never leaves the caller asleep. *)
Definition nonblocking {A} (m : M A) : Prop := ∀ w w', m w ≠ Blocked w'.

Definition job_of (js : list job_t) (p : Z) : option job_t :=
  getjobpid js p ≫= (js !!.).

(** Among the children [cs], pid [p] is reported dead (terminated by a
    signal or exited), or reported at all. *)
Definition reported_dead (cs : list (Z * wstatus)) (p : Z) : Prop :=
  Exists (λ c, c.1 = p ∧ WIFSTOPPED c.2 = false) cs.

Definition reported (cs : list (Z * wstatus)) (p : Z) : Prop :=
  Exists (λ c, c.1 = p) cs.

(** What becomes of job [j] when the children [cs] are reaped: removed if
    its pid is reported dead, stopped if its pid is reported stopped and
    no more, left alone if its pid is not reported. *)
Definition slot_after (cs : list (Z * wstatus)) (j : job_t) : job_t :=
  if decide (reported_dead cs (pid j)) then clearjob j
  else if decide (reported cs (pid j)) then set_state ST j
  else j.

(** The notice due for one reaped child: one line for a stopped or a
    signalled child, nothing for one that exited. *)
Definition status_notice (js : list job_t) (c : Z * wstatus) : list event :=
  match c.2, job_of js c.1 with
  | WStopped sig, Some j => [EWrite STDOUT_FILENO (stopped_msg j sig) true]
  | WSignaled sig, Some j => [EWrite STDOUT_FILENO (terminated_msg j sig) true]
  | _, _ => []
  end.

(** No child of [cs] is reported stopped or signalled after it was
    reported dead, in [cs] or among [dead]. *)
Fixpoint reported_alive (dead : list Z) (cs : list (Z * wstatus)) : Prop :=
  match cs with
  | [] => True
  | c :: r =>
      (WIFEXITED c.2 = false → c.1 ∉ dead) ∧
      reported_alive (if WIFSTOPPED c.2 then dead else c.1 :: dead) r
  end.

(** The kernel reports real children; those reported stopped or signalled
    are in the job list, and none of them was reported dead before. *)
Definition reapable (js : list job_t) (cs : list (Z * wstatus)) : Prop :=
  Forall (λ c, 0 < c.1 ∧ (WIFEXITED c.2 = false → is_Some (getjobpid js c.1))) cs ∧
  reported_alive [] cs.

Definition writes_ok (w : world) : Prop := Forall (λ b, b = false) (write_errs w).

(** The list after one pass of the loop body. *)
Definition status_effect (js : list job_t) (c : Z * wstatus) : list job_t :=
  match c.2 with
  | WStopped _ =>
      match getjobpid js c.1 with
      | Some k => alter (set_state ST) k js
      | None => js
      end
  | _ => (deletejob_tbl js c.1).1
  end.

Definition drain_trace (js : list job_t) (cs : list (Z * wstatus)) : list event :=
  flat_map (λ c, EWaitpid c.1 :: status_notice js c) cs ++ [EWaitpid 0].

(** A reaped child that stopped or was signalled and has no job. *)
Definition unregistered (js : list job_t) (c : Z * wstatus) : Prop :=
  WIFEXITED c.2 = false ∧ getjobpid js c.1 = None.

Global Instance unregistered_dec (js : list job_t) (c : Z * wstatus) :
  Decision (unregistered js c).
Proof. unfold unregistered. apply _. Defined.



(** [argv[1]] names the job in slot [k], and nothing is printed about it. *)
Definition designates (w : world) (cmd id : string) (k : nat) : Prop :=
  bgfg_target cmd id w = Ret (Some k) w.

Definition bg_line (j : job_t) : event :=
  EPrintf ("[" +:+ fmt_d (jid j) +:+ "] (" +:+ fmt_d (pid j) +:+ ") " +:+ cmdline j).

Definition table_full (js : list job_t) : Prop := Forall live js.

Global Instance table_full_dec (js : list job_t) : Decision (table_full js).
Proof. unfold table_full. apply _. Defined.

Definition is_builtin (argv0 : string) : Prop :=
  argv0 = "quit" ∨ argv0 = "jobs" ∨ argv0 = "bg" ∨ argv0 = "fg".

(** What [eval] does between [fork] and [addjob], in the parent. *)
Definition launch_events (p : Z) : list event :=
  [EFork p; ESetpgid p p; ESignal SIGINT sigint_handler_f;
   ESignal SIGTSTP sigtstp_handler_f].

(** A call of [setpgid] that makes a process the leader of its own group:
    [setpgid(pid, pid)] in the parent, [setpgid(0, 0)] in the child. *)
Definition own_group (e : event) : Prop :=
  match e with ESetpgid p g => g = p | _ => True end.

(** Since the trace was [t0], every [setpgid] made was of that kind. *)
Definition only_own_groups (t0 : list event) (w : world) : Prop :=
  ∃ t, trace w = t0 ++ t ∧ Forall own_group t.

Definition pgid_of (e : event) : option (Z * Z) :=
  match e with ESetpgid p g => Some (p, g) | _ => None end.

(** The [setpgid] calls of a trace, as pairs (process, group). *)
Definition pgid_events (t : list event) : list (Z * Z) := omap pgid_of t.

Definition live_count (js : list job_t) : nat := length (filter live js).

(** The parent's side of one turn of the loop of [my_pipe], up to the
    registration of the stage. *)
Definition stage_started (prev_fd p rd wr : Z) (fk : list Z)
    (pk : list (option (Z * Z))) (w : world) : world :=
  let w1 := emit (EFork p) (with_forks fk
              (emit (EPipe (Some (rd, wr))) (with_pipes pk w))) in
  let w2 := emit (ESignal SIGTSTP sigtstp_handler_f)
              (emit (ESignal SIGINT sigint_handler_f) (emit (ESetpgid p p) w1)) in
  emit (EClose wr) (if decide (prev_fd ≠ -1) then emit (EClose prev_fd) w2 else w2).

Definition cleared : job_t := mkjob 0 0 UNDEF "".

(** Three jobs: one running in the background, one stopped, one in the
    foreground. *)
Definition demo_jobs : list job_t :=
  [mkjob 101 1 BG ("sleep 9 &" +:+ NL); mkjob 102 2 ST ("vi" +:+ NL);
   mkjob 103 3 FG ("cat" +:+ NL)] ++ replicate 13 cleared.

Definition with_table (js : list job_t) : world :=
  mkworld js false [] [] [] [] [] [] [] [].

Definition demo_world : world := with_table demo_jobs.

(** Two jobs, nothing in the foreground: the shell at its prompt. *)
Definition prompt_jobs : list job_t :=
  [mkjob 101 1 BG ("sleep 9 &" +:+ NL); mkjob 102 2 ST ("vi" +:+ NL)]
  ++ replicate 14 cleared.

Definition prompt_world : world := with_table prompt_jobs.

(** Sixteen background jobs. *)
Definition full_jobs : list job_t :=
  (λ n, mkjob (200 + Z.of_nat n) (Z.of_nat n) BG ("sleep 9 &" +:+ NL)) <$> seq 1 16.

Definition full_world : world := with_table full_jobs.

(** Three children to reap: the stopped job 2, the signalled job 3 and
    the exited job 1. *)
Definition reap_world : world :=
  mkworld demo_jobs false [] []
          [(102, WStopped 20); (103, WSignaled 2); (101, WExited 0)]
          [] [] [] [[mkdelivery SIGINT []]] [].

Global Instance reported_alive_dec (dead : list Z) (cs : list (Z * wstatus)) :
  Decision (reported_alive dead cs).
Proof. revert dead. induction cs as [|c r IH]; intros dead; simpl; apply _. Defined.

Global Instance reapable_dec (js : list job_t) (cs : list (Z * wstatus)) :
  Decision (reapable js cs).
Proof. unfold reapable. apply _. Defined.

Global Instance writes_ok_dec (w : world) : Decision (writes_ok w).
Proof. unfold writes_ok. apply _. Defined.

(** A signalled child the job list does not know. *)
Definition orphan_world : world :=
  mkworld demo_jobs false [] [] [(102, WStopped 20); (555, WSignaled 9)]
          [] [] [] [] [].

(** [sleep 5] typed with sixteen jobs in the list: the parent's run, with
    [fork] returning 117, and the child's, with [fork] returning 0. *)
Definition sleep5 : string := "sleep 5" +:+ NL.
Definition full_parent : world := with_forks [117] full_world.
Definition full_child : world :=
  mkworld full_jobs false [] [] [] [0] [] [] [] ["sleep"].

(** The claim as the spec has it: with the job list full, the requested
    job is not started - no process is forked for it. *)
Definition not_started (w : world) (cmd : string) : Prop :=
  ∀ p, EFork p ∉ drop (length (trace w)) (trace (final (eval cmd w))).

(** [a | b | c &]: three stages, forked as 101, 102 and 103. *)
Definition abc_cmd : string := "a | b | c &" +:+ NL.
Definition abc_argv : list string := ["a"; "|"; "b"; "|"; "c"; "&"].
Definition abc_world : world :=
  boot [101; 102; 103] [Some (3, 4); Some (5, 6); Some (7, 8)] [] [] [].

(** The claim as the spec has it, for the jobs and groups a pipeline
    leaves: one job, tracked by the first stage's pid, and one group, led
    by the first stage. *)
Definition one_job_one_group (first : Z) (w' : world) : Prop :=
  (pid <$> filter live (jobs w')) = [first] ∧
  Forall (λ pg, pg.2 = first) (pgid_events (trace w')).

(** ** Vocabulary of the further properties *)

(** The sizes of the line buffer and of the argument array. *)
Definition MAXLINE : nat := 1024.
Definition MAXARGS : nat := 128.

(** Like [run], on the goal only. *)
Ltac step :=
  unfold mbind, M_bind, mret, M_ret, get, modify, log, printf, kill, setpgid,
    Signal, close, dup2, exit, fault, gone, skip, sleep_forever,
    sigprocmask_block, sigprocmask_setmask; simpl.

(** The world after the events [es], in order. *)
Definition emits (es : list event) (w : world) : world :=
  foldl (λ v e, emit e v) w es.

(** What [jobs] prints for one job: its ids, its state, its command line. *)
Definition state_word (j : job_t) : string :=
  if decide (state j = BG) then "Running "
  else if decide (state j = FG) then "Foreground "
  else "Stopped ".

Definition job_listing (j : job_t) : list event :=
  [EPrintf ("[" +:+ fmt_d (jid j) +:+ "] (" +:+ fmt_d (pid j) +:+ ") ");
   EPrintf (state_word j); EPrintf (cmdline j)].

(** A command line as it is typed: tokens, each after a run of blanks.  A
    plain word has no blank in it and does not start with a quote; a quoted
    token is what stands between two single quotes. *)
Fixpoint spaces (n : nat) : string :=
  match n with O => "" | S n' => String " " (spaces n') end.

Fixpoint free_of (c : ascii) (s : string) : Prop :=
  match s with
  | EmptyString => True
  | String a r => a ≠ c ∧ free_of c r
  end.

Inductive token := Plain (s : string) | Quoted (s : string).

Definition text (t : token) : string :=
  match t with Plain s => s | Quoted s => s end.

Definition is_plain (t : token) : bool :=
  match t with Plain _ => true | Quoted _ => false end.

Definition token_ok (t : token) : Prop :=
  match t with
  | Plain s => s ≠ "" ∧ char0 s ≠ "'"%char ∧ free_of " " s
  | Quoted s => free_of "'" s
  end.

Definition typed (t : token) : string :=
  match t with Plain s => s | Quoted s => "'" +:+ s +:+ "'" end.

Fixpoint typed_line (ts : list (nat * token)) : string :=
  match ts with
  | [] => ""
  | (n, t) :: r => spaces n +:+ typed t +:+ typed_line r
  end.

(** Every token is sound, and a token that follows a plain word is set off
    from it by a blank at least. *)
Fixpoint well_spaced (after_plain : bool) (ts : list (nat * token)) : Prop :=
  match ts with
  | [] => True
  | (n, t) :: r =>
      (after_plain = true → n ≠ 0%nat) ∧ token_ok t ∧ well_spaced (is_plain t) r
  end.

(** Whether the last token is a plain word. *)
Fixpoint ends_plain (after_plain : bool) (ts : list (nat * token)) : bool :=
  match ts with
  | [] => after_plain
  | (_, t) :: r => ends_plain (is_plain t) r
  end.

Global Instance free_of_dec (c : ascii) (s : string) : Decision (free_of c s).
Proof. induction s as [|a s IH]; simpl; apply _. Defined.

Global Instance token_ok_dec (t : token) : Decision (token_ok t).
Proof. destruct t; simpl; apply _. Defined.

Global Instance well_spaced_dec (after_plain : bool) (ts : list (nat * token)) :
  Decision (well_spaced after_plain ts).
Proof.
  revert after_plain. induction ts as [|[n t] r IH]; intros after_plain; simpl; apply _.
Defined.

(** The stages of a pipeline put together again. *)
Definition join_stages (ss : list (list string)) : list string :=
  match ss with
  | [] => []
  | s :: r => s ++ flat_map (λ x, "|" :: x) r
  end.

Definition is_redirect (a : string) : Prop := a = "<" ∨ a = ">".

Global Instance is_redirect_dec (a : string) : Decision (is_redirect a).
Proof. unfold is_redirect. apply _. Defined.

(** The redirections an argument list asks for, in order, each with the
    token that follows the operator as the file. *)
Fixpoint redirections (args : list string) : list event :=
  match args with
  | [] => []
  | a :: r =>
      (if decide (a = "<") then [ERedirect STDIN_FILENO (head r)]
       else if decide (a = ">") then [ERedirect STDOUT_FILENO (head r)]
       else []) ++ redirections r
  end.

(** The argument list with NULL in the place of every operator. *)
Definition blank_redirects (args : list string) : list (option string) :=
  (λ a, if decide (is_redirect a) then None else Some a) <$> args.

(** The arguments that stand before the first operator. *)
Fixpoint before_redirect (args : list string) : list string :=
  match args with
  | a :: r => if decide (is_redirect a) then [] else a :: before_redirect r
  | [] => []
  end.

(** What the child of [eval] runs the program with: the arguments before
    the first operator, a closing [&] left out. *)
Definition exec_args (argv : list string) : list string :=
  before_redirect (if wants_bg argv then take (length argv - 1) argv else argv).

(** What a child does first: its own group, the default actions back. *)
Definition child_setup : list event :=
  [ESetpgid 0 0; ESignal SIGINT SIG_DFL; ESignal SIGTSTP SIG_DFL].

(** How a stage of a pipeline is joined to its neighbours. *)
Definition pipe_ends (is_last : bool) (prev_fd wr : Z) : list event :=
  (if decide (prev_fd ≠ -1) then [EDup2 prev_fd STDIN_FILENO; EClose prev_fd] else [])
  ++ (if is_last then [] else [EDup2 wr STDOUT_FILENO]).


(** Job 3 is in the foreground when ctrl-c is typed; it dies of it. *)
Definition ctrl_c_world : world :=
  mkworld demo_jobs false [] [] [] [] [] []
          [[mkdelivery SIGINT []]; [mkdelivery SIGCHLD [(103, WSignaled 2)]]] [].

(** The shell at its prompt, with 104 the pid the next [fork] returns. *)
Definition launch_world : world := with_forks [104] prompt_world.

(** [ls -l 'my file'], as typed. *)
Definition ls_tokens : list (nat * token) :=
  [(0%nat, Plain "ls"); (1%nat, Plain "-l"); (2%nat, Quoted "my file")].

(** A child that finds [sort] on the path. *)
Definition child_world : world :=
  mkworld prompt_jobs false [SIGCHLD; SIGINT; SIGTSTP] [] [] [] [] [] [] ["sort"].




(** The child of the first stage of [echo x | cat]; the row of the stage
    holds two pointers that an earlier pipeline wrote. *)
Definition echo_world : world :=
  with_stale [[Str "|"; Str "cat"]]
    (mkworld prompt_jobs false [SIGCHLD; SIGINT; SIGTSTP] [] [] [] [] [] [] ["echo"]).

(** ** Vocabulary of the runs in which signals land anywhere *)

(** One turn of the loop of [Async.waitfg], from a test that held to the
    next test. *)
Definition turn (m : sigset) : M unit :=
  Async.arrive at_waitfg_sigsuspend;;
  Async.sigsuspend m;;
  Async.arrive at_waitfg_test.

Fixpoint turns (n : nat) (m : sigset) : M unit :=
  match n with
  | O => skip
  | S n' => turn m;; turns n' m
  end.

(** After [n] turns the test [fgpid(jobs) == pid] fails for the first
    time. *)
Definition released (p : Z) (m : sigset) (w0 : world) (n : nat) (w1 : world) : Prop :=
  turns n m w0 = Ret tt w1 ∧
  fgpid (jobs w1) ≠ p ∧
  ∀ i, (i < n)%nat → ∃ wi, turns i m w0 = Ret tt wi ∧ fgpid (jobs wi) = p.

(** How [Async.waitfg] comes to its first test, and how it leaves after
    the last. *)
Definition waitfg_enter : M unit :=
  Async.arrive at_waitfg_block;;
  sigprocmask_block (sigaddset sigemptyset SIGCHLD);;
  Async.arrive at_waitfg_test.

Definition waitfg_leave (prev_mask : sigset) : M unit :=
  Async.arrive at_waitfg_restore;;
  Async.sigprocmask_setmask prev_mask.

(** The loop of [Async.waitfg] from its test on. *)
Definition after_test (fuel : nat) (p : Z) (m : sigset) : M unit :=
  w ← get;
  if decide (fgpid (jobs w) = p) then
    Async.arrive at_waitfg_sigsuspend;;
    Async.sigsuspend m;;
    match fuel with
    | O => sleep_forever
    | S fuel' => Async.waitfg_loop fuel' p m
    end
  else skip.

(** No ctrl-z lands between a test of [waitfg] and the [sigsuspend] that
    follows it. *)
Definition no_stop_before_sleep (w : world) : Prop :=
  Forall (λ a, a.1 = at_waitfg_sigsuspend → Forall (λ d, d_sig d ≠ SIGTSTP) a.2)
         (arrivals w).

Global Instance no_stop_before_sleep_dec (w : world) : Decision (no_stop_before_sleep w).
Proof. unfold no_stop_before_sleep. apply _. Defined.

(** The foreground job 103 ends between the test of [waitfg] and its
    [sigsuspend]; nothing arrives later. *)
Definition ended_before_sleep : world :=
  with_arrivals [(at_waitfg_sigsuspend, [mkdelivery SIGCHLD [(103, WExited 0)]])]
    demo_world.

(** Three lines typed at the prompt.  [sleep 1 &] is still running when
    the pipeline is typed; it has ended when [cat] is typed. *)
Definition race_inputs : list input :=
  [mkinput [] ("sleep 1 &" +:+ NL);
   mkinput [] ("ls | true" +:+ NL);
   mkinput [mkdelivery SIGCHLD [(101, WExited 0)]] ("cat" +:+ NL)].

(** [fork] returns 101 for [sleep], 102 for [ls], 103 for [true] and 104
    for [cat]; [ls] ends while the shell waits for it. *)
Definition race_kernel : world :=
  boot [101; 102; 103; 104] [Some (3, 4); Some (5, 6)] []
       [[mkdelivery SIGCHLD [(102, WExited 0)]]] [].

(** [true] ends while [addjob] registers it, between the store of its pid
    and the store of its state: the third time [addjob] comes there. *)
Definition race_world : world :=
  with_arrivals [(at_addjob_state, []); (at_addjob_state, []);
                 (at_addjob_state, [mkdelivery SIGCHLD [(103, WExited 0)]])]
    race_kernel.

(** The same three lines with [true] alone in place of the pipeline:
    [fork] returns 102 for it and 103 for [cat], and [true] ends at the
    same place of [addjob], the second time [addjob] comes there. *)
Definition single_inputs : list input :=
  [mkinput [] ("sleep 1 &" +:+ NL);
   mkinput [] ("true" +:+ NL);
   mkinput [mkdelivery SIGCHLD [(101, WExited 0)]] ("cat" +:+ NL)].

Definition single_world : world :=
  with_arrivals [(at_addjob_state, []);
                 (at_addjob_state, [mkdelivery SIGCHLD [(102, WExited 0)]])]
    (boot [101; 102; 103] [] [] [] []).

(** The statements of [do_bgfg] itself, those of [waitfg] apart. *)
Definition bgfg_points : list point :=
  [at_bgfg_printf; at_bgfg_getjob; at_bgfg_test; at_bgfg_kill; at_bgfg_state;
   at_bgfg_print; at_bgfg_waitfg].

(** The next signals land after [do_bgfg] has printed or has called
    [waitfg]: none lands between two statements of [do_bgfg] itself. *)
Definition lands_later (w : world) : Prop :=
  match arrivals w with
  | [] => True
  | a :: _ => a.1 ∉ bgfg_points
  end.

Global Instance lands_later_dec (w : world) : Decision (lands_later w).
Proof. unfold lands_later. destruct (arrivals w); apply _. Defined.


(** * Properties *)

(** ** Well-formed job lists *)

Lemma scan_free_spec (ts : list bool) (i : Z) :
  1 ≤ i →
  (scan_free i ts = 0 ∧ Forall (λ t, t = true) ts) ∨
  (∃ n : nat, scan_free i ts = i + Z.of_nat n ∧ ts !! n = Some false ∧
              ∀ m : nat, (m < n)%nat → ts !! m = Some true).
Proof.
  revert i. induction ts as [|t ts IH]; intros i Hi; simpl.
  - left. split; [done | constructor].
  - destruct t.
    + destruct (IH (i + 1)) as [[E F] | (n & E & L & B)]; [lia | |].
      * left. split; [done | by constructor].
      * right. exists (S n). split; [lia | split; [done |]].
        intros [|m] Hm; simpl; [done | apply B; lia].
    + right. exists 0%nat. split; [lia | split; [done |]]. intros m Hm. lia.
Qed.

Lemma taken_fold_spec (js : list job_t) (t0 : list bool) :
  length t0 = S MAXJOBS →
  jids_in_range js →
  ∃ t, foldl mark_taken (Some t0) js = Some t ∧ length t = S MAXJOBS ∧
       ∀ n : nat, (1 ≤ n)%nat →
         (t !! n = Some true ↔
          t0 !! n = Some true ∨ ∃ j, j ∈ js ∧ jid j = Z.of_nat n).
Proof.
  revert t0. induction js as [|j js IH]; intros t0 Hlen Hr; simpl.
  - exists t0. split; [done | split; [done |]]. intros n Hn. split; [tauto |].
    intros [H | (j & Hj & _)]; [done | by apply elem_of_nil in Hj].
  - apply Forall_cons in Hr as [Hj Hr].
    destruct (decide (jid j = 0)) as [E0 | N0].
    + destruct (IH t0 Hlen Hr) as (t & E & L & HS).
      exists t. split; [done | split; [done |]]. intros n Hn. rewrite (HS n Hn).
      split.
      * intros [H | (x & Hx & Ex)]; [by left | right; exists x].
        split; [by apply elem_of_cons; right | done].
      * intros [H | (x & Hx & Ex)]; [by left |].
        apply elem_of_cons in Hx as [-> | Hx]; [lia |]. right. by exists x.
    + rewrite decide_True by done.
      destruct (IH (<[Z.to_nat (jid j) := true]> t0)) as (t & E & L & HS);
        [by rewrite length_insert | done |].
      exists t. split; [done | split; [done |]]. intros n Hn. rewrite (HS n Hn).
      rewrite list_lookup_insert by (rewrite Hlen; unfold MAXJOBS in *; lia).
      split.
      * intros [H | (x & Hx & Ex)].
        -- case_decide as D; [| by left].
           right. exists j. split; [apply elem_of_cons; by left | lia].
        -- right. exists x. split; [by apply elem_of_cons; right | done].
      * intros [H | (x & Hx & Ex)].
        -- left. case_decide; [done | done].
        -- apply elem_of_cons in Hx as [-> | Hx].
           ++ left. rewrite decide_True by lia. done.
           ++ right. by exists x.
Qed.

(** What [freejid] computes, for jids within the bounds of [taken]. *)
Lemma freejid_spec (js : list job_t) :
  jids_in_range js →
  ∃ f, freejid js = Some f ∧
    ((f = 0 ∧ ∀ i, 1 ≤ i ≤ Z.of_nat MAXJOBS → ∃ j, j ∈ js ∧ jid j = i) ∨
     (1 ≤ f ≤ Z.of_nat MAXJOBS ∧ (¬ ∃ j, j ∈ js ∧ jid j = f) ∧
      ∀ i, 1 ≤ i < f → ∃ j, j ∈ js ∧ jid j = i)).
Proof.
  intros Hr.
  destruct (taken_fold_spec js (replicate (S MAXJOBS) false)) as (t & E & L & HS);
    [by rewrite length_replicate | done |].
  assert (HS' : ∀ n : nat, (1 ≤ n)%nat →
            (t !! n = Some true ↔ ∃ j, j ∈ js ∧ jid j = Z.of_nat n)).
  { intros n Hn. rewrite (HS n Hn). split; [| by right].
    intros [H | H]; [| done].
    apply lookup_replicate in H as [? _]. done. }
  unfold freejid, taken_of. rewrite E. simpl.
  destruct (scan_free_spec (drop 1 t) 1) as [[E0 F] | (n & En & Ln & Bn)]; [lia | |].
  - exists 0. split; [by rewrite E0 |]. left. split; [done |].
    intros i Hi. replace i with (Z.of_nat (Z.to_nat i)) by lia.
    apply HS'; [lia |].
    assert (Hlt : (Z.to_nat i - 1 < length (drop 1 t))%nat)
      by (rewrite length_drop, L; unfold MAXJOBS in *; lia).
    apply lookup_lt_is_Some in Hlt as [b Hb].
    rewrite Forall_lookup in F. pose proof (F _ _ Hb) as ->.
    rewrite lookup_drop in Hb.
    replace (1 + (Z.to_nat i - 1))%nat with (Z.to_nat i) in Hb by lia. done.
  - exists (1 + Z.of_nat n). split; [by rewrite En |]. right.
    assert (Hn : (n < length (drop 1 t))%nat) by (by eapply lookup_lt_Some).
    rewrite length_drop, L in Hn.
    split; [unfold MAXJOBS in *; lia |]. split.
    + intros H. replace (1 + Z.of_nat n) with (Z.of_nat (S n)) in H by lia.
      apply HS' in H; [| lia]. rewrite lookup_drop in Ln. simpl in Ln. congruence.
    + intros i Hi. replace i with (Z.of_nat (Z.to_nat i)) by lia.
      apply HS'; [lia |].
      specialize (Bn (Z.to_nat i - 1)%nat). rewrite lookup_drop in Bn.
      replace (1 + (Z.to_nat i - 1))%nat with (Z.to_nat i) in Bn by lia.
      apply Bn. lia.
Qed.

(** ** The job list under add and delete *)

Lemma addjob_unfold (p st : Z) (cmd : string) (w : world) :
  addjob p st cmd w =
  if decide (p < 1) then Ret 0 w
  else match freejid (jobs w) with
       | None => Fault w
       | Some f =>
           if decide (f = 0) then Ret 0 (emit full_note w)
           else match free_slot (jobs w) with
                | Some k =>
                    let w1 := with_jobs (λ js, <[k := mkjob p f st cmd]> js) w in
                    Ret 1 (if verbose w then emit (added_note f p cmd) w1 else w1)
                | None => Ret 0 w
                end
       end.
Proof.
  unfold addjob. case_decide; [done |]. run.
  destruct (freejid (jobs w)) as [f|]; [| done].
  case_decide; [done |].
  destruct (free_slot (jobs w)) as [k|]; [| done].
  run. by destruct (verbose w).
Qed.

Lemma deletejob_unfold (p : Z) (w : world) :
  deletejob p w =
  Ret (deletejob_tbl (jobs w) p).2
      (with_jobs (λ _, (deletejob_tbl (jobs w) p).1) w).
Proof. done. Qed.

Lemma wf_jids_in_range (js : list job_t) : wf_jobs js → jids_in_range js.
Proof.
  intros [_ Hs _ _]. eapply Forall_impl; [exact Hs |].
  intros j [(_ & -> & _) | (_ & H & _)]; unfold MAXJOBS in *; lia.
Qed.

Lemma wf_jid_used (js : list job_t) (i : Z) :
  wf_jobs js → 1 ≤ i → (∃ j, j ∈ js ∧ jid j = i) ↔ jid_in_use js i.
Proof.
  intros [_ Hs _ _] Hi. unfold jid_in_use, live. rewrite Forall_forall in Hs.
  split; intros (j & Hj & E); exists j; [| tauto].
  split; [done | split; [| done]].
  destruct (Hs j Hj) as [(_ & E0 & _) | (Hp & _)]; lia.
Qed.

Lemma free_slot_Some (js : list job_t) (k : nat) :
  free_slot js = Some k ↔
  ∃ j, js !! k = Some j ∧ pid j = 0 ∧ ∀ i y, js !! i = Some y → (i < k)%nat → pid y ≠ 0.
Proof.
  unfold free_slot. split.
  - intros H. apply fmap_Some in H as ([i j] & H & ->).
    apply list_find_Some in H. by exists j.
  - intros (j & H). apply fmap_Some. exists (k, j). split; [| done].
    by apply list_find_Some.
Qed.

Lemma getjobpid_Some (js : list job_t) (p : Z) (k : nat) :
  getjobpid js p = Some k ↔
  1 ≤ p ∧ ∃ j, js !! k = Some j ∧ pid j = p ∧
               ∀ i y, js !! i = Some y → (i < k)%nat → pid y ≠ p.
Proof.
  unfold getjobpid. case_decide as Hp; [split; [done | lia] |]. split.
  - intros H. apply fmap_Some in H as ([i j] & H & ->).
    apply list_find_Some in H. split; [lia | by exists j].
  - intros (_ & j & H). apply fmap_Some. exists (k, j). split; [| done].
    by apply list_find_Some.
Qed.

Lemma getjobpid_None (js : list job_t) (p : Z) :
  getjobpid js p = None ↔ p < 1 ∨ ∀ j, j ∈ js → pid j ≠ p.
Proof.
  unfold getjobpid. case_decide as Hp; [split; [by left | done] |].
  rewrite fmap_None, list_find_None, Forall_forall. split; [by right |].
  intros [? | ?]; [lia | done].
Qed.

(** Under distinct pids the lookup by pid finds the slot one started from. *)
Lemma getjobpid_live (js : list job_t) (k : nat) (j : job_t) :
  wf_jobs js → js !! k = Some j → live j → getjobpid js (pid j) = Some k.
Proof.
  intros Hwf Hk Hl. apply getjobpid_Some. split.
  - destruct Hwf as [_ Hs _ _]. rewrite Forall_lookup in Hs.
    destruct (Hs _ _ Hk) as [(E & _) | (H & _)]; [done | lia].
  - exists j. split; [done | split; [done |]]. intros i y Hi Hlt E.
    assert (i = k); [| lia].
    eapply (wf_pids _ Hwf); [done | done | | done | done].
    unfold live in *. congruence.
Qed.

Lemma wf_clear (js : list job_t) (k : nat) :
  wf_jobs js → wf_jobs (alter clearjob k js).
Proof.
  intros [Hl Hs Hj Hp]. split.
  - by rewrite length_alter.
  - apply Forall_alter; [done |]. intros. left. done.
  - intros a b ja jb Ha Hb La Lb E.
    rewrite list_lookup_alter in Ha, Hb.
    case_decide; [by destruct (js !! k); simplify_eq/= |].
    case_decide; [by destruct (js !! k); simplify_eq/= |]. eauto.
  - intros a b ja jb Ha Hb La Lb E.
    rewrite list_lookup_alter in Ha, Hb.
    case_decide; [by destruct (js !! k); simplify_eq/= |].
    case_decide; [by destruct (js !! k); simplify_eq/= |]. eauto.
Qed.

Lemma wf_set_state (js : list job_t) (k : nat) (s : Z) :
  s = FG ∨ s = BG ∨ s = ST →
  (∀ j, js !! k = Some j → live j) →
  wf_jobs js → wf_jobs (alter (set_state s) k js).
Proof.
  intros Hst Hlive [Hl Hs Hj Hp]. split.
  - by rewrite length_alter.
  - apply Forall_alter; [done |]. intros x Hx [(E & _) | (A & B & _)].
    + by destruct (Hlive x Hx).
    + right. done.
  - intros a b ja jb Ha Hb La Lb E.
    rewrite list_lookup_alter in Ha, Hb.
    repeat case_decide; subst;
      repeat match goal with
             | H : _ <$> ?o = Some _ |- _ =>
                 apply fmap_Some in H as (? & ? & ->)
             end; eauto.
  - intros a b ja jb Ha Hb La Lb E.
    rewrite list_lookup_alter in Ha, Hb.
    repeat case_decide; subst;
      repeat match goal with
             | H : _ <$> ?o = Some _ |- _ =>
                 apply fmap_Some in H as (? & ? & ->)
             end; eauto.
Qed.

Lemma lookup_insert_cases {A} (l : list A) (k a : nat) (x y : A) :
  <[k := x]> l !! a = Some y →
  (a = k ∧ y = x) ∨ (a ≠ k ∧ l !! a = Some y).
Proof.
  rewrite list_lookup_insert. case_decide as D.
  - intros [= <-]. left. split; [lia | done].
  - intros H. destruct (decide (a = k)) as [-> | N]; [| by right].
    exfalso. apply D. split; [done |]. by eapply lookup_lt_Some.
Qed.

(** A successful [addjob] keeps the list well formed, for a pid no live
    job has: the kernel gives [fork] a fresh one. *)
Lemma wf_addjob (w w' : world) (p st : Z) (cmd : string) :
  wf_jobs (jobs w) →
  st = FG ∨ st = BG ∨ st = ST →
  (∀ j, j ∈ jobs w → pid j ≠ p) →
  addjob p st cmd w = Ret 1 w' →
  wf_jobs (jobs w').
Proof.
  intros Hwf Hst Hfresh. rewrite addjob_unfold.
  case_decide as Hp; [done |].
  destruct (freejid_spec (jobs w)) as (f & -> & Hf); [by apply wf_jids_in_range |].
  case_decide as Hf0; [done |].
  destruct (free_slot (jobs w)) as [k|] eqn:Hk; [| done].
  intros [= <-].
  assert (jobs (if verbose w
                then emit (added_note f p cmd)
                       (with_jobs (λ js, <[k := mkjob p f st cmd]> js) w)
                else with_jobs (λ js, <[k := mkjob p f st cmd]> js) w)
          = <[k := mkjob p f st cmd]> (jobs w)) as -> by (by destruct (verbose w)).
  destruct Hf as [[? _] | (Hfr & Hun & _)]; [done |].
  destruct Hwf as [Hl Hs Hj Hq]. split.
  - by rewrite length_insert.
  - apply Forall_insert; [done |]. right. simpl. split; [lia | done].
  - intros a b ja jb Ha Hb La Lb E.
    apply lookup_insert_cases in Ha as [[-> ->] | [Na Ha]];
      apply lookup_insert_cases in Hb as [[-> ->] | [Nb Hb]]; simpl in *.
    + done.
    + exfalso. apply Hun. exists jb. split; [by eapply list_elem_of_lookup_2 | done].
    + exfalso. apply Hun. exists ja. split; [by eapply list_elem_of_lookup_2 | done].
    + eauto.
  - intros a b ja jb Ha Hb La Lb E.
    apply lookup_insert_cases in Ha as [[-> ->] | [Na Ha]];
      apply lookup_insert_cases in Hb as [[-> ->] | [Nb Hb]]; simpl in *.
    + done.
    + exfalso. eapply Hfresh; [by eapply list_elem_of_lookup_2 | done].
    + exfalso. eapply Hfresh; [by eapply list_elem_of_lookup_2 | done].
    + eauto.
Qed.

Lemma NoDup_fmap_filter_lookup {A B} (f : A → B) (P : A → Prop)
    `{∀ x, Decision (P x)} (l : list A) :
  NoDup (f <$> filter P l) →
  ∀ a b x y, l !! a = Some x → l !! b = Some y → P x → P y → f x = f y → a = b.
Proof.
  induction l as [|z l IH]; intros Hnd a b x y Ha Hb Px Py E; [done |].
  assert (Hin : ∀ i v, l !! i = Some v → P v → f v ∈ f <$> filter P l).
  { intros i v Hi Pv. apply list_elem_of_fmap. exists v. split; [done |].
    apply list_elem_of_filter. split; [done | by eapply list_elem_of_lookup_2]. }
  rewrite filter_cons in Hnd.
  destruct a as [|a], b as [|b]; simpl in *; simplify_eq; [done | | |].
  - rewrite decide_True in Hnd by done. rewrite fmap_cons in Hnd.
    apply NoDup_cons in Hnd as [Hn _]. exfalso. apply Hn. rewrite E. eauto.
  - rewrite decide_True in Hnd by done. rewrite fmap_cons in Hnd.
    apply NoDup_cons in Hnd as [Hn _]. exfalso. apply Hn. rewrite <- E. eauto.
  - f_equal. eapply IH; [| done | done | done | done | done].
    case_decide; [| done]. rewrite fmap_cons in Hnd. by apply NoDup_cons in Hnd as [_ ?].
Qed.

Lemma wf_check_wf (js : list job_t) : wf_check js → wf_jobs js.
Proof.
  intros (Hl & Hs & Hj & Hp). split; [done | done | |].
  - intros a b ja jb. by apply (NoDup_fmap_filter_lookup jid live).
  - intros a b ja jb. by apply (NoDup_fmap_filter_lookup pid live).
Qed.

(** C3.  Under a well-formed job list, (a) a successful [addjob] fills the
    first free slot with a job whose jid is the smallest positive integer
    that no live job has; (b) deleting a live job frees its jid: no live job
    has it afterwards, and the next [addjob] succeeds with a jid that is at
    most the freed one, namely the freed one itself as soon as every smaller
    jid is still in use. *)
Theorem addjob_jid_minimal_and_reused (w : world) :
  wf_jobs (jobs w) →
  (∀ p st cmd w',
     addjob p st cmd w = Ret 1 w' →
     ∃ k f, free_slot (jobs w) = Some k ∧
            jobs w' = <[k := mkjob p f st cmd]> (jobs w) ∧
            1 ≤ f ∧ ¬ jid_in_use (jobs w) f ∧
            ∀ i, 1 ≤ i < f → jid_in_use (jobs w) i) ∧
  (∀ k j,
     jobs w !! k = Some j → live j →
     ∃ w1, deletejob (pid j) w = Ret 1 w1 ∧
           ¬ jid_in_use (jobs w1) (jid j) ∧
           ∀ p st cmd, 1 ≤ p →
             ∃ w2 k' f,
               addjob p st cmd w1 = Ret 1 w2 ∧
               jobs w2 = <[k' := mkjob p f st cmd]> (jobs w1) ∧
               1 ≤ f ≤ jid j ∧
               ((∀ i, 1 ≤ i < jid j → jid_in_use (jobs w1) i) → f = jid j)).
Proof.
  intros Hwf.
  assert (Hadd : ∀ v p st cmd v',
            wf_jobs (jobs v) → addjob p st cmd v = Ret 1 v' →
            ∃ k f, free_slot (jobs v) = Some k ∧
                   jobs v' = <[k := mkjob p f st cmd]> (jobs v) ∧
                   1 ≤ f ∧ ¬ jid_in_use (jobs v) f ∧
                   ∀ i, 1 ≤ i < f → jid_in_use (jobs v) i).
  { intros v p st cmd v' Hv. rewrite addjob_unfold.
    case_decide as Hp; [done |].
    destruct (freejid_spec (jobs v)) as (f & -> & Hf); [by apply wf_jids_in_range |].
    case_decide as Hf0; [done |].
    destruct (free_slot (jobs v)) as [k|] eqn:Hk; [| done].
    intros [= <-]. exists k, f.
    destruct Hf as [[? _] | (Hfr & Hun & Hmin)]; [done |].
    split; [done |]. split; [by destruct (verbose v) |]. split; [lia |]. split.
    - intros Hu. apply Hun. apply wf_jid_used; [done | lia | done].
    - intros i Hi. apply wf_jid_used; [done | lia |]. by apply Hmin. }
  split; [intros p st cmd w'; by apply Hadd |].
  intros k j Hk Hl.
  pose proof (getjobpid_live _ _ _ Hwf Hk Hl) as Hg.
  assert (Hdel : deletejob_tbl (jobs w) (pid j) = (alter clearjob k (jobs w), 1)).
  { unfold deletejob_tbl. unfold getjobpid in Hg.
    case_decide; [done |].
    destruct (list_find _ _) as [[i x]|]; simplify_eq/=. done. }
  set (w1 := with_jobs (λ _, alter clearjob k (jobs w)) w).
  assert (Hwf1 : wf_jobs (jobs w1)) by (by apply wf_clear).
  assert (Hj : 1 ≤ jid j ≤ Z.of_nat MAXJOBS).
  { destruct Hwf as [_ Hs _ _]. rewrite Forall_lookup in Hs.
    destruct (Hs _ _ Hk) as [(E & _) | (_ & H & _)]; [done | done]. }
  assert (Hfree : ¬ jid_in_use (jobs w1) (jid j)).
  { intros (x & Hx & Lx & Ex). apply list_elem_of_lookup in Hx as [b Hb].
    simpl in Hb. rewrite list_lookup_alter in Hb. case_decide as D.
    - subst b. rewrite Hk in Hb. simplify_eq/=. by apply Lx.
    - apply D. symmetry. by eapply (wf_jids _ Hwf). }
  exists w1. split; [by rewrite deletejob_unfold, Hdel |]. split; [done |].
  intros p st cmd Hp.
  assert (Hslot : is_Some (free_slot (jobs w1))).
  { unfold free_slot. apply fmap_is_Some.
    apply (list_find_elem_of _ _ (clearjob j)); [| done].
    apply list_elem_of_lookup. exists k. simpl.
    by rewrite list_lookup_alter_eq, Hk. }
  destruct Hslot as [k' Hk'].
  destruct (freejid_spec (jobs w1)) as (f & Ef & Hf); [by apply wf_jids_in_range |].
  assert (Hf' : 1 ≤ f ≤ jid j ∧ ¬ jid_in_use (jobs w1) f).
  { destruct Hf as [[-> Hall] | (Hfr & Hun & Hmin)].
    - exfalso. apply Hfree. apply wf_jid_used; [done | lia |]. apply Hall. lia.
    - split.
      + split; [lia |]. destruct (decide (f ≤ jid j)) as [|N]; [done |].
        exfalso. apply Hfree. apply wf_jid_used; [done | lia |]. apply Hmin. lia.
      + intros Hu. apply Hun. apply wf_jid_used; [done | lia | done]. }
  destruct Hf' as [Hle Hnu].
  exists (let v := with_jobs (λ js, <[k' := mkjob p f st cmd]> js) w1 in
          if verbose w1 then emit (added_note f p cmd) v else v), k', f.
  split; [| split; [| split; [done |]]].
  - rewrite addjob_unfold, decide_False, Ef, decide_False, Hk' by lia. done.
  - by destruct (verbose w1).
  - intros Hall. destruct (decide (f = jid j)) as [|N]; [done |].
    exfalso. apply Hnu, Hall. lia.
Qed.

(** ** What a handler may do to the job list *)

Lemma demotes_refl (js : list job_t) : demotes js js.
Proof. apply Forall2_same_length_lookup. split; [done |]. intros; by simplify_eq. Qed.

Lemma demotes_trans (a b c : list job_t) : demotes a b → demotes b c → demotes a c.
Proof.
  intros H1 H2. revert c H2. induction H1 as [|x y l k Hxy H IH]; intros c H2.
  - inversion H2. constructor.
  - inversion H2 as [|? z ? k' Hyz H3]; subst. constructor; [| by apply IH].
    intros Hz. rewrite (Hyz Hz) in Hz |- *. by apply Hxy.
Qed.

Lemma demotes_alter (js : list job_t) (f : job_t → job_t) (k : nat) :
  (∀ j, state (f j) ≠ FG) → demotes js (alter f k js).
Proof.
  intros Hf. apply Forall2_alter_r; [apply demotes_refl |].
  intros x y _ _ _ E. by destruct (Hf y).
Qed.

Lemma demotes_deletejob (js : list job_t) (p : Z) :
  demotes js (deletejob_tbl js p).1.
Proof.
  unfold deletejob_tbl. case_decide; [apply demotes_refl |].
  destruct (list_find _ _) as [[i x]|]; [| apply demotes_refl].
  apply demotes_alter. by intros j.
Qed.

Lemma demotes_fg_count (js js' : list job_t) :
  demotes js js' → (fg_count js' ≤ fg_count js)%nat.
Proof.
  unfold fg_count. induction 1 as [|x y l k Hxy H IH]; [done |].
  rewrite !filter_cons. destruct (decide (state y = FG)) as [E|N].
  - rewrite (Hxy E) in E. rewrite decide_True by done. simpl. lia.
  - case_decide; simpl; lia.
Qed.

Lemma demotes_fg_only (p : Z) (js js' : list job_t) :
  demotes js js' → fg_only p js → fg_only p js'.
Proof.
  unfold fg_only. induction 1 as [|x y l k Hxy H IH]; intros Hf; [done |].
  apply Forall_cons in Hf as [Hx Hl]. constructor; [| by apply IH].
  intros E. rewrite (Hxy E) in E |- *. by apply Hx.
Qed.

Lemma demotes_no_fg (js js' : list job_t) : demotes js js' → no_fg js → no_fg js'.
Proof.
  unfold no_fg. induction 1 as [|x y l k Hxy H IH]; intros Hf; [done |].
  apply Forall_cons in Hf as [Hx Hl]. constructor; [| by apply IH].
  intros E. rewrite (Hxy E) in E. done.
Qed.

Lemma no_fg_count (js : list job_t) : no_fg js ↔ fg_count js = 0%nat.
Proof.
  unfold no_fg, fg_count. induction js as [|j js IH]; [done |].
  rewrite Forall_cons, filter_cons, IH. case_decide; simpl; split; intros; lia.
Qed.

Lemma fgpid_none (js : list job_t) : no_fg js → fgpid js = 0.
Proof.
  intros H. unfold fgpid.
  destruct (list_find _ _) as [[i x]|] eqn:E; [| done].
  apply list_find_Some in E as (Hx & Hs & _).
  unfold no_fg in H. rewrite Forall_lookup in H. by destruct (H _ _ Hx).
Qed.

(** When all foreground jobs have pid [p] and [fgpid] is not [p], there is
    no foreground job. *)
Lemma fg_only_fgpid (p : Z) (js : list job_t) :
  fg_only p js → fgpid js ≠ p → no_fg js.
Proof.
  unfold fgpid. intros Ho Hne.
  destruct (list_find _ _) as [[i x]|] eqn:E.
  - apply list_find_Some in E as (Hx & Hs & _).
    unfold fg_only in Ho. rewrite Forall_lookup in Ho.
    by destruct Hne, (Ho _ _ Hx Hs).
  - by apply list_find_None in E.
Qed.

Lemma keeps_bind {A B} (I : world → Prop) (m : M A) (k : A → M B) :
  keeps I m → (∀ a, keeps I (k a)) → keeps I (m ≫= k).
Proof.
  intros Hm Hk w Hw. specialize (Hm w Hw). unfold mbind, M_bind.
  destruct (m w); simpl in *; try done. by apply Hk.
Qed.

Lemma keeps_ret {A} (I : world → Prop) (a : A) : keeps I (mret a).
Proof. by intros w. Qed.

Lemma keeps_get {A} (I : world → Prop) (k : world → M A) :
  (∀ w, I w → I (final (k w w))) → keeps I (get ≫= k).
Proof. intros H w Hw. by apply H. Qed.

Lemma keeps_bind_at {A B} (I : world → Prop) (m : M A) (k : A → M B) (w : world) :
  I (final (m w)) → (∀ a, keeps I (k a)) → I (final ((m ≫= k) w)).
Proof.
  intros Hm Hk. unfold mbind, M_bind. destruct (m w); simpl in *; try done.
  by apply Hk.
Qed.

Section HandlerInvariant.

Variable Inv : world → Prop.
Hypothesis I_emit : ∀ e w, not_setpgid e → Inv w → Inv (emit e w).
Hypothesis I_children : ∀ c w, Inv w → Inv (with_children c w).
Hypothesis I_write_errs : ∀ l w, Inv w → Inv (with_write_errs l w).
Hypothesis I_stop :
  ∀ k j w, jobs w !! k = Some j → live j →
           Inv w → Inv (with_jobs (alter (set_state ST) k) w).
Hypothesis I_delete :
  ∀ p w, Inv w → Inv (with_jobs (λ _, (deletejob_tbl (jobs w) p).1) w).

Lemma write_keeps (fd : Z) (s : string) : keeps Inv (write fd s).
Proof.
  intros w H. unfold write.
  destruct (write_errs w) as [|[] ?]; simpl; apply I_emit; auto; exact I.
Qed.

Lemma write_notice_keeps (buf : string) : keeps Inv (write_notice buf).
Proof.
  unfold write_notice. case_decide; [| kept].
  apply keeps_bind; [apply write_keeps |]. intros err. case_decide; kept.
Qed.

Lemma deletejob_keeps (p : Z) : keeps Inv (deletejob p).
Proof. intros w H. rewrite deletejob_unfold. simpl. auto. Qed.

Lemma waitpid_keeps : keeps Inv waitpid_nohang.
Proof.
  intros w H. unfold waitpid_nohang.
  destruct (children w) as [|[] ?]; simpl; apply I_emit; auto; exact I.
Qed.

Lemma stop_found (w : world) (p : Z) (k : nat) :
  getjobpid (jobs w) p = Some k → Inv w →
  Inv (with_jobs (alter (set_state ST) k) w).
Proof.
  intros Hg Hw. apply getjobpid_Some in Hg as (Hp & j & Hj & Ej & _).
  apply (I_stop k j); [done | unfold live; lia | done].
Qed.

Lemma reap_one_keeps (p : Z) (status : wstatus) : keeps Inv (reap_one p status).
Proof.
  unfold reap_one. apply keeps_get. intros w Hw.
  destruct status; cbn [WIFSTOPPED WIFSIGNALED WIFEXITED].
  - apply keeps_bind_at.
    + destruct (getjobpid (jobs w) p) eqn:Hg; [| done]. by apply (stop_found w p).
    + intros _. apply keeps_bind; [kept |]. intros w1.
      destruct (_ ≫= _); [| kept]. apply write_notice_keeps.
  - destruct (_ ≫= _); [| done].
    apply keeps_bind_at; [by apply write_notice_keeps |].
    intros _. apply keeps_bind; [apply deletejob_keeps | kept].
  - apply keeps_bind_at; [by apply deletejob_keeps | kept].
Qed.

Lemma sigchld_loop_keeps (bound : list (Z * wstatus)) : keeps Inv (sigchld_loop bound).
Proof.
  induction bound as [|b bound IH]; simpl.
  - apply keeps_bind; [apply waitpid_keeps |].
    intros r. case_decide; [| kept]. destruct r.2; kept.
  - apply keeps_bind; [apply waitpid_keeps |].
    intros r. case_decide; [| kept]. destruct r.2; [| kept].
    apply keeps_bind; [apply reap_one_keeps | done].
Qed.

Lemma sigchld_handler_keeps : keeps Inv sigchld_handler.
Proof.
  unfold sigchld_handler. apply keeps_bind; [kept |].
  intros w. apply sigchld_loop_keeps.
Qed.

Lemma sigint_handler_keeps : keeps Inv sigint_handler.
Proof.
  unfold sigint_handler. apply keeps_bind; [kept |].
  intros w. case_decide; [| kept]. kept_by I_emit.
Qed.

Lemma sigtstp_handler_keeps : keeps Inv sigtstp_handler.
Proof.
  unfold sigtstp_handler. apply keeps_get. intros w Hw.
  set (p := fgpid (jobs w)).
  assert (He : ∀ e, not_setpgid e → getjobpid (jobs (emit e w)) p = getjobpid (jobs w) p)
    by done.
  destruct (getjobpid (jobs w) p) as [k|] eqn:Hg.
  - case_decide; simpl.
    + apply (stop_found (emit (EKill (- p) SIGTSTP) w) p); [done |].
      by apply I_emit.
    + by apply (stop_found w p).
  - case_decide; simpl; [by apply I_emit | done].
Qed.

Lemma sigquit_handler_keeps : keeps Inv sigquit_handler.
Proof.
  unfold sigquit_handler. apply keeps_bind; [| kept]. kept_by I_emit.
Qed.

Lemma deliver_keeps (m : sigset) (d : delivery) : keeps Inv (deliver m d).
Proof.
  unfold deliver. apply keeps_bind; [kept |]. intros w.
  apply keeps_bind; [kept_by I_emit |]. intros _.
  destruct (d_sig d); simpl; try kept; destruct (sigismember _ _); try kept;
    (apply keeps_bind; [| kept]);
    first [ apply sigint_handler_keeps | apply sigquit_handler_keeps
          | apply sigchld_handler_keeps | apply sigtstp_handler_keeps
          | apply keeps_ret ].
Qed.

Lemma deliver_all_keeps (m : sigset) (ds : list delivery) : keeps Inv (deliver_all m ds).
Proof.
  induction ds as [|d ds IH]; simpl; [kept |].
  apply keeps_bind; [apply deliver_keeps |]. intros a.
  apply keeps_bind; [apply IH | kept].
Qed.

(** [sigsuspend] also moves along the tape of wake-ups. *)
Hypothesis I_wakeups : ∀ l w, Inv w → Inv (with_wakeups l w).

Lemma suspend_on_keeps (m : sigset) (tape : list (list delivery)) :
  keeps Inv (suspend_on m tape).
Proof.
  induction tape as [|b tape IH]; simpl.
  - apply keeps_bind; [| kept]. kept_by I_emit.
  - apply keeps_bind; [kept_by I_emit |]. intros _.
    apply keeps_bind; [apply deliver_all_keeps |]. intros [|]; [kept | apply IH].
Qed.

Lemma sigsuspend_keeps (m : sigset) : keeps Inv (sigsuspend m).
Proof.
  unfold sigsuspend. apply keeps_bind; [kept_by I_emit |]. intros _.
  apply keeps_bind; [kept |]. intros w. apply suspend_on_keeps.
Qed.

End HandlerInvariant.

Lemma demoting_final {A} (m : M A) (w : world) :
  demoting m → demotes (jobs w) (jobs (final (m w))).
Proof. intros H. apply (H (jobs w) w), demotes_refl. Qed.

Lemma demotes_stop (js js' : list job_t) (k : nat) :
  demotes js js' → demotes js (alter (set_state ST) k js').
Proof.
  intros H. eapply demotes_trans; [exact H |]. apply demotes_alter. by intros j.
Qed.

Lemma demotes_delete (js js' : list job_t) (p : Z) :
  demotes js js' → demotes js (deletejob_tbl js' p).1.
Proof. intros H. eapply demotes_trans; [exact H | apply demotes_deletejob]. Qed.

Lemma deliver_all_demoting (m : sigset) (ds : list delivery) :
  demoting (deliver_all m ds).
Proof.
  intros js. apply deliver_all_keeps; simpl; auto using demotes_stop, demotes_delete.
Qed.

Lemma sigsuspend_demoting (m : sigset) : demoting (sigsuspend m).
Proof.
  intros js. apply sigsuspend_keeps; simpl; auto using demotes_stop, demotes_delete.
Qed.

(** ** At most one foreground job *)

Lemma hoare_bind {A B} (P : world → Prop) (m : M A) (Q : A → world → Prop)
    (k : A → M B) (R : B → world → Prop) (E : world → Prop) :
  hoare P m Q E → (∀ a, hoare (Q a) (k a) R E) → hoare P (m ≫= k) R E.
Proof.
  intros Hm Hk w Hw. specialize (Hm w Hw). unfold mbind, M_bind.
  destruct (m w); simpl in *; try done. by apply Hk.
Qed.

Lemma hoare_weaken {A} (P P' : world → Prop) (m : M A) (Q Q' : A → world → Prop)
    (E E' : world → Prop) :
  hoare P m Q E → (∀ w, P' w → P w) → (∀ a w, Q a w → Q' a w) →
  (∀ w, E w → E' w) → hoare P' m Q' E'.
Proof.
  intros H HP HQ HE w Hw. specialize (H w (HP w Hw)).
  destruct (m w); simpl in *; auto.
Qed.

Lemma keeps_hoare {A} (I : world → Prop) (m : M A) :
  keeps I m → hoare I m (λ _, I) I.
Proof. intros H w Hw. specialize (H w Hw). by destruct (m w). Qed.

Lemma idle_atmost1 (w : world) : idle w → atmost1 w.
Proof. unfold idle, atmost1. rewrite no_fg_count. lia. Qed.

Lemma waiting_atmost1 (p : Z) (w : world) : waiting p w → atmost1 w.
Proof. by intros [_ ?]. Qed.

Lemma idle_waiting (p : Z) (w : world) : idle w → waiting p w.
Proof.
  intros H. split; [| by apply idle_atmost1].
  eapply Forall_impl; [exact H |]. by intros j ? ?.
Qed.

Lemma demoting_keeps_idle {A} (m : M A) : demoting m → keeps idle m.
Proof.
  intros H w Hw. eapply demotes_no_fg; [| exact Hw]. by apply demoting_final.
Qed.

Lemma demoting_keeps_waiting {A} (m : M A) (p : Z) : demoting m → keeps (waiting p) m.
Proof.
  intros H w [Ho Hc]. pose proof (demoting_final m w H) as Hd. split.
  - by eapply demotes_fg_only.
  - pose proof (demotes_fg_count _ _ Hd). lia.
Qed.

(** One slot of a list without foreground job is overwritten. *)
Lemma fg_count_insert (js : list job_t) (k : nat) (x : job_t) :
  no_fg js → (fg_count (<[k := x]> js) ≤ 1)%nat.
Proof.
  unfold fg_count. intros H. revert k.
  induction H as [|j js Hj H IH]; intros k; [simpl; lia |].
  destruct k as [|k]; simpl; rewrite filter_cons.
  - apply no_fg_count in H. unfold fg_count in H. case_decide; simpl; lia.
  - rewrite decide_False by done. apply IH.
Qed.

Lemma fg_count_alter (js : list job_t) (k : nat) (f : job_t → job_t) :
  no_fg js → (fg_count (alter f k js) ≤ 1)%nat.
Proof.
  unfold fg_count. intros H. revert k.
  induction H as [|j js Hj H IH]; intros k; [simpl; lia |].
  destruct k as [|k]; simpl; rewrite filter_cons.
  - apply no_fg_count in H. unfold fg_count in H. case_decide; simpl; lia.
  - rewrite decide_False by done. apply IH.
Qed.

Lemma waitfg_loop_hoare (fuel : nat) (p : Z) (m : sigset) :
  hoare (waiting p) (waitfg_loop fuel p m) (λ _, idle) atmost1.
Proof.
  induction fuel as [|fuel IH]; simpl; intros w Hw; run;
    (case_decide as D; [| destruct Hw as [Ho _]; by eapply fg_only_fgpid]);
    pose proof (demoting_keeps_waiting _ p (sigsuspend_demoting m) w Hw) as H;
    destruct (sigsuspend m w) as [[] w'| | | |]; simpl in *;
    try by eapply waiting_atmost1.
  apply (IH w' H).
Qed.

Lemma waitfg_hoare (p : Z) : hoare (waiting p) (waitfg p) (λ _, idle) atmost1.
Proof.
  unfold waitfg.
  eapply hoare_bind with (Q := λ _, waiting p); [stepped |]. intros prev.
  eapply hoare_bind with (Q := λ _, waiting p); [stepped |]. intros w0.
  eapply hoare_bind; [apply waitfg_loop_hoare |]. intros ?. stepped.
Qed.

Lemma addjob_idle (p st : Z) (cmd : string) :
  st ≠ FG → hoare idle (addjob p st cmd) (λ _, idle) atmost1.
Proof.
  intros Hst w Hw. rewrite addjob_unfold. case_decide; [done |].
  destruct (freejid (jobs w)); [| by apply idle_atmost1].
  case_decide; [done |]. destruct (free_slot (jobs w)) as [k|]; [| done].
  assert (idle (with_jobs (λ js, <[k := mkjob p z st cmd]> js) w))
    by (by apply Forall_insert).
  by destruct (verbose w).
Qed.

Lemma addjob_waiting (p : Z) (cmd : string) :
  hoare idle (addjob p FG cmd) (λ _, waiting p) atmost1.
Proof.
  intros w Hw. rewrite addjob_unfold. case_decide; [by apply idle_waiting |].
  destruct (freejid (jobs w)); [| by apply idle_atmost1].
  case_decide; [by apply idle_waiting |].
  destruct (free_slot (jobs w)) as [k|]; [| by apply idle_waiting].
  assert (waiting p (with_jobs (λ js, <[k := mkjob p z FG cmd]> js) w)).
  { split; simpl; [| by apply fg_count_insert].
    apply Forall_insert; [| done]. by apply (idle_waiting p w). }
  by destruct (verbose w).
Qed.

Lemma register_job_hoare (argv : list string) (p : Z) (m : sigset) (cmd : string) :
  hoare idle (register_job argv p m cmd) (λ _, idle) atmost1.
Proof.
  unfold register_job. destruct (wants_bg argv).
  - eapply hoare_bind; [by apply addjob_idle |]. intros ?.
    eapply hoare_bind with (Q := λ _, idle); [stepped |]. intros w.
    destruct (_ ≫= _); [| intros ? ?; by apply idle_atmost1].
    eapply hoare_bind with (Q := λ _, idle); stepped.
  - eapply hoare_bind; [apply addjob_waiting |]. intros ?.
    eapply hoare_bind with (Q := λ _, waiting p); [stepped |]. intros ?.
    apply waitfg_hoare.
Qed.

Lemma jobs_fixed_final {A} (m : M A) (w : world) :
  jobs_fixed m → jobs (final (m w)) = jobs w.
Proof. intros H. by apply (H (jobs w) w). Qed.

Lemma jobs_fixed_hoare {A} (m : M A) (I : list job_t → Prop) :
  jobs_fixed m →
  hoare (λ w, I (jobs w)) m (λ _ w, I (jobs w)) (λ w, I (jobs w)).
Proof.
  intros H w Hw. pose proof (jobs_fixed_final m w H) as E.
  destruct (m w); simpl in *; by rewrite E.
Qed.

(** What the code that only logs and sets the mask keeps: the children
    between [fork] and [execvp], [listjobs], the lookup of [do_bgfg]. *)
Section LoggingInvariant.

Variable Inv : world → Prop.
Hypothesis L_emit : ∀ e w, own_group e → Inv w → Inv (emit e w).
Hypothesis L_blocked : ∀ m w, Inv w → Inv (with_blocked m w).

Local Ltac logged :=
  intros ? ?; simpl;
  repeat first [ apply L_emit; [by simpl |] | apply L_blocked ]; by auto.

Lemma listjobs_keeps : keeps Inv listjobs.
Proof.
  unfold listjobs. apply keeps_bind; [kept |]. intros w.
  generalize 0%nat. induction (jobs w) as [|j l IH]; intros i; simpl; [kept |].
  apply keeps_bind; [| intros ?; apply IH].
  case_decide; [| kept]. repeat (apply keeps_bind; [logged | intros ?]). logged.
Qed.

Lemma setup_redirection_keeps (argv : list (option string)) :
  keeps Inv (setup_redirection argv).
Proof.
  induction argv as [|[x|] argv IH]; simpl; [kept | | kept].
  repeat case_decide;
    repeat (apply keeps_bind; [first [apply IH | logged] | intros ?]); kept.
Qed.

Lemma execvp_keeps (file : option string) (argv : list (option string)) :
  keeps Inv (execvp file argv).
Proof.
  unfold execvp. apply keeps_bind; [kept |]. intros w.
  destruct file; [case_bool_decide |]; (apply keeps_bind; [logged | intros ?; kept]).
Qed.

Lemma eval_child_keeps (argv : list string) (m : sigset) :
  keeps Inv (eval_child argv m).
Proof.
  unfold eval_child.
  do 4 (apply keeps_bind; [logged | intros ?]).
  apply keeps_bind; [apply setup_redirection_keeps |]. intros argv1.
  destruct (last argv1) as [[x|]|]; [| kept | kept].
  apply keeps_bind; [apply execvp_keeps |]. intros err.
  case_decide; [| kept]. apply keeps_bind; [logged | intros ?; kept].
Qed.

(** The child of a pipeline also moves along the tape of rows. *)
Hypothesis L_stale : ∀ l w, Inv w → Inv (with_stale l w).

Lemma pipe_child_keeps (stage : list string) (is_last : bool) (prev_fd wr : Z)
    (m : sigset) :
  keeps Inv (pipe_child stage is_last prev_fd wr m).
Proof.
  unfold pipe_child.
  do 4 (apply keeps_bind; [logged | intros ?]).
  apply keeps_bind; [kept |]. intros w.
  apply keeps_bind; [intros ? ?; by apply L_stale |]. intros ?.
  apply keeps_bind; [apply setup_redirection_keeps |]. intros argv1.
  destruct (readable _); [| kept].
  apply keeps_bind;
    [case_decide; [apply keeps_bind; [logged | intros ?; logged] | kept] |].
  intros ?. apply keeps_bind; [destruct is_last; [kept | logged] |]. intros ?.
  apply keeps_bind; [apply execvp_keeps |]. intros err.
  case_decide; [logged | kept].
Qed.

Lemma bgfg_target_keeps (argv0 id : string) : keeps Inv (bgfg_target argv0 id).
Proof.
  unfold bgfg_target. apply keeps_bind; [kept |]. intros w.
  destruct (Ascii.eqb _ _); (case_decide; [apply keeps_bind; [logged | intros ?; kept] |]).
  - destruct (getjobjid _ _); [kept | apply keeps_bind; [logged | intros ?; kept]].
  - destruct (getjobpid _ _); [kept | apply keeps_bind; [logged | intros ?; kept]].
Qed.

End LoggingInvariant.

Lemma listjobs_fixed : jobs_fixed listjobs.
Proof. intros js. by apply listjobs_keeps. Qed.

Lemma eval_child_fixed (argv : list string) (m : sigset) :
  jobs_fixed (eval_child argv m).
Proof. intros js. by apply eval_child_keeps. Qed.

Lemma pipe_child_fixed (stage : list string) (is_last : bool) (prev_fd wr : Z)
    (m : sigset) :
  jobs_fixed (pipe_child stage is_last prev_fd wr m).
Proof. intros js. by apply pipe_child_keeps. Qed.

Lemma bgfg_target_fixed (argv0 id : string) : jobs_fixed (bgfg_target argv0 id).
Proof. intros js. by apply bgfg_target_keeps. Qed.

Lemma fixed_idle {A} (m : M A) : jobs_fixed m → hoare idle m (λ _, idle) atmost1.
Proof.
  intros H. eapply hoare_weaken; [exact (jobs_fixed_hoare m no_fg H) | done | done |].
  apply idle_atmost1.
Qed.

Lemma do_bgfg_hoare (argv : list string) :
  hoare idle (do_bgfg argv) (λ _, idle) atmost1.
Proof.
  unfold do_bgfg. destruct (argv !! 1%nat) as [id|]; [| stepped].
  eapply hoare_bind; [apply fixed_idle, bgfg_target_fixed |].
  intros [k|]; [| stepped].
  eapply hoare_bind with (Q := λ w0 w, idle w ∧ w0 = w); [stepped |]. intros w0.
  destruct (jobs w0 !! k) as [cur_job|] eqn:Hk;
    [| intros ? [? _]; by apply idle_atmost1].
  case_decide as Hbg; [| case_decide as Hfg].
  - eapply hoare_bind with (Q := λ _, idle); [intros ? [? _]; by simpl |]. intros ?.
    eapply hoare_bind with (Q := λ _, idle); [| intros ?; stepped].
    intros w Hw. simpl. apply Forall_alter; [done |]. by intros.
  - eapply hoare_bind with (Q := λ _ w, idle w ∧ jobs w0 = jobs w);
      [intros ? [? ->]; by simpl |].
    intros ?.
    eapply hoare_bind with (Q := λ _, waiting (pid cur_job));
      [| intros ?; apply waitfg_hoare].
    intros w [Hw Ew]. rewrite Ew in Hk. unfold modify. cbn [final jobs with_jobs].
    split; [| by apply fg_count_alter].
    apply Forall_lookup. intros i x Hx E. cbn [jobs with_jobs] in Hx.
    rewrite list_lookup_alter in Hx. case_decide as D.
    + subst i. rewrite Hk in Hx. by simplify_eq/=.
    + unfold idle, no_fg in Hw. rewrite Forall_lookup in Hw. by destruct (Hw _ _ Hx).
  - intros ? [? _]; by simpl.
Qed.

Lemma builtin_cmd_hoare (argv : list string) :
  hoare idle (builtin_cmd argv) (λ _, idle) atmost1.
Proof.
  unfold builtin_cmd. case_decide; [intros ? ?; by apply idle_atmost1 |].
  case_decide.
  { eapply hoare_bind; [apply fixed_idle, listjobs_fixed |]. intros ?. stepped. }
  case_decide; [| stepped].
  eapply hoare_bind; [apply do_bgfg_hoare |]. intros ?. stepped.
Qed.

Lemma fork_fixed : jobs_fixed fork.
Proof. intros js w H. unfold fork. by destruct (forks w). Qed.

Lemma pipe_fixed : jobs_fixed pipe.
Proof. intros js w H. unfold pipe. by destruct (pipes w). Qed.

Lemma pipe_loop_hoare (stages : list (list string)) (prev_fd : Z)
    (argv : list string) (m : sigset) (cmd : string) :
  hoare idle (pipe_loop stages prev_fd argv m cmd) (λ _, idle) atmost1.
Proof.
  revert prev_fd. induction stages as [|stage rest IH]; intros prev_fd; simpl;
    [stepped |].
  eapply hoare_bind; [apply fixed_idle, pipe_fixed |]. intros [[rd wr]|]; [| stepped].
  eapply hoare_bind; [apply fixed_idle, fork_fixed |]. intros p.
  case_decide; [apply fixed_idle, pipe_child_fixed |].
  case_decide; [stepped |].
  do 3 (eapply hoare_bind with (Q := λ _, idle); [stepped |]; intros ?).
  eapply hoare_bind with (Q := λ _, idle); [case_decide; stepped |]. intros ?.
  eapply hoare_bind with (Q := λ _, idle); [stepped |]. intros ?.
  eapply hoare_bind; [apply register_job_hoare |]. intros ?. apply IH.
Qed.

Lemma eval_hoare (cmd : string) : hoare idle (eval cmd) (λ _, idle) atmost1.
Proof.
  unfold eval. destruct (parseline cmd) as [|argv0 rest]; [stepped |].
  case_decide.
  { eapply hoare_bind; [apply builtin_cmd_hoare |]. intros err.
    case_decide; [intros ? ?; by apply idle_atmost1 | stepped]. }
  destruct (has_piping _).
  { eapply hoare_bind with (Q := λ _, idle); [stepped |]. intros prev.
    apply pipe_loop_hoare. }
  eapply hoare_bind with (Q := λ _, idle); [stepped |]. intros prev.
  eapply hoare_bind; [apply fixed_idle, fork_fixed |]. intros p.
  case_decide; [stepped |].
  case_decide; [apply fixed_idle, eval_child_fixed |].
  do 3 (eapply hoare_bind with (Q := λ _, idle); [stepped |]; intros ?).
  apply register_job_hoare.
Qed.

Lemma shell_loop_hoare (emit_prompt : bool) (inputs : list input) :
  hoare idle (shell_loop emit_prompt inputs) (λ _, idle) atmost1.
Proof.
  induction inputs as [|i rest IH]; simpl.
  - eapply hoare_bind with (Q := λ _, idle); [destruct emit_prompt; stepped |].
    intros ? ? ?. by apply idle_atmost1.
  - eapply hoare_bind with (Q := λ _, idle); [destruct emit_prompt; stepped |].
    intros ?.
    eapply hoare_bind with (Q := λ _, idle); [stepped |]. intros w.
    eapply hoare_bind with (Q := λ _, idle).
    { eapply hoare_weaken;
        [apply keeps_hoare, demoting_keeps_idle, deliver_all_demoting
        | done | done | apply idle_atmost1]. }
    intros ?. eapply hoare_bind; [apply eval_hoare |]. intros ?. apply IH.
Qed.

Lemma initjobs_no_fg (js : list job_t) : no_fg (initjobs js).
Proof. unfold initjobs. apply Forall_fmap, Forall_true. by intros j. Qed.

(** Where signals land only between two command lines and inside
    [sigsuspend]: whatever lines are read, whatever signals arrive there
    and whatever the kernel answers, the job list a run of the shell ends in
    (at exit, in a fault, or asleep in [sigsuspend] with nothing more to
    arrive) holds at most one foreground job. *)
Lemma one_foreground_job_between_lines (v p : bool) (inputs : list input)
    (fk : list Z) (pp : list (option (Z * Z))) (we : list bool)
    (wk : list (list delivery)) (progs : list string) :
  (fg_count (jobs (final (main v p inputs (boot fk pp we wk progs)))) ≤ 1)%nat.
Proof.
  assert (H : hoare (λ _, True) (main v p inputs) (λ _, idle) atmost1).
  { unfold main.
    do 7 (eapply hoare_bind with (Q := λ _ _, True); [stepped |]; intros ?).
    eapply hoare_bind with (Q := λ _, idle); [| intros ?; apply shell_loop_hoare].
    intros w _. apply initjobs_no_fg. }
  specialize (H (boot fk pp we wk progs) I).
  destruct (main _ _ _ _); simpl in *; [by apply idle_atmost1 | done..].
Qed.

(** C2.  The invariant the header of tsh.c states - at most one job in the
    FG state - against a child that ends while [addjob] registers it.
    [eval], and [my_pipe] in its first turn, call [addjob] with SIGCHLD
    blocked; [my_pipe] puts the mask of the caller back in every turn and
    does not block again, so from its second turn on [addjob] runs with
    SIGCHLD let in.  With [sleep 1 &], [ls | true] and [cat] typed, and
    [true] ending between [jobs[i].pid = pid] and [jobs[i].state = state]:
    the handler clears the slot, [addjob] goes on to store FG and the job
    id in it, [waitfg] returns at once since [fgpid] is 0, and when [cat]
    is started the list holds two foreground jobs, the second one with pid
    0, which no later SIGCHLD removes.  With [true] typed alone the same
    signal at the same place is held until [eval] puts the mask back, and
    [cat] is the one foreground job. *)
Theorem foreground_race_in_pipeline :
  (∃ w, Async.main false false race_inputs race_world = Blocked w ∧
        jobs w !! 0%nat = Some (mkjob 104 1 FG ("cat" +:+ NL)) ∧
        jobs w !! 1%nat = Some (mkjob 0 2 FG ("ls | true" +:+ NL)) ∧
        fg_count (jobs w) = 2%nat ∧
        arrivals w = [] ∧ pending w = [] ∧ children w = [] ∧ wakeups w = []) ∧
  (∃ w, Async.main false false single_inputs single_world = Blocked w ∧
        jobs w !! 0%nat = Some (mkjob 103 1 FG ("cat" +:+ NL)) ∧
        fg_count (jobs w) = 1%nat ∧
        arrivals w = [] ∧ pending w = [] ∧ children w = [] ∧ wakeups w = []).
Proof.
  split; (eexists; split; [vm_compute; reflexivity |]); repeat split.
Qed.

(** ** The child-status handler *)

(** *** The notices are single lines *)

Lemma count_nl_app (a b : string) : count_nl (a +:+ b) = (count_nl a + count_nl b)%nat.
Proof. induction a as [|c a IH]; simpl; [done |]. rewrite IH. lia. Qed.

Lemma ends_with_nl_app (a b : string) :
  ends_with_nl b = true → ends_with_nl (a +:+ b) = true.
Proof.
  intros Hb. induction a as [|c a IH]; simpl; [done |].
  by destruct (a +:+ b).
Qed.

Lemma count_nl_pretty_N_go (x : N) (s : string) :
  count_nl (pretty_N_go x s) = count_nl s.
Proof.
  revert s. induction (N.lt_wf_0 x) as [x _ IH]. intros s.
  destruct (decide (0 < x)%N) as [Hx|Hx].
  - rewrite pretty_N_go_step by done. rewrite IH by (apply N.div_lt; lia).
    simpl. assert (Ascii.eqb (pretty_N_char (x `mod` 10)) "010" = false) as ->
      by (unfold pretty_N_char; by repeat case_match).
    done.
  - assert (x = 0%N) as -> by lia. by rewrite pretty_N_go_0.
Qed.

Lemma count_nl_fmt_d (z : Z) : count_nl (fmt_d z) = 0%nat.
Proof.
  assert (Hp : ∀ q : positive, count_nl (pretty q) = 0%nat).
  { intros q. unfold pretty, pretty_positive, pretty, pretty_N.
    case_decide; [done |]. by rewrite count_nl_pretty_N_go. }
  unfold fmt_d, pretty, pretty_Z. destruct z; [done | apply Hp |].
  rewrite count_nl_app, Hp. done.
Qed.

Lemma stopped_msg_one_line (j : job_t) (sig : Z) : one_line (stopped_msg j sig).
Proof.
  unfold stopped_msg. split.
  - rewrite !count_nl_app, !count_nl_fmt_d. done.
  - by repeat apply ends_with_nl_app.
Qed.

Lemma terminated_msg_one_line (j : job_t) (sig : Z) : one_line (terminated_msg j sig).
Proof.
  unfold terminated_msg. split.
  - rewrite !count_nl_app, !count_nl_fmt_d. done.
  - by repeat apply ends_with_nl_app.
Qed.

(** *** What one drain does, said job by job *)

Lemma write_notice_ok (buf : string) (w : world) :
  writes_ok w → 0 < Z.of_nat (String.length buf) →
  ∃ w1, write_notice buf w = Ret tt w1 ∧ jobs w1 = jobs w ∧
        trace w1 = trace w ++ [EWrite STDOUT_FILENO buf true] ∧
        children w1 = children w ∧ wakeups w1 = wakeups w ∧ writes_ok w1.
Proof.
  intros Hok Hlen. unfold write_notice. rewrite decide_True by done.
  unfold write. run. unfold writes_ok in *.
  destruct (write_errs w) as [|[] l] eqn:E.
  - rewrite decide_False by lia. eexists. split; [done |]. simpl. by rewrite E.
  - by apply Forall_cons in Hok as [? _].
  - rewrite decide_False by lia. eexists. split; [done |]. simpl.
    by apply Forall_cons in Hok as [_ ?].
Qed.

Lemma stopped_msg_len (j : job_t) (sig : Z) :
  0 < Z.of_nat (String.length (stopped_msg j sig)).
Proof. unfold stopped_msg. simpl. lia. Qed.

Lemma terminated_msg_len (j : job_t) (sig : Z) :
  0 < Z.of_nat (String.length (terminated_msg j sig)).
Proof. unfold terminated_msg. simpl. lia. Qed.

Lemma getjobpid_lookup (js : list job_t) (p : Z) (k : nat) :
  getjobpid js p = Some k → ∃ j, js !! k = Some j ∧ pid j = p ∧ job_of js p = Some j.
Proof.
  intros H. pose proof H as H'. apply getjobpid_Some in H as (_ & j & Hj & Hp & _).
  exists j. split; [done | split; [done |]]. unfold job_of. rewrite H'. done.
Qed.

(** One pass of the loop body, when the notice can be composed and written. *)
Lemma reap_one_spec (w : world) (p : Z) (st : wstatus) :
  writes_ok w →
  (WIFEXITED st = false → is_Some (getjobpid (jobs w) p)) →
  ∃ w1, reap_one p st w = Ret tt w1 ∧
        jobs w1 = status_effect (jobs w) (p, st) ∧
        trace w1 = trace w ++ status_notice (jobs w) (p, st) ∧
        children w1 = children w ∧ wakeups w1 = wakeups w ∧ writes_ok w1.
Proof.
  intros Hok Hreg. unfold reap_one, status_effect, status_notice. run.
  destruct st as [sig|sig|code]; simpl in *.
  - destruct Hreg as [k Hk]; [done |]. rewrite Hk.
    destruct (getjobpid_lookup _ _ _ Hk) as (j & Hj & Hp & ->).
    simpl. rewrite list_lookup_alter_eq, Hj. simpl.
    destruct (write_notice_ok (stopped_msg (set_state ST j) sig)
                (with_jobs (alter (set_state ST) k) w))
      as (w1 & -> & ? & ? & ? & ? & ?); [done | apply stopped_msg_len |].
    exists w1. done.
  - destruct Hreg as [k Hk]; [done |].
    destruct (getjobpid_lookup _ _ _ Hk) as (j & Hj & Hp & Hjob).
    rewrite Hjob, Hk. simpl. rewrite Hj.
    destruct (write_notice_ok (terminated_msg j sig) w)
      as (w1 & -> & E1 & ? & ? & ? & ?); [done | apply terminated_msg_len |].
    eexists. split; [done |]. simpl. rewrite E1. done.
  - eexists. split; [done |]. simpl.
    by rewrite app_nil_r.
Qed.

Lemma deletejob_tbl_getjobpid (js : list job_t) (p : Z) :
  deletejob_tbl js p = match getjobpid js p with
                       | Some k => (alter clearjob k js, 1)
                       | None => (js, 0)
                       end.
Proof.
  unfold deletejob_tbl, getjobpid. case_decide; [done |].
  by destruct (list_find _ _) as [[i x]|].
Qed.

Lemma reported_cons (c : Z * wstatus) (cs : list (Z * wstatus)) (p : Z) :
  reported (c :: cs) p ↔ c.1 = p ∨ reported cs p.
Proof. unfold reported. by rewrite Exists_cons. Qed.

Lemma reported_dead_cons (c : Z * wstatus) (cs : list (Z * wstatus)) (p : Z) :
  reported_dead (c :: cs) p ↔ (c.1 = p ∧ WIFSTOPPED c.2 = false) ∨ reported_dead cs p.
Proof. unfold reported_dead. by rewrite Exists_cons. Qed.

Lemma not_reported (cs : list (Z * wstatus)) (p : Z) :
  Forall (λ c, 0 < c.1) cs → p ≤ 0 → ¬ reported cs p.
Proof.
  intros Hpos Hp H. apply Exists_exists in H as (c & Hin & E).
  rewrite Forall_forall in Hpos. specialize (Hpos c Hin). lia.
Qed.

Lemma reported_dead_reported (cs : list (Z * wstatus)) (p : Z) :
  reported_dead cs p → reported cs p.
Proof. intros H. eapply Exists_impl; [exact H |]. by intros c [? _]. Qed.

Lemma slot_after_one (p : Z) (st : wstatus) (j : job_t) :
  slot_after [(p, st)] j =
  if decide (p = pid j)
  then (if WIFSTOPPED st then set_state ST j else clearjob j)
  else j.
Proof.
  assert (reported_dead [(p, st)] (pid j) ↔ p = pid j ∧ WIFSTOPPED st = false) as Hd.
  { unfold reported_dead. rewrite Exists_cons, Exists_nil. simpl. tauto. }
  assert (reported [(p, st)] (pid j) ↔ p = pid j) as Hr.
  { unfold reported. rewrite Exists_cons, Exists_nil. simpl. tauto. }
  unfold slot_after.
  repeat case_decide; destruct (WIFSTOPPED st); try done; exfalso; intuition congruence.
Qed.

(** Reaping [c] and then [cs] is reaping [c :: cs], as the kernel never
    reports pid 0. *)
Lemma slot_after_cons (c : Z * wstatus) (cs : list (Z * wstatus)) (j : job_t) :
  Forall (λ c, 0 < c.1) (c :: cs) →
  slot_after (c :: cs) j = slot_after cs (slot_after [c] j).
Proof.
  intros Hpos. destruct c as [p st]. apply Forall_cons in Hpos as [Hp Hpos].
  simpl in Hp. rewrite slot_after_one. unfold slot_after at 1.
  destruct (decide (p = pid j)) as [D | D].
  - subst p. destruct (WIFSTOPPED st) eqn:Est.
    + unfold slot_after. simpl.
      destruct (decide (reported_dead cs (pid j))) as [Hd | Hd].
      * rewrite decide_True by (apply reported_dead_cons; by right). done.
      * rewrite decide_False
          by (intros H; apply reported_dead_cons in H as [[_ H] | H]; simpl in *;
              [congruence | done]).
        rewrite decide_True by (apply reported_cons; by left).
        by case_decide.
    + rewrite decide_True by (apply reported_dead_cons; by left).
      unfold slot_after. simpl.
      rewrite !decide_False; [done | |]; intros H;
        [| apply reported_dead_reported in H]; by eapply not_reported.
  - unfold slot_after.
    assert (reported_dead ((p, st) :: cs) (pid j) ↔ reported_dead cs (pid j)) as Hd.
    { rewrite reported_dead_cons. simpl. intuition. }
    assert (reported ((p, st) :: cs) (pid j) ↔ reported cs (pid j)) as Hr.
    { rewrite reported_cons. simpl. intuition. }
    repeat case_decide; tauto.
Qed.

(** On a well-formed list one pass of the loop body changes the one job
    whose pid was reaped. *)
Lemma status_effect_slot (js : list job_t) (p : Z) (st : wstatus) :
  wf_jobs js → 0 < p →
  status_effect js (p, st) = slot_after [(p, st)] <$> js.
Proof.
  intros Hwf Hp.
  assert (Hother : ∀ k j, js !! k = Some j → pid j = p →
                   ∀ i y, js !! i = Some y → i ≠ k → pid y ≠ p).
  { intros k j Hk Ej i y Hi Hne Ey. apply Hne.
    eapply (wf_pids _ Hwf); [done | done | | | congruence]; unfold live; lia. }
  assert (Hsome : ∀ k f, getjobpid js p = Some k →
            (∀ j, pid j = p → f j = slot_after [(p, st)] j) →
            alter f k js = slot_after [(p, st)] <$> js).
  { intros k f Hk Hf. apply getjobpid_Some in Hk as (_ & j & Hj & Ej & _).
    apply list_eq. intros i. rewrite list_lookup_alter, list_lookup_fmap.
    case_decide as D.
    - subst i. rewrite Hj. simpl. by rewrite Hf.
    - destruct (js !! i) as [y|] eqn:Hi; [| done]. simpl.
      rewrite slot_after_one, decide_False; [done |].
      intros E. by eapply (Hother k j Hj Ej i y). }
  assert (Hnone : getjobpid js p = None → js = slot_after [(p, st)] <$> js).
  { intros Hn. apply getjobpid_None in Hn as [? | Hn]; [lia |].
    apply list_eq. intros i. rewrite list_lookup_fmap.
    destruct (js !! i) as [y|] eqn:Hi; [| done]. simpl.
    rewrite slot_after_one, decide_False; [done |].
    intros E. eapply Hn; [by eapply list_elem_of_lookup_2 | done]. }
  unfold status_effect. simpl. rewrite deletejob_tbl_getjobpid.
  destruct (getjobpid js p) as [k|] eqn:Hk; destruct st; simpl; auto;
    apply Hsome; try done; intros j Ej; rewrite slot_after_one, decide_True; done.
Qed.

Lemma wf_status_effect (js : list job_t) (c : Z * wstatus) :
  wf_jobs js → 0 < c.1 → wf_jobs (status_effect js c).
Proof.
  intros Hwf Hp. unfold status_effect. rewrite deletejob_tbl_getjobpid.
  destruct (getjobpid js c.1) as [k|] eqn:Hk.
  - destruct c.2; simpl; try by apply wf_clear.
    apply wf_set_state; [by right; right | | done].
    apply getjobpid_Some in Hk as (_ & j & Hj & Ej & _).
    intros j' Hj'. unfold live. simplify_eq. lia.
  - by destruct c.2.
Qed.

(** A lookup by pid is not disturbed by changes to jobs with other pids. *)
Lemma getjobpid_fmap (g : job_t → job_t) (js : list job_t) (q : Z) :
  (∀ j, pid (g j) = q ↔ pid j = q) →
  getjobpid (g <$> js) q = getjobpid js q.
Proof.
  intros Hg. unfold getjobpid. case_decide; [done |].
  rewrite list_find_fmap.
  rewrite (list_find_ext _ (λ j, pid j = q)) by (intros j; apply Hg).
  by destruct (list_find _ js) as [[i x]|].
Qed.

Lemma job_of_fmap (g : job_t → job_t) (js : list job_t) (q : Z) :
  (∀ j, pid (g j) = q ↔ pid j = q) → (∀ j, pid j = q → g j = j) →
  job_of (g <$> js) q = job_of js q.
Proof.
  intros Hg Hid. unfold job_of. rewrite getjobpid_fmap by done.
  destruct (getjobpid js q) as [k|] eqn:Hk; [| done]. simpl.
  apply getjobpid_Some in Hk as (_ & j & Hj & Ej & _).
  rewrite list_lookup_fmap, Hj. simpl. by rewrite Hid.
Qed.

Lemma slot_after_one_pid (p q : Z) (st : wstatus) (j : job_t) :
  p ≠ q → 0 < q → (pid (slot_after [(p, st)] j) = q ↔ pid j = q).
Proof.
  intros Hne Hq. rewrite slot_after_one. case_decide; [| done].
  destruct (WIFSTOPPED st); simpl; [done | lia].
Qed.

Lemma slot_after_one_id (p q : Z) (st : wstatus) (j : job_t) :
  p ≠ q → pid j = q → slot_after [(p, st)] j = j.
Proof. intros Hne E. rewrite slot_after_one, decide_False; [done | congruence]. Qed.

Lemma registered_after (js : list job_t) (p : Z) (st : wstatus) (c : Z * wstatus) :
  p ≠ c.1 → 0 < c.1 →
  getjobpid (slot_after [(p, st)] <$> js) c.1 = getjobpid js c.1.
Proof. intros Hne Hc. apply getjobpid_fmap. intros j. by apply slot_after_one_pid. Qed.

Lemma status_notice_after (js : list job_t) (p : Z) (st : wstatus) (c : Z * wstatus) :
  p ≠ c.1 → 0 < c.1 →
  status_notice (slot_after [(p, st)] <$> js) c = status_notice js c.
Proof.
  intros Hne Hc. unfold status_notice. rewrite job_of_fmap; [done | |].
  - intros j. by apply slot_after_one_pid.
  - intros j. by apply slot_after_one_id.
Qed.

Lemma flat_map_ext_Forall {A B} (f g : A → list B) (l : list A) :
  Forall (λ x, f x = g x) l → flat_map f l = flat_map g l.
Proof. induction 1 as [|x l E _ IH]; simpl; [done |]. by rewrite E, IH. Qed.


Lemma reported_alive_mono (d d' : list Z) (cs : list (Z * wstatus)) :
  (∀ x, x ∈ d' → x ∈ d) → reported_alive d cs → reported_alive d' cs.
Proof.
  revert d d'. induction cs as [|c r IH]; intros d d' Hsub; simpl; [done |].
  intros [Hc Hr]. split; [intros E Hin; by apply (Hc E), Hsub |].
  eapply IH; [| exact Hr]. destruct (WIFSTOPPED c.2); [done |].
  intros x Hx. apply elem_of_cons in Hx as [-> | Hx]; [by left | right; by apply Hsub].
Qed.

Lemma reported_alive_not_dead (d : list Z) (cs : list (Z * wstatus)) (c : Z * wstatus) :
  reported_alive d cs → c ∈ cs → WIFEXITED c.2 = false → c.1 ∉ d.
Proof.
  revert d. induction cs as [|x r IH]; intros d; simpl; [by intros _ ?%elem_of_nil |].
  intros [Hx Hr] Hin E. apply elem_of_cons in Hin as [-> | Hin]; [by apply Hx |].
  specialize (IH _ Hr Hin E). destruct (WIFSTOPPED x.2); [done |].
  intros Hd. apply IH. by right.
Qed.

(** Stopping a job disturbs neither a lookup by pid nor the notices. *)
Lemma registered_after_stop (js : list job_t) (p q : Z) (sig : Z) :
  getjobpid (slot_after [(p, WStopped sig)] <$> js) q = getjobpid js q.
Proof.
  apply getjobpid_fmap. intros j. rewrite slot_after_one. by case_decide.
Qed.

Lemma status_notice_after_stop (js : list job_t) (p : Z) (sig : Z) (c : Z * wstatus) :
  status_notice (slot_after [(p, WStopped sig)] <$> js) c = status_notice js c.
Proof.
  unfold status_notice, job_of. rewrite registered_after_stop.
  destruct (getjobpid js c.1) as [k|] eqn:Hk; [| done]. simpl.
  rewrite list_lookup_fmap. destruct (js !! k) as [j|]; [| done]. simpl.
  rewrite slot_after_one. case_decide; [| done]. by destruct c.2.
Qed.

(** Children reported once each are not reported after their death. *)
Lemma NoDup_reported_alive (d : list Z) (cs : list (Z * wstatus)) :
  NoDup cs.*1 → (∀ x, x ∈ d → x ∉ cs.*1) → reported_alive d cs.
Proof.
  revert d. induction cs as [|[p st] r IH]; intros d Hnd Hd; simpl; [done |].
  rewrite fmap_cons in Hnd. apply NoDup_cons in Hnd as [Hnin Hnd]. simpl in Hnin.
  split.
  - intros _ Hin. apply (Hd _ Hin). rewrite fmap_cons. by left.
  - apply IH; [done |]. intros x Hx Hin.
    destruct (WIFSTOPPED st); [| apply elem_of_cons in Hx as [-> | Hx]; [done |]];
      apply (Hd _ Hx); rewrite fmap_cons; by right.
Qed.

Lemma sigchld_loop_spec (cs : list (Z * wstatus)) (w : world) :
  children w = cs → wf_jobs (jobs w) → reapable (jobs w) cs → writes_ok w →
  ∃ w', sigchld_loop cs w = Ret tt w' ∧
        children w' = [] ∧ wakeups w' = wakeups w ∧
        jobs w' = slot_after cs <$> jobs w ∧
        trace w' = trace w ++ drain_trace (jobs w) cs.
Proof.
  revert w. induction cs as [|[p st] cs IH]; intros w Hc Hwf [Hreg Hal] Hok.
  - exists (emit (EWaitpid 0) w). simpl. unfold waitpid_nohang. run. rewrite Hc.
    simpl. split; [done |]. split; [done |]. split; [done |]. split; [| done].
    rewrite <- (list_fmap_id (jobs w)) at 1. apply list_fmap_ext. intros i j _.
    unfold slot_after, reported_dead, reported.
    rewrite !decide_False; [done | |]; by intros ?%Exists_nil.
  - apply Forall_cons in Hreg as [[Hp Hr] Hreg]. simpl in Hp, Hr.
    destruct Hal as [_ Hal]. simpl in Hal.
    set (w0 := emit (EWaitpid p) (with_children cs w)).
    destruct (reap_one_spec w0 p st) as (w1 & E1 & J1 & T1 & C1 & K1 & O1);
      [done | done |].
    simpl in J1, T1, C1, K1.
    rewrite status_effect_slot in J1 by done.
    assert (Hne : ∀ c, c ∈ cs → WIFEXITED c.2 = false → WIFSTOPPED st = false → p ≠ c.1).
    { intros c Hin Hc2 Hst ->. rewrite Hst in Hal.
      eapply reported_alive_not_dead; [exact Hal | done | done | by left]. }
    assert (Hpos : Forall (λ c : Z * wstatus, 0 < c.1) cs).
    { eapply Forall_impl; [exact Hreg |]. by intros c [? _]. }
    rewrite Forall_forall in Hreg.
    destruct (IH w1) as (w' & E' & C' & K' & J' & T').
    { done. }
    { rewrite J1, <- status_effect_slot by done. by apply wf_status_effect. }
    { split; [| eapply reported_alive_mono; [| exact Hal]; by intros x ?%elem_of_nil].
      apply Forall_forall. intros c Hin. destruct (Hreg c Hin) as [Hcp Hcr].
      split; [done |]. intros Hc2. rewrite J1. destruct st as [sig|sig|code].
      - rewrite registered_after_stop. by apply Hcr.
      - rewrite registered_after; [by apply Hcr | by apply Hne | done].
      - rewrite registered_after; [by apply Hcr | by apply Hne | done]. }
    { done. }
    exists w'. split; [| split; [done | split; [congruence | split]]].
    + simpl. unfold waitpid_nohang. run. rewrite Hc. simpl.
      rewrite decide_True by done. fold w0. rewrite E1. exact E'.
    + rewrite J', J1, <- list_fmap_compose. apply list_fmap_ext.
      intros i j _. simpl. symmetry. apply slot_after_cons. by constructor.
    + rewrite T', T1. unfold drain_trace. simpl. rewrite <- !app_assoc. simpl.
      do 3 f_equal. f_equal. apply flat_map_ext_Forall, Forall_forall.
      intros c Hin. f_equal. rewrite J1.
      destruct (WIFEXITED c.2) eqn:Hc2.
      { unfold status_notice. by destruct c.2. }
      destruct st as [sig|sig|code].
      * apply status_notice_after_stop.
      * apply status_notice_after; [by apply Hne | by apply Hreg].
      * apply status_notice_after; [by apply Hne | by apply Hreg].
Qed.


Lemma status_notice_one_line (js : list job_t) (c : Z * wstatus) (e : event) :
  e ∈ status_notice js c → ∃ s, e = EWrite STDOUT_FILENO s true ∧ one_line s.
Proof.
  unfold status_notice. destruct c.2, (job_of js c.1); intros H;
    try (by apply elem_of_nil in H); apply list_elem_of_singleton in H as ->.
  - eexists. split; [done | apply stopped_msg_one_line].
  - eexists. split; [done | apply terminated_msg_one_line].
Qed.

Lemma nonblocking_bind {A B} (m : M A) (k : A → M B) :
  nonblocking m → (∀ a, nonblocking (k a)) → nonblocking (m ≫= k).
Proof.
  intros Hm Hk w w'. unfold mbind, M_bind.
  destruct (m w) eqn:E; try done; [apply Hk | by destruct (Hm w w0)].
Qed.

Lemma write_notice_nonblocking (buf : string) : nonblocking (write_notice buf).
Proof.
  unfold write_notice. case_decide; [| done].
  apply nonblocking_bind.
  - intros w w'. unfold write. by destruct (write_errs w) as [|[] ?].
  - intros err. by case_decide.
Qed.

Lemma reap_one_nonblocking (p : Z) (status : wstatus) : nonblocking (reap_one p status).
Proof.
  unfold reap_one. apply nonblocking_bind; [done |]. intros w0.
  destruct status; simpl.
  - apply nonblocking_bind; [by destruct (getjobpid _ _) |]. intros _.
    apply nonblocking_bind; [done |]. intros w1.
    destruct (_ ≫= _); [apply write_notice_nonblocking | done].
  - destruct (_ ≫= _); [| done].
    apply nonblocking_bind; [apply write_notice_nonblocking |]. intros _.
    by apply nonblocking_bind.
  - by apply nonblocking_bind.
Qed.

Lemma sigchld_handler_nonblocking : nonblocking sigchld_handler.
Proof.
  unfold sigchld_handler. apply nonblocking_bind; [done |]. intros w.
  induction (children w) as [|c cs IH]; simpl;
    (apply nonblocking_bind;
     [intros v v'; unfold waitpid_nohang; by destruct (children v) as [|[] ?] |]);
    intros r; (case_decide; [| done]); destruct r.2; try done.
  apply nonblocking_bind; [apply reap_one_nonblocking | done].
Qed.

(** C4.  One call of the handler never leaves the shell asleep and never
    touches what is still to arrive.  On a well-formed job list, with every
    stopped or signalled child registered and the writes going through, it
    returns having reaped every child whose status had changed: every
    reaped child costs one [waitpid] that returns at once, the last
    [waitpid] returns 0.  For a child reported stopped a one-line notice
    with the job's jid and pid is written and the state of its job is ST
    afterwards, the other fields being as they were (unless the same call
    also reaps the child dead); for a child reported signalled a one-line
    notice is written and the slot of its job is cleared; for a child that
    exited the slot is cleared and nothing is written; the jobs of other
    pids are untouched. *)
Theorem sigchld_handler_drains (w : world) :
  (∀ w', sigchld_handler w ≠ Blocked w') ∧
  wakeups (final (sigchld_handler w)) = wakeups w ∧
  (wf_jobs (jobs w) → reapable (jobs w) (children w) → writes_ok w →
  ∃ w', sigchld_handler w = Ret tt w' ∧
        children w' = [] ∧
        wakeups w' = wakeups w ∧
        jobs w' = slot_after (children w) <$> jobs w ∧
        trace w' = trace w ++
                   flat_map (λ c, EWaitpid c.1 :: status_notice (jobs w) c) (children w)
                   ++ [EWaitpid 0] ∧
        (∀ c e, c ∈ children w → e ∈ status_notice (jobs w) c →
                ∃ s, e = EWrite STDOUT_FILENO s true ∧ one_line s) ∧
        (∀ p sig, (p, WStopped sig) ∈ children w →
           ∃ k j, jobs w !! k = Some j ∧ pid j = p ∧
                  status_notice (jobs w) (p, WStopped sig)
                  = [EWrite STDOUT_FILENO (stopped_msg j sig) true] ∧
                  (¬ reported_dead (children w) p →
                   ∃ j', jobs w' !! k = Some j' ∧ state j' = ST ∧
                         pid j' = p ∧ jid j' = jid j ∧ cmdline j' = cmdline j)) ∧
        (∀ p sig, (p, WSignaled sig) ∈ children w →
           ∃ k j, jobs w !! k = Some j ∧ pid j = p ∧
                  jobs w' !! k = Some (mkjob 0 0 UNDEF "") ∧
                  getjobpid (jobs w') p = None ∧
                  status_notice (jobs w) (p, WSignaled sig)
                  = [EWrite STDOUT_FILENO (terminated_msg j sig) true]) ∧
        (∀ p code, (p, WExited code) ∈ children w →
           getjobpid (jobs w') p = None ∧
           (∀ k j, jobs w !! k = Some j → pid j = p →
                   jobs w' !! k = Some (mkjob 0 0 UNDEF "")) ∧
           status_notice (jobs w) (p, WExited code) = []) ∧
        (∀ k j, jobs w !! k = Some j → pid j ∉ (children w).*1 →
                jobs w' !! k = Some j)).
Proof.
  split; [apply sigchld_handler_nonblocking |].
  split; [by apply (sigchld_handler_keeps (λ v, wakeups v = wakeups w)) |].
  intros Hwf Hreap Hok.
  destruct (sigchld_loop_spec (children w) w) as (w' & E & C & K & J & T);
    [done..|].
  destruct Hreap as [Hreg Hal]. rewrite Forall_forall in Hreg.
  assert (Hdead : ∀ p st, (p, st) ∈ children w → WIFSTOPPED st = false →
                          reported_dead (children w) p).
  { intros p st Hin Hst. apply Exists_exists. by exists (p, st). }
  assert (Hclear : ∀ p k j, reported_dead (children w) p →
                            jobs w !! k = Some j → pid j = p →
                            jobs w' !! k = Some (mkjob 0 0 UNDEF "")).
  { intros p k j Hd Hj Ej. rewrite J, list_lookup_fmap, Hj. simpl. f_equal.
    unfold slot_after. by rewrite Ej, decide_True. }
  assert (Hgone : ∀ p st, (p, st) ∈ children w → WIFSTOPPED st = false →
                          getjobpid (jobs w') p = None).
  { intros p st Hin Hst. apply getjobpid_None. right. intros j' Hj' Ej'.
    rewrite J in Hj'. apply list_elem_of_fmap in Hj' as (j & -> & Hj).
    destruct (Hreg _ Hin) as [Hp _]. simpl in Hp.
    unfold slot_after in Ej'. destruct (decide (reported_dead _ _)) as [D | D].
    - simpl in Ej'. lia.
    - assert (pid j = p) as Ej by (by repeat case_decide).
      destruct D. rewrite Ej. by eapply Hdead. }
  exists w'. split; [done |]. split; [done |]. split; [done |]. split; [done |].
  split; [done |]. split; [intros c e _; apply status_notice_one_line |].
  split; [| split; [| split]].
  - intros p sig Hin. destruct (Hreg _ Hin) as [Hp [k Hk]]; [done |]. simpl in *.
    destruct (getjobpid_lookup _ _ _ Hk) as (j & Hj & Ej & Hjob).
    exists k, j. split; [done |]. split; [done |]. split.
    + unfold status_notice. simpl. by rewrite Hjob.
    + intros Hnd. exists (set_state ST j). split; [| done].
      rewrite J, list_lookup_fmap, Hj. simpl. f_equal. unfold slot_after.
      rewrite Ej, decide_False, decide_True; [done | | done].
      apply Exists_exists. by exists (p, WStopped sig).
  - intros p sig Hin. destruct (Hreg _ Hin) as [Hp [k Hk]]; [done |]. simpl in *.
    destruct (getjobpid_lookup _ _ _ Hk) as (j & Hj & Ej & Hjob).
    exists k, j. split; [done |]. split; [done |].
    split; [by eapply Hclear; [eapply Hdead | |] |].
    split; [by eapply Hgone |].
    unfold status_notice. simpl. by rewrite Hjob.
  - intros p code Hin. split; [by eapply Hgone |]. split; [| done].
    intros k j Hj Ej. by eapply Hclear; [eapply Hdead | |].
  - intros k j Hj Hnot. rewrite J, list_lookup_fmap, Hj. simpl. f_equal.
    unfold slot_after.
    assert (¬ reported (children w) (pid j)) as Hnr.
    { intros H. apply Exists_exists in H as (c & Hc & Ec). apply Hnot.
      apply list_elem_of_fmap. by exists c. }
    rewrite decide_False, decide_False; [done | done |].
    intros H. by apply Hnr, reported_dead_reported.
Qed.

(** *** The unchecked lookup *)

Lemma reap_one_fault (w : world) (p : Z) (st : wstatus) :
  unregistered (jobs w) (p, st) → reap_one p st w = Fault w.
Proof.
  intros [Hst Hnone]. simpl in *. unfold reap_one. run. rewrite Hnone.
  by destruct st.
Qed.

Lemma sigchld_loop_fault (cs : list (Z * wstatus)) (w : world) :
  children w = cs → wf_jobs (jobs w) → NoDup cs.*1 → Forall (λ c, 0 < c.1) cs →
  writes_ok w → Exists (unregistered (jobs w)) cs →
  ∃ w', sigchld_loop cs w = Fault w'.
Proof.
  revert w. induction cs as [|[p st] cs IH]; intros w Hc Hwf Hnd Hpos Hok Hex.
  { by apply Exists_nil in Hex. }
  apply Forall_cons in Hpos as [Hp Hpos]. simpl in Hp.
  rewrite fmap_cons in Hnd. apply NoDup_cons in Hnd as [Hnin Hnd]. simpl in Hnin.
  set (w0 := emit (EWaitpid p) (with_children cs w)).
  assert (Hstep : sigchld_loop ((p, st) :: cs) w
                  = (reap_one p st ≫= λ _, sigchld_loop cs) w0).
  { simpl. unfold waitpid_nohang. run. rewrite Hc. simpl.
    by rewrite decide_True by done. }
  rewrite Hstep. unfold mbind, M_bind.
  destruct (decide (unregistered (jobs w) (p, st))) as [Hun | Hreg].
  - exists w0. by rewrite (reap_one_fault w0 p st).
  - apply Exists_cons in Hex as [? | Hex]; [done |].
    destruct (reap_one_spec w0 p st) as (w1 & -> & J1 & _ & C1 & _ & O1); [done | |].
    { intros Hst. unfold unregistered in Hreg. simpl in *.
      destruct (getjobpid (jobs w) p); [done |]. by destruct Hreg. }
    simpl in J1, C1. rewrite status_effect_slot in J1 by done.
    apply (IH w1); try done.
    + rewrite J1, <- status_effect_slot by done. by apply wf_status_effect.
    + rewrite Forall_forall in Hpos.
      apply Exists_exists in Hex as (c & Hin & Hst & Hnone).
      apply Exists_exists. exists c. split; [done |]. split; [done |].
      rewrite J1, registered_after; [done | | by apply Hpos].
      intros ->. apply Hnin, list_elem_of_fmap. by exists c.
Qed.

(** C9.  Both notice branches of the handler read the fields of the job
    the lookup returned without a check: on a child that stopped or was
    signalled and has no job, the loop body faults at once.  Hence (for
    a well-formed list, children reported once, writes going through) a
    call of the handler faults exactly when some reaped child that stopped
    or was signalled is not in the job list; when all of them are, every
    lookup finds its job and the call returns. *)
Theorem sigchld_handler_faults_iff_unregistered (w : world) :
  wf_jobs (jobs w) → NoDup (children w).*1 → Forall (λ c, 0 < c.1) (children w) →
  writes_ok w →
  (∀ p sig, getjobpid (jobs w) p = None →
            reap_one p (WStopped sig) w = Fault w ∧
            reap_one p (WSignaled sig) w = Fault w) ∧
  ((∃ w', sigchld_handler w = Fault w') ↔
   Exists (unregistered (jobs w)) (children w)) ∧
  (Forall (λ c, WIFEXITED c.2 = false → is_Some (getjobpid (jobs w) c.1))
          (children w) →
   ∃ w', sigchld_handler w = Ret tt w').
Proof.
  intros Hwf Hnd Hpos Hok.
  assert (Hret : Forall (λ c, WIFEXITED c.2 = false → is_Some (getjobpid (jobs w) c.1))
                        (children w) →
                 ∃ w', sigchld_handler w = Ret tt w').
  { intros Hreg. destruct (sigchld_loop_spec (children w) w) as (w' & E & _);
      [done | done | | done | by exists w'].
    split; [| apply NoDup_reported_alive; [done | by intros x ?%elem_of_nil]].
    rewrite Forall_forall in Hpos, Hreg |- *. intros c Hin.
    split; [by apply Hpos | by apply Hreg]. }
  split; [| split; [split |]].
  - intros p sig Hnone. split; by apply reap_one_fault.
  - intros [w' Hf].
    destruct (decide (Exists (unregistered (jobs w)) (children w))) as [| Hno];
      [done |].
    destruct Hret as [w'' E]; [| congruence].
    apply Forall_forall. intros c Hin Hst.
    destruct (getjobpid (jobs w) c.1) eqn:Hg; [done |]. destruct Hno.
    apply Exists_exists. by exists c.
  - intros Hex. by apply (sigchld_loop_fault (children w) w).
  - done.
Qed.

(** ** waitfg *)








(** ** The bg and fg built-ins on a job *)

Lemma fgpid_alter_fg (js : list job_t) (k : nat) (j : job_t) :
  no_fg js → js !! k = Some j → fgpid (alter (set_state FG) k js) = pid j.
Proof.
  intros Hno Hk. unfold fgpid.
  assert (list_find (λ x, state x = FG) (alter (set_state FG) k js)
          = Some (k, set_state FG j)) as ->; [| done].
  apply list_find_Some. split; [by rewrite list_lookup_alter_eq, Hk |].
  split; [done |]. intros i y Hi Hlt.
  rewrite list_lookup_alter_ne in Hi by lia.
  unfold no_fg in Hno. rewrite Forall_lookup in Hno. by eapply Hno.
Qed.

(** *** Naming a job by [%jid] or by pid *)

Lemma pretty_N_char_digit (y : N) :
  (y < 10)%N →
  is_digit (pretty_N_char y) = true ∧
  Z.of_nat (nat_of_ascii (pretty_N_char y)) - 48 = Z.of_N y.
Proof.
  intros Hy.
  assert (y = 0 ∨ y = 1 ∨ y = 2 ∨ y = 3 ∨ y = 4 ∨ y = 5 ∨ y = 6 ∨ y = 7
          ∨ y = 8 ∨ y = 9)%N as H by lia.
  by repeat destruct H as [-> | H]; try subst y.
Qed.

(** [atoi] reads back what [%d] prints of a number, digit by digit. *)
Lemma atoi_digits_pretty_N_go (x : N) :
  ∃ d : nat, ∀ acc s,
    atoi_digits acc (pretty_N_go x s) = atoi_digits (acc * 10 ^ Z.of_nat d + Z.of_N x) s.
Proof.
  induction (N.lt_wf_0 x) as [x _ IH].
  destruct (decide (0 < x)%N) as [Hx | Hx].
  - destruct (IH (x `div` 10)%N) as [d Hd]; [apply N.div_lt; lia |].
    exists (S d). intros acc s. rewrite pretty_N_go_step, Hd by done. simpl.
    destruct (pretty_N_char_digit (x `mod` 10)) as [-> ->];
      [apply N.mod_lt; lia |].
    f_equal. rewrite Nat2Z.inj_succ, Z.pow_succ_r by lia.
    assert (Z.of_N x = 10 * Z.of_N (x `div` 10) + Z.of_N (x `mod` 10)) as ->.
    { rewrite (N.div_mod x 10) at 1 by done.
      by rewrite N2Z.inj_add, N2Z.inj_mul. }
    ring.
  - assert (x = 0%N) as -> by lia. exists 0%nat. intros acc s.
    rewrite pretty_N_go_0. f_equal. simpl. lia.
Qed.

Lemma pretty_N_go_head (x : N) (s : string) :
  (0 < x)%N → ∃ c s', pretty_N_go x s = String c s' ∧ is_digit c = true.
Proof.
  revert s. induction (N.lt_wf_0 x) as [x _ IH]. intros s Hx.
  rewrite pretty_N_go_step by done.
  destruct (decide (0 < x `div` 10)%N) as [Hd | Hd].
  - apply IH; [apply N.div_lt; lia | done].
  - destruct (x `div` 10)%N; [| lia]. rewrite pretty_N_go_0.
    eexists _, _. split; [done |].
    apply pretty_N_char_digit, N.mod_lt. lia.
Qed.

Lemma to_int_small (z : Z) : - 2 ^ 31 ≤ z ≤ INT_MAX → to_int z = z.
Proof.
  unfold to_int, INT_MAX. intros H.
  rewrite Z.mod_small; lia.
Qed.

Lemma atoi_small (s : string) : - 2 ^ 31 ≤ decimal s ≤ INT_MAX → atoi s = decimal s.
Proof.
  unfold INT_MAX. intros H. unfold atoi, strtol, LONG_MAX, LONG_MIN.
  rewrite Z.min_r, Z.max_r by lia. apply to_int_small. unfold INT_MAX. lia.
Qed.

(** [atoi] on numbers that an [int] does not hold. *)
Lemma atoi_keeps_32_bits :
  atoi "4294967298" = 2 ∧ atoi "4294967296" = 0 ∧ atoi "2147483648" = -2147483648 ∧
  atoi "99999999999999999999" = -1.
Proof. by vm_compute. Qed.

Lemma fmt_d_positive (z : Z) :
  0 < z → z ≤ INT_MAX →
  ∃ c s', fmt_d z = String c s' ∧ is_digit c = true ∧ atoi (fmt_d z) = z.
Proof.
  intros Hz Hmax. destruct z as [|q|q]; try lia.
  unfold fmt_d, pretty, pretty_Z, pretty, pretty_positive, pretty, pretty_N.
  rewrite decide_False by done.
  destruct (pretty_N_go_head (N.pos q) "") as (c & s' & E & Hc); [lia |].
  exists c, s'. split; [done |]. split; [done |].
  assert (decimal (String c s') = atoi_digits 0 (String c s')) as Ha.
  { unfold is_digit in Hc. apply andb_prop in Hc as [H1 H2].
    apply Nat.leb_le in H1, H2. unfold decimal, is_space.
    assert ((nat_of_ascii c =? 32)%nat = false) as -> by (apply Nat.eqb_neq; lia).
    assert ((nat_of_ascii c <=? 13)%nat = false) as -> by (apply Nat.leb_gt; lia).
    rewrite andb_false_r. simpl.
    destruct (Ascii.eqb c "-") eqn:E1.
    { apply Ascii.eqb_eq in E1. subst c.
      change (nat_of_ascii "-") with 45%nat in H1. lia. }
    destruct (Ascii.eqb c "+") eqn:E2.
    { apply Ascii.eqb_eq in E2. subst c.
      change (nat_of_ascii "+") with 43%nat in H1. lia. }
    done. }
  assert (decimal (pretty_N_go (N.pos q) "") = Z.pos q) as Hd.
  { rewrite E, Ha, <- E. destruct (atoi_digits_pretty_N_go (N.pos q)) as [d ->].
    simpl. lia. }
  rewrite atoi_small; rewrite Hd; [done |]. lia.
Qed.

Lemma getjobjid_live (js : list job_t) (k : nat) (j : job_t) :
  wf_jobs js → js !! k = Some j → live j → getjobjid js (jid j) = Some k.
Proof.
  intros Hwf Hk Hl.
  assert (Hslot : ∀ i y, js !! i = Some y → jid y = jid j → live y ∧ 1 ≤ jid j).
  { intros i y Hi E. destruct Hwf as [_ Hs _ _]. rewrite Forall_lookup in Hs.
    unfold live in *.
    destruct (Hs _ _ Hk) as [(? & _) | (_ & ? & _)]; [done |].
    destruct (Hs _ _ Hi) as [(_ & ? & _) | (? & _)]; lia. }
  unfold getjobjid. rewrite decide_False by (destruct (Hslot k j Hk eq_refl); lia).
  apply fmap_Some. exists (k, j). split; [| done].
  apply list_find_Some. split; [done |]. split; [done |].
  intros i y Hi Hlt E. assert (i = k); [| lia].
  eapply (wf_jids _ Hwf); [done | done | by eapply Hslot | done | done].
Qed.

(** On a well-formed list a live job is named by [%] followed by its jid
    and - its pid being a [pid_t], within [int] - by its pid, as [%d]
    prints them. *)
Lemma designates_canonical (w : world) (cmd : string) (k : nat) (j : job_t) :
  wf_jobs (jobs w) → jobs w !! k = Some j → live j →
  designates w cmd ("%" +:+ fmt_d (jid j)) k ∧
  (pid j ≤ INT_MAX → designates w cmd (fmt_d (pid j)) k).
Proof.
  intros Hwf Hk Hl.
  assert (Hpos : 0 < pid j ∧ 0 < jid j ≤ INT_MAX).
  { destruct Hwf as [_ Hs _ _]. rewrite Forall_lookup in Hs. unfold live in *.
    destruct (Hs _ _ Hk) as [(? & _) | (? & ? & _)]; [done |].
    unfold INT_MAX, MAXJOBS in *. lia. }
  destruct (fmt_d_positive (jid j)) as (cj & sj & Ej & Hcj & Aj); [lia.. |].
  unfold designates, bgfg_target. run. split.
  - change ("" +:+ fmt_d (jid j)) with (fmt_d (jid j)).
    rewrite Aj, decide_False by lia.
    by rewrite (getjobjid_live _ _ _ Hwf Hk Hl).
  - intros Hmax.
    destruct (fmt_d_positive (pid j)) as (cp & sp & Ep & Hcp & Ap); [lia.. |].
    assert (Ascii.eqb (char0 (fmt_d (pid j))) "%" = false) as ->.
    { rewrite Ep. simpl. apply Ascii.eqb_neq. by intros ->. }
    rewrite Ap, decide_False by lia.
    by rewrite (getjobpid_live _ _ _ Hwf Hk Hl).
Qed.

(** C10.  On a job that [argv[1]] names and for which the built-in has no
    transition - [bg] on a job in state BG or FG, [fg] on a job in state
    FG - [do_bgfg] returns with the world as it was: no signal sent, no
    job changed, nothing printed. *)
Theorem bgfg_no_transition_no_effect (w : world) (cmd id : string)
    (more : list string) (k : nat) (j : job_t) :
  designates w cmd id k → jobs w !! k = Some j →
  (cmd = "bg" ∧ (state j = BG ∨ state j = FG)) ∨ (cmd = "fg" ∧ state j = FG) →
  do_bgfg (cmd :: id :: more) w = Ret tt w.
Proof.
  intros Hd Hk Hcase. unfold do_bgfg. simpl. unfold designates in Hd. run.
  rewrite Hd, Hk.
  destruct Hcase as [[-> [E | E]] | [-> E]]; simpl;
    repeat case_decide; try done;
    exfalso; unfold FG, BG, ST in *; intuition congruence.
Qed.

(** ** The interactive-stop handler *)

Lemma fg_count_unique (js : list job_t) (a b : nat) (x y : job_t) :
  (fg_count js ≤ 1)%nat → js !! a = Some x → js !! b = Some y →
  state x = FG → state y = FG → a = b.
Proof.
  revert a b. induction js as [|z l IH]; intros a b Hc Ha Hb Hx Hy; [done |].
  unfold fg_count in Hc. rewrite filter_cons in Hc.
  destruct (decide (state z = FG)) as [Ez | Nz]; simpl in Hc.
  - assert (Hno : no_fg l) by (apply no_fg_count; unfold fg_count; lia).
    unfold no_fg in Hno. rewrite Forall_lookup in Hno.
    destruct a as [|a], b as [|b]; simpl in *; [done | | |].
    + by destruct (Hno _ _ Hb).
    + by destruct (Hno _ _ Ha).
    + by destruct (Hno _ _ Ha).
  - destruct a as [|a], b as [|b]; simpl in *; simplify_eq; try done.
    f_equal. by eapply IH.
Qed.


(** ** A full job list *)

(** MAXJOBS live jobs with distinct jids in [1 .. MAXJOBS] use every jid. *)
Lemma full_freejid (js : list job_t) :
  wf_jobs js → table_full js → freejid js = Some 0.
Proof.
  intros Hwf Hfull.
  destruct (freejid_spec js) as (f & -> & [[-> _] | (Hf & Hun & _)]);
    [by apply wf_jids_in_range | done |].
  exfalso. apply Hun.
  set (L := jid <$> js). set (K := Z.of_nat <$> seq 1 MAXJOBS).
  unfold table_full in Hfull. rewrite Forall_lookup in Hfull.
  assert (HndL : NoDup L).
  { apply NoDup_alt. intros a b x Ha Hb. unfold L in Ha, Hb.
    rewrite list_lookup_fmap in Ha, Hb.
    destruct (js !! a) as [ja|] eqn:Ea; [| done].
    destruct (js !! b) as [jb|] eqn:Eb; [| done]. simpl in *.
    eapply (wf_jids _ Hwf); eauto. congruence. }
  assert (Hsub : ∀ x, x ∈ L → x ∈ K).
  { intros x Hx. apply list_elem_of_fmap in Hx as (j & -> & Hj).
    destruct Hwf as [_ Hs _ _]. rewrite Forall_forall in Hs.
    apply list_elem_of_lookup in Hj as [i Hi]. pose proof (Hfull _ _ Hi) as Hl.
    destruct (Hs j) as [(E & _) | (_ & Hr & _)];
      [by eapply list_elem_of_lookup_2 | done |].
    apply list_elem_of_fmap. exists (Z.to_nat (jid j)). split; [lia |].
    apply elem_of_seq. unfold MAXJOBS in *. lia. }
  assert (Hperm : L ≡ₚ K).
  { apply submseteq_length_Permutation; [by apply NoDup_submseteq |].
    unfold K, L. rewrite !length_fmap, length_seq. by rewrite (wf_len _ Hwf). }
  assert (Hin : f ∈ L).
  { rewrite Hperm. apply list_elem_of_fmap. exists (Z.to_nat f). split; [lia |].
    apply elem_of_seq. unfold MAXJOBS in *. lia. }
  apply list_elem_of_fmap in Hin as (j & E & Hj). by exists j.
Qed.

(** C7 (amended).  With every slot of a well-formed job list taken,
    [addjob] returns 0, prints that too many jobs were tried and leaves
    the list as it was.  [eval] calls it only after [fork]: on a command
    that is no built-in and has no pipe, the child has been created and put
    in its own group when the registration fails, and the job list at the
    end of [eval] is the one it started with. *)
Theorem full_table_add_fails_after_fork (w : world) :
  wf_jobs (jobs w) → table_full (jobs w) →
  (∀ p st cmd, 1 ≤ p → addjob p st cmd w = Ret 0 (emit full_note w)) ∧
  (∀ cmd argv0 rest p fk,
     parseline cmd = argv0 :: rest → ¬ is_builtin argv0 →
     has_piping (argv0 :: rest) = false →
     forks w = p :: fk → 0 < p → (∀ j, j ∈ jobs w → pid j ≠ p) → idle w →
     jobs (final (eval cmd w)) = jobs w ∧
     trace (final (eval cmd w)) = trace w ++ launch_events p ++ [full_note]).
Proof.
  intros Hwf Hfull.
  assert (Hadd : ∀ v p st cmd, jobs v = jobs w → 1 ≤ p →
                 addjob p st cmd v = Ret 0 (emit full_note v)).
  { intros v p st cmd Hv Hp. rewrite addjob_unfold, Hv, full_freejid by done.
    by rewrite decide_False by lia. }
  split; [intros p st cmd; by apply Hadd |].
  intros cmd argv0 rest p fk Hparse Hnb Hnp Hfk Hp Hfresh Hidle.
  unfold eval. rewrite Hparse, Hnp. unfold is_builtin in Hnb.
  rewrite decide_False by done. unfold fork. run. rewrite Hfk. simpl.
  rewrite !decide_False by lia. unfold register_job.
  destruct (wants_bg _); run.
  - rewrite Hadd by (done || lia). simpl.
    assert (getjobpid (jobs w) p = None) as ->.
    { apply getjobpid_None. by right. }
    simpl. by rewrite <- !app_assoc.
  - rewrite Hadd by (done || lia). simpl. unfold waitfg. run.
    destruct (length _); simpl; run;
      (rewrite decide_False by (rewrite (fgpid_none _ Hidle); lia));
      simpl; by rewrite <- !app_assoc.
Qed.

(** ** Pipelines *)

Lemma only_own_groups_emit (t0 : list event) (e : event) (w : world) :
  own_group e → only_own_groups t0 w → only_own_groups t0 (emit e w).
Proof.
  intros He (t & E & F). exists (t ++ [e]). simpl. rewrite E, app_assoc.
  split; [done |]. apply Forall_app. split; [done |]. by constructor.
Qed.

Lemma not_setpgid_own_group (e : event) : not_setpgid e → own_group e.
Proof. by destruct e. Qed.

Section OwnGroups.

Variable t0 : list event.
Abbreviation Inv := (only_own_groups t0).

Local Ltac emitted :=
  intros ? ?; simpl;
  repeat (apply only_own_groups_emit; [by simpl |]); by auto.

Lemma sigsuspend_own (m : sigset) : keeps Inv (sigsuspend m).
Proof.
  apply sigsuspend_keeps; try done.
  intros e w He. by apply only_own_groups_emit, not_setpgid_own_group.
Qed.

Lemma waitfg_own (p : Z) : keeps Inv (waitfg p).
Proof.
  unfold waitfg. apply keeps_bind; [kept |]. intros prev.
  apply keeps_bind; [kept |]. intros w.
  apply keeps_bind; [| intros ?; kept].
  induction (length (wakeups w)) as [|fuel IH]; simpl;
    (apply keeps_bind; [kept |]; intros w1; case_decide; [| kept];
     apply keeps_bind; [apply sigsuspend_own | intros ?]); [kept | done].
Qed.

Lemma addjob_own (p st : Z) (cmd : string) : keeps Inv (addjob p st cmd).
Proof.
  intros w H. rewrite addjob_unfold. case_decide; [done |].
  destruct (freejid _); [| done]. case_decide; [by apply only_own_groups_emit |].
  destruct (free_slot _); [| done]. simpl.
  destruct (verbose w); [by apply only_own_groups_emit | done].
Qed.

Lemma register_job_own (argv : list string) (p : Z) (m : sigset) (cmd : string) :
  keeps Inv (register_job argv p m cmd).
Proof.
  unfold register_job. destruct (wants_bg argv).
  - apply keeps_bind; [apply addjob_own |]. intros ?.
    apply keeps_bind; [kept |]. intros w. destruct (_ ≫= _); [| kept].
    apply keeps_bind; [emitted | intros ?; kept].
  - apply keeps_bind; [apply addjob_own |]. intros ?.
    apply keeps_bind; [kept | intros ?; apply waitfg_own].
Qed.

Lemma pipe_child_own (stage : list string) (is_last : bool) (prev_fd wr : Z)
    (m : sigset) :
  keeps Inv (pipe_child stage is_last prev_fd wr m).
Proof.
  apply pipe_child_keeps; [| done | done].
  intros e w He. by apply only_own_groups_emit.
Qed.

Lemma pipe_loop_own (stages : list (list string)) (prev_fd : Z)
    (argv : list string) (m : sigset) (cmd : string) :
  keeps Inv (pipe_loop stages prev_fd argv m cmd).
Proof.
  revert prev_fd. induction stages as [|stage rest IH]; intros prev_fd; simpl;
    [kept |].
  apply keeps_bind.
  { intros w H. unfold pipe. destruct (pipes w); simpl;
      by apply only_own_groups_emit. }
  intros [[rd wr]|]; [| emitted].
  apply keeps_bind.
  { intros w H. unfold fork. destruct (forks w); simpl;
      by apply only_own_groups_emit. }
  intros p. case_decide; [apply pipe_child_own |]. case_decide; [emitted |].
  do 3 (apply keeps_bind; [emitted | intros ?]).
  apply keeps_bind; [case_decide; [emitted | kept] | intros ?].
  apply keeps_bind; [emitted | intros ?].
  apply keeps_bind; [apply register_job_own | intros ?; apply IH].
Qed.

End OwnGroups.

Lemma filter_all {A} (P : A → Prop) `{∀ x, Decision (P x)} (l : list A) :
  Forall P l → filter P l = l.
Proof.
  induction 1 as [|x l Hx _ IH]; [done |].
  by rewrite filter_cons, decide_True, IH.
Qed.

Lemma live_count_insert (js : list job_t) (k : nat) (j0 nj : job_t) :
  js !! k = Some j0 → pid j0 = 0 → live nj →
  live_count (<[k := nj]> js) = S (live_count js).
Proof.
  unfold live_count. revert k. induction js as [|j js IH]; intros k Hk H0 Hl; [done |].
  destruct k as [|k]; simpl in *.
  - simplify_eq. rewrite !filter_cons, decide_True by done.
    rewrite decide_False; [done |]. unfold live. by intros ?.
  - rewrite !filter_cons. case_decide; simpl; by rewrite (IH k).
Qed.

(** [addjob] succeeds on a well-formed list that is not full. *)
Lemma addjob_room (w : world) (p st : Z) (cmd : string) :
  wf_jobs (jobs w) → (live_count (jobs w) < MAXJOBS)%nat → 1 ≤ p →
  ∃ k f j0, free_slot (jobs w) = Some k ∧ jobs w !! k = Some j0 ∧ pid j0 = 0 ∧
            1 ≤ f ≤ Z.of_nat MAXJOBS ∧
            addjob p st cmd w
            = Ret 1 (let w1 := with_jobs (λ js, <[k := mkjob p f st cmd]> js) w in
                     if verbose w then emit (added_note f p cmd) w1 else w1).
Proof.
  intros Hwf Hroom Hp.
  destruct (free_slot (jobs w)) as [k|] eqn:Hk; cycle 1.
  { exfalso. unfold free_slot in Hk. apply fmap_None, list_find_None in Hk.
    unfold live_count in Hroom. rewrite filter_all in Hroom by done.
    rewrite (wf_len _ Hwf) in Hroom. lia. }
  destruct (freejid_spec (jobs w)) as (f & Ef & [[-> Hall] | (Hf & _)]);
    [by apply wf_jids_in_range | |].
  { exfalso.
    set (K := Z.of_nat <$> seq 1 MAXJOBS).
    assert (Hsub : K ⊆+ jid <$> filter live (jobs w)).
    { apply NoDup_submseteq.
      - apply NoDup_fmap_2; [apply _ | apply NoDup_seq].
      - intros x Hx. apply list_elem_of_fmap in Hx as (n & -> & Hn).
        apply elem_of_seq in Hn.
        destruct (Hall (Z.of_nat n)) as (j & Hj & Ej); [unfold MAXJOBS in *; lia |].
        apply list_elem_of_fmap. exists j. split; [done |].
        apply list_elem_of_filter. split; [| done].
        destruct Hwf as [_ Hs _ _]. rewrite Forall_forall in Hs. unfold live.
        destruct (Hs j Hj) as [(_ & E & _) | (? & _)]; lia. }
    apply submseteq_length in Hsub. unfold K, live_count in *.
    rewrite !length_fmap, length_seq in Hsub. lia. }
  pose proof Hk as Hk'. apply free_slot_Some in Hk' as (j0 & Hj0 & E0 & _).
  exists k, f, j0. split; [done |]. split; [done |]. split; [done |].
  split; [done |].
  rewrite addjob_unfold, decide_False, Ef, decide_False, Hk by lia. done.
Qed.

Lemma getjobpid_insert_fresh (js : list job_t) (k : nat) (nj : job_t) :
  (k < length js)%nat → 1 ≤ pid nj → (∀ j, j ∈ js → pid j ≠ pid nj) →
  getjobpid (<[k := nj]> js) (pid nj) = Some k.
Proof.
  intros Hk Hp Hfresh. apply getjobpid_Some. split; [done |].
  exists nj. split; [by apply list_lookup_insert_eq |]. split; [done |].
  intros i y Hi Hlt. rewrite list_lookup_insert_ne in Hi by lia.
  eapply Hfresh. by eapply list_elem_of_lookup_2.
Qed.

Lemma pipe_loop_step (stage : list string) (rest : list (list string))
    (prev_fd p rd wr : Z) (fk : list Z) (pk : list (option (Z * Z)))
    (argv : list string) (m : sigset) (cmd : string) (w : world) :
  forks w = p :: fk → pipes w = Some (rd, wr) :: pk → 0 < p →
  pipe_loop (stage :: rest) prev_fd argv m cmd w
  = (register_job argv p m cmd;; pipe_loop rest rd argv m cmd)
      (stage_started prev_fd p rd wr fk pk w).
Proof.
  intros Hf Hp Hpos. simpl. unfold pipe, fork, stage_started. run.
  rewrite Hp. simpl. rewrite Hf. simpl. rewrite !decide_False by lia.
  by case_decide.
Qed.

Lemma stage_started_trace (prev_fd p rd wr : Z) (fk : list Z)
    (pk : list (option (Z * Z))) (w : world) :
  ∃ t, trace (stage_started prev_fd p rd wr fk pk w) = trace w ++ t ∧
       pgid_events t = [(p, p)].
Proof.
  unfold stage_started. case_decide; simpl; rewrite <- !app_assoc; simpl;
    eexists; (split; [done |]); done.
Qed.

(** Registration of a background stage when there is room. *)
Lemma register_job_bg (argv : list string) (p : Z) (m : sigset) (cmd : string)
    (w : world) :
  wants_bg argv = true → wf_jobs (jobs w) → (live_count (jobs w) < MAXJOBS)%nat →
  0 < p → (∀ j, j ∈ jobs w → pid j ≠ p) →
  ∃ k f j0 w', register_job argv p m cmd w = Ret tt w' ∧
               jobs w !! k = Some j0 ∧ pid j0 = 0 ∧
               jobs w' = <[k := mkjob p f BG cmd]> (jobs w) ∧
               wf_jobs (jobs w') ∧
               forks w' = forks w ∧ pipes w' = pipes w ∧
               ∃ t, trace w' = trace w ++ t ∧ pgid_events t = [].
Proof.
  intros Hbg Hwf Hroom Hp Hfresh. unfold register_job. rewrite Hbg.
  destruct (addjob_room w p BG cmd Hwf Hroom) as (k & f & j0 & Hk & Hj0 & E0 & Hf & Ea);
    [lia |].
  assert (Hwf' : wf_jobs (<[k := mkjob p f BG cmd]> (jobs w))).
  { pose proof (wf_addjob w _ p BG cmd Hwf (or_intror (or_introl eq_refl)) Hfresh Ea)
      as H. by destruct (verbose w). }
  run. rewrite Ea. simpl.
  assert (Hlt : (k < length (jobs w))%nat) by (by eapply lookup_lt_Some).
  set (nj := mkjob p f BG cmd).
  assert (Hget : getjobpid (<[k := nj]> (jobs w)) p = Some k).
  { apply (getjobpid_insert_fresh (jobs w) k nj); [done | simpl; lia | done]. }
  exists k, f, j0.
  destruct (verbose w); simpl; rewrite Hget; simpl;
    rewrite list_lookup_insert_eq by done; simpl; unfold modify;
    eexists; (split; [reflexivity |]); simpl; repeat (split; [done |]);
    rewrite <- ?app_assoc; eexists; (split; [reflexivity |]); done.
Qed.

Lemma stage_started_fields (prev_fd p rd wr : Z) (fk : list Z)
    (pk : list (option (Z * Z))) (w : world) :
  let w1 := stage_started prev_fd p rd wr fk pk w in
  jobs w1 = jobs w ∧ forks w1 = fk ∧ pipes w1 = pk ∧ wakeups w1 = wakeups w ∧
  blocked w1 = blocked w ∧ verbose w1 = verbose w.
Proof. unfold stage_started. by case_decide. Qed.

(** A background pipeline whose pipes and forks succeed and for which the
    job list has room: every stage gets a job and a group of its own. *)
Lemma pipe_loop_bg (argv : list string) (m : sigset) (cmd : string)
    (stages : list (list string)) :
  wants_bg argv = true →
  ∀ (ps : list Z) (fds : list (Z * Z)) (prev_fd : Z) (w : world)
    (fk : list Z) (pk : list (option (Z * Z))),
    length ps = length stages → length fds = length stages →
    forks w = ps ++ fk → pipes w = (Some <$> fds) ++ pk →
    wf_jobs (jobs w) → (live_count (jobs w) + length ps ≤ MAXJOBS)%nat →
    Forall (λ p, 0 < p) ps → NoDup ps →
    (∀ p j, p ∈ ps → j ∈ jobs w → pid j ≠ p) →
    ∃ w', pipe_loop stages prev_fd argv m cmd w = Ret tt w' ∧
          wf_jobs (jobs w') ∧
          live_count (jobs w') = (live_count (jobs w) + length ps)%nat ∧
          (∀ k j, jobs w !! k = Some j → live j → jobs w' !! k = Some j) ∧
          (∀ p, p ∈ ps → ∃ k f, jobs w' !! k = Some (mkjob p f BG cmd)) ∧
          ∃ t, trace w' = trace w ++ t ∧ pgid_events t = (λ p, (p, p)) <$> ps.
Proof.
  intros Hbg. induction stages as [|stage rest IH];
    intros ps fds prev_fd w fk pk Hlp Hlf Hfk Hpk Hwf Hroom Hpos Hnd Hfresh.
  { destruct ps; [| done]. exists w. simpl. split; [done |]. split; [done |].
    split; [lia |]. split; [done |]. split; [by intros p ?%elem_of_nil |].
    exists []. by rewrite app_nil_r. }
  destruct ps as [|p ps]; [done |]. destruct fds as [|[rd wr] fds]; [done |].
  simpl in Hlp, Hlf, Hfk, Hpk, Hroom.
  apply Forall_cons in Hpos as [Hp Hpos]. apply NoDup_cons in Hnd as [Hnin Hnd].
  rewrite (pipe_loop_step stage rest prev_fd p rd wr (ps ++ fk) ((Some <$> fds) ++ pk))
    by done.
  set (w1 := stage_started prev_fd p rd wr (ps ++ fk) ((Some <$> fds) ++ pk) w).
  destruct (stage_started_fields prev_fd p rd wr (ps ++ fk) ((Some <$> fds) ++ pk) w)
    as (J1 & F1 & P1 & _). fold w1 in J1, F1, P1.
  destruct (stage_started_trace prev_fd p rd wr (ps ++ fk) ((Some <$> fds) ++ pk) w)
    as (t1 & T1 & G1). fold w1 in T1.
  destruct (register_job_bg argv p m cmd w1 Hbg)
    as (k & f & j0 & w2 & E2 & Hj0 & E0 & J2 & Hwf2 & F2 & P2 & t2 & T2 & G2).
  { by rewrite J1. }
  { rewrite J1. lia. }
  { done. }
  { rewrite J1. intros j. apply Hfresh. by left. }
  rewrite J1 in Hj0, J2.
  assert (Hlive2 : live_count (jobs w2) = S (live_count (jobs w))).
  { rewrite J2. apply (live_count_insert _ _ j0); [done | done |].
    unfold live. simpl. lia. }
  destruct (IH ps fds rd w2 fk pk) as (w' & E' & Hwf' & Hc' & Hext' & Hreg' & t3 & T3 & G3);
    try done; try lia; try congruence.
  { intros p' j Hp' Hj. rewrite J2 in Hj. apply list_elem_of_lookup in Hj as [i Hi].
    apply lookup_insert_cases in Hi as [[_ ->] | [_ Hi]]; simpl.
    - intros ->. done.
    - apply Hfresh; [by right | by eapply list_elem_of_lookup_2]. }
  exists w'. split; [| split; [done | split; [simpl; lia | split; [| split]]]].
  - unfold mbind, M_bind. by rewrite E2.
  - intros k0 j Hk0 Hl. apply Hext'; [| done]. rewrite J2.
    rewrite list_lookup_insert_ne; [done |]. intros <-. rewrite Hj0 in Hk0.
    simplify_eq. by apply Hl.
  - intros p' Hp'. apply elem_of_cons in Hp' as [-> | Hp']; [| by apply Hreg'].
    exists k, f. apply Hext'; [| unfold live; simpl; lia].
    rewrite J2. apply list_lookup_insert_eq. by eapply lookup_lt_Some.
  - exists (t1 ++ t2 ++ t3). rewrite T3, T2, T1, <- !app_assoc. split; [done |].
    unfold pgid_events in *. rewrite !omap_app, G1, G2, G3. done.
Qed.

Lemma fgpid_insert_fg (js : list job_t) (k : nat) (nj : job_t) :
  no_fg js → (k < length js)%nat → state nj = FG →
  fgpid (<[k := nj]> js) = pid nj.
Proof.
  intros Hno Hk Hst. unfold fgpid.
  assert (list_find (λ x, state x = FG) (<[k := nj]> js) = Some (k, nj)) as ->;
    [| done].
  apply list_find_Some. split; [by apply list_lookup_insert_eq |].
  split; [done |]. intros i y Hi Hlt.
  rewrite list_lookup_insert_ne in Hi by lia.
  unfold no_fg in Hno. rewrite Forall_lookup in Hno. by eapply Hno.
Qed.

(** One turn of the loop for a foreground pipeline: the stage is
    registered as the foreground job and waited for; the rest of the loop -
    the next [pipe] and [fork] - comes after the wait. *)
Lemma pipe_loop_fg (argv : list string) (m : sigset) (cmd : string)
    (stage : list string) (rest : list (list string)) (prev_fd p rd wr : Z)
    (fk : list Z) (pk : list (option (Z * Z))) (w : world) :
  wants_bg argv = false →
  forks w = p :: fk → pipes w = Some (rd, wr) :: pk → 0 < p →
  wf_jobs (jobs w) → (live_count (jobs w) < MAXJOBS)%nat →
  ∃ k f w2,
    pipe_loop (stage :: rest) prev_fd argv m cmd w
    = (waitfg p;; pipe_loop rest rd argv m cmd) w2 ∧
    jobs w2 = <[k := mkjob p f FG cmd]> (jobs w) ∧
    free_slot (jobs w) = Some k ∧
    forks w2 = fk ∧ pipes w2 = pk ∧ blocked w2 = m ∧
    (∃ t, trace w2 = trace w ++ t ∧ pgid_events t = [(p, p)]) ∧
    (idle w → fgpid (jobs w2) = p).
Proof.
  intros Hfg Hfk Hpk Hp Hwf Hroom.
  rewrite (pipe_loop_step stage rest prev_fd p rd wr fk pk) by done.
  set (w1 := stage_started prev_fd p rd wr fk pk w).
  destruct (stage_started_fields prev_fd p rd wr fk pk w) as (J1 & F1 & P1 & _ & _ & V1).
  destruct (stage_started_trace prev_fd p rd wr fk pk w) as (t1 & T1 & G1).
  fold w1 in J1, F1, P1, V1, T1.
  destruct (addjob_room w1 p FG cmd) as (k & f & j0 & Hk & Hj0 & E0 & Hf & Ea);
    [by rewrite J1 | by rewrite J1 | lia |].
  rewrite J1 in Hk, Hj0.
  assert (Hlt : (k < length (jobs w))%nat) by (by eapply lookup_lt_Some).
  exists k, f. unfold register_job. rewrite Hfg. unfold mbind at 1 2, M_bind at 1 2.
  rewrite Ea. unfold sigprocmask_setmask, modify. cbn zeta.
  eexists. split; [reflexivity |].
  destruct (verbose w1); cbn [jobs forks pipes blocked trace with_blocked emit with_jobs];
    rewrite J1, T1, <- ?app_assoc;
    (repeat (split; [done |])); (split; [eexists; split; [reflexivity |] |]);
    try (intros Hidle; by apply (fgpid_insert_fg (jobs w) k (mkjob p f FG cmd)));
    unfold pgid_events in *; rewrite ?omap_app, G1; done.
Qed.

(** C1 (amended).  [my_pipe] treats every stage as [eval] treats a single
    command.  (a) In any run, each [setpgid] it makes - [setpgid(pid, pid)]
    in the parent, [setpgid(0, 0)] in the child - makes a stage the leader
    of a group of its own; no stage joins the group of another.  (b) For
    a background pipeline whose pipes and forks succeed, with fresh pids
    and room in a well-formed job list, [my_pipe] returns with one more
    live job per stage, the job of a stage being tracked by that stage's pid
    and in state BG, the jobs that were there being kept.  (c) For
    a foreground pipeline the first turn of the loop registers the first
    stage as the foreground job and goes on as [waitfg] on its pid; the
    turns for the later stages, each with its own registration, come after
    that wait. *)
Theorem pipeline_job_and_group_per_stage (argv : list string) (m : sigset)
    (cmd : string) (w : world) :
  only_own_groups (trace w) (final (my_pipe argv m cmd w)) ∧
  (∀ ps fds fk pk,
     wants_bg argv = true →
     length ps = length (split_stages argv) → length fds = length ps →
     forks w = ps ++ fk → pipes w = (Some <$> fds) ++ pk →
     wf_jobs (jobs w) → (live_count (jobs w) + length ps ≤ MAXJOBS)%nat →
     Forall (λ p, 0 < p) ps → NoDup ps →
     (∀ p j, p ∈ ps → j ∈ jobs w → pid j ≠ p) →
     ∃ w', my_pipe argv m cmd w = Ret tt w' ∧
           live_count (jobs w') = (live_count (jobs w) + length ps)%nat ∧
           (∀ p, p ∈ ps → ∃ k f, jobs w' !! k = Some (mkjob p f BG cmd)) ∧
           (∀ k j, jobs w !! k = Some j → live j → jobs w' !! k = Some j) ∧
           ∃ t, trace w' = trace w ++ t ∧
                pgid_events t = (λ p, (p, p)) <$> ps) ∧
  (∀ stage rest p fk rd wr pk,
     wants_bg argv = false → split_stages argv = stage :: rest →
     forks w = p :: fk → pipes w = Some (rd, wr) :: pk → 0 < p →
     wf_jobs (jobs w) → (live_count (jobs w) < MAXJOBS)%nat → idle w →
     ∃ k f w2,
       my_pipe argv m cmd w = (waitfg p;; pipe_loop rest rd argv m cmd) w2 ∧
       jobs w2 = <[k := mkjob p f FG cmd]> (jobs w) ∧
       forks w2 = fk ∧ pipes w2 = pk ∧ fgpid (jobs w2) = p ∧
       ∃ t, trace w2 = trace w ++ t ∧ pgid_events t = [(p, p)]).
Proof.
  split; [| split].
  - apply (pipe_loop_own (trace w)). exists []. by rewrite app_nil_r.
  - intros ps fds fk pk Hbg Hlp Hlf Hfk Hpk Hwf Hroom Hpos Hnd Hfresh.
    destruct (pipe_loop_bg argv m cmd (split_stages argv) Hbg ps fds (-1) w fk pk)
      as (w' & E & _ & Hc & Hext & Hreg & Ht); try done; [congruence |].
    by exists w'.
  - intros stage rest p fk rd wr pk Hfg Hsplit Hfk Hpk Hp Hwf Hroom Hidle.
    destruct (pipe_loop_fg argv m cmd stage rest (-1) p rd wr fk pk w)
      as (k & f & w2 & E & J & _ & F & P & _ & Ht & Hfgpid); try done.
    exists k, f, w2. unfold my_pipe. rewrite Hsplit. auto 10.
Qed.

(** ** The empty job list *)

Lemma initjobs_wf (js : list job_t) : length js = MAXJOBS → wf_jobs (initjobs js).
Proof.
  intros Hl. unfold initjobs. split.
  - by rewrite length_fmap.
  - apply Forall_fmap, Forall_true. intros j. by left.
  - intros a b ja jb Ha _ La. apply list_lookup_fmap_Some in Ha as (? & -> & _).
    by destruct La.
  - intros a b ja jb Ha _ La. apply list_lookup_fmap_Some in Ha as (? & -> & _).
    by destruct La.
Qed.

(** ** Signals that land between two statements *)

Lemma bind_assoc {A B C} (m : M A) (f : A → M B) (g : B → M C) (w : world) :
  ((m ≫= f) ≫= g) w = (m ≫= λ a, f a ≫= g) w.
Proof. unfold mbind, M_bind. by destruct (m w). Qed.

Lemma bind_Ret_inv {A B} (m : M A) (k : A → M B) (w w' : world) (b : B) :
  (m ≫= k) w = Ret b w' → ∃ a w1, m w = Ret a w1 ∧ k a w1 = Ret b w'.
Proof. unfold mbind, M_bind. destruct (m w) as [a w1| | | |]; try done. by exists a, w1. Qed.

Lemma bind_Blocked_inv {A B} (m : M A) (k : A → M B) (w w' : world) :
  (m ≫= k) w = Blocked w' →
  m w = Blocked w' ∨ ∃ a w1, m w = Ret a w1 ∧ k a w1 = Blocked w'.
Proof.
  unfold mbind, M_bind. destruct (m w) as [a w1| | | |]; try done.
  - right. by exists a, w1.
  - intros [= <-]. by left.
Qed.

(** What the handlers never touch. *)
Section Untouched.

Context {T : Type} (f : world → T).
Hypothesis f_emit : ∀ e w, f (emit e w) = f w.
Hypothesis f_children : ∀ c w, f (with_children c w) = f w.
Hypothesis f_write_errs : ∀ l w, f (with_write_errs l w) = f w.
Hypothesis f_jobs : ∀ g w, f (with_jobs g w) = f w.

Lemma handler_untouched (s : signo) (w : world) :
  f (final (default skip (handler_of s) w)) = f w.
Proof.
  assert (H : ∀ c, keeps (λ v, f v = c) (default skip (handler_of s))).
  { intros c. destruct s; simpl; try kept;
      first [ apply sigint_handler_keeps | apply sigquit_handler_keeps
            | apply sigchld_handler_keeps | apply sigtstp_handler_keeps ];
      intros; by rewrite ?f_emit, ?f_children, ?f_write_errs, ?f_jobs. }
  by apply (H (f w)).
Qed.

End Untouched.

(** What every step of the definitions of [Async] keeps, when the handlers
    and the moves along the tapes keep it. *)
Section AsyncInvariant.

Variable Inv : world → Prop.
Hypothesis A_emit : ∀ e w, not_setpgid e → Inv w → Inv (emit e w).
Hypothesis A_children : ∀ c w, Inv w → Inv (with_children c w).
Hypothesis A_write_errs : ∀ l w, Inv w → Inv (with_write_errs l w).
Hypothesis A_stop :
  ∀ k j w, jobs w !! k = Some j → live j →
           Inv w → Inv (with_jobs (alter (set_state ST) k) w).
Hypothesis A_delete :
  ∀ p w, Inv w → Inv (with_jobs (λ _, (deletejob_tbl (jobs w) p).1) w).
Hypothesis A_pending : ∀ l w, Inv w → Inv (with_pending l w).
Hypothesis A_arrivals : ∀ w, Inv w → Inv (with_arrivals (tail (arrivals w)) w).
Hypothesis A_wakeups : ∀ l w, Inv w → Inv (with_wakeups l w).

Lemma handler_keeps (s : signo) : keeps Inv (default skip (handler_of s)).
Proof.
  destruct s; simpl; try kept;
    first [ by apply sigint_handler_keeps | by apply sigquit_handler_keeps
          | by apply sigchld_handler_keeps | by apply sigtstp_handler_keeps ].
Qed.

Lemma raise_keeps (m : sigset) (d : delivery) : keeps Inv (Async.raise m d).
Proof.
  unfold Async.raise. apply keeps_bind; [kept |]. intros w.
  apply keeps_bind; [intros ? ?; by apply A_children |]. intros _.
  pose proof (handler_keeps (d_sig d)) as Hh.
  destruct (handler_of (d_sig d)) as [h|]; [| kept].
  destruct (sigismember _ _).
  - apply keeps_bind; [intros ? ?; by apply A_pending | intros ?; kept].
  - apply keeps_bind; [exact Hh | intros ?; kept].
Qed.

Lemma raise_all_keeps (m : sigset) (ds : list delivery) :
  keeps Inv (Async.raise_all m ds).
Proof.
  induction ds as [|d ds IH]; simpl; [kept |].
  apply keeps_bind; [apply raise_keeps |]. intros a.
  apply keeps_bind; [apply IH | intros ?; kept].
Qed.

Lemma release_from_keeps (m : sigset) (ss : list signo) :
  keeps Inv (Async.release_from m ss).
Proof.
  induction ss as [|s ss IH]; simpl; [kept |].
  destruct (sigismember m s); [done |].
  apply keeps_bind; [intros ? ?; by apply A_pending |]. intros _.
  apply keeps_bind; [apply handler_keeps |]. intros _.
  apply keeps_bind; [apply IH | intros ?; kept].
Qed.

Lemma release_keeps (m : sigset) : keeps Inv (Async.release m).
Proof.
  unfold Async.release. apply keeps_bind; [kept |]. intros w.
  apply release_from_keeps.
Qed.

Lemma arrive_keeps (pt : point) : keeps Inv (Async.arrive pt).
Proof.
  unfold Async.arrive. apply keeps_get. intros w Hw.
  destruct (arrivals w) as [|[q batch] rest] eqn:E; [done |].
  case_decide; [| done].
  apply keeps_bind_at.
  - simpl. replace rest with (tail (arrivals w)) by (by rewrite E). by apply A_arrivals.
  - intros _. apply keeps_bind; [apply raise_all_keeps | intros ?; kept].
Qed.

Lemma async_suspend_on_keeps (m : sigset) (tape : list (list delivery)) :
  keeps Inv (Async.suspend_on m tape).
Proof.
  induction tape as [|b tape IH]; simpl.
  - apply keeps_bind; [| kept]. intros ? ?. by apply A_wakeups.
  - apply keeps_bind; [intros ? ?; by apply A_wakeups |]. intros _.
    apply keeps_bind; [apply raise_all_keeps |]. intros [|]; [kept | apply IH].
Qed.

Lemma async_sigsuspend_keeps (m : sigset) : keeps Inv (Async.sigsuspend m).
Proof.
  unfold Async.sigsuspend. apply keeps_bind; [kept_by A_emit |]. intros _.
  apply keeps_bind; [apply release_keeps |]. intros ran.
  apply keeps_bind.
  - destruct ran; [kept |]. apply keeps_bind; [kept |]. intros w.
    apply async_suspend_on_keeps.
  - intros _. apply keeps_bind; [kept |]. intros w.
    apply keeps_bind; [apply release_keeps | intros ?; kept].
Qed.

Lemma turn_keeps (m : sigset) : keeps Inv (turn m).
Proof.
  unfold turn. apply keeps_bind; [apply arrive_keeps |]. intros _.
  apply keeps_bind; [apply async_sigsuspend_keeps | intros _; apply arrive_keeps].
Qed.

Lemma turns_keeps (n : nat) (m : sigset) : keeps Inv (turns n m).
Proof.
  induction n as [|n IH]; simpl; [kept |].
  apply keeps_bind; [apply turn_keeps | intros _; apply IH].
Qed.

(** The rest also sets the mask. *)
Hypothesis A_blocked : ∀ m w, Inv w → Inv (with_blocked m w).

Lemma async_setmask_keeps (m : sigset) : keeps Inv (Async.sigprocmask_setmask m).
Proof.
  unfold Async.sigprocmask_setmask.
  apply keeps_bind; [intros ? ?; by apply A_blocked |]. intros _.
  apply keeps_bind; [apply release_keeps | intros ?; kept].
Qed.

Lemma waitfg_enter_keeps : keeps Inv waitfg_enter.
Proof.
  unfold waitfg_enter. apply keeps_bind; [apply arrive_keeps |]. intros _.
  apply keeps_bind; [intros ? ?; by apply A_blocked | intros _; apply arrive_keeps].
Qed.

Lemma waitfg_leave_keeps (m : sigset) : keeps Inv (waitfg_leave m).
Proof.
  unfold waitfg_leave. apply keeps_bind; [apply arrive_keeps |]. intros _.
  apply async_setmask_keeps.
Qed.

End AsyncInvariant.

(** No handler leaves the shell asleep, so neither does an arrival. *)
Lemma handler_nonblocking (s : signo) : nonblocking (default skip (handler_of s)).
Proof.
  destruct s; simpl; try done.
  - unfold sigint_handler. apply nonblocking_bind; [done |]. intros w. cbv zeta.
    case_decide; by (intros ? ?; step).
  - apply sigchld_handler_nonblocking.
  - unfold sigtstp_handler. apply nonblocking_bind; [done |]. intros w. cbv zeta.
    apply nonblocking_bind; [case_decide; by (intros ? ?; step) |]. intros _.
    destruct (getjobpid _ _); by (intros ? ?; step).
Qed.

Lemma raise_nonblocking (m : sigset) (d : delivery) : nonblocking (Async.raise m d).
Proof.
  unfold Async.raise. apply nonblocking_bind; [done |]. intros w.
  apply nonblocking_bind; [done |]. intros _.
  pose proof (handler_nonblocking (d_sig d)) as Hh.
  destruct (handler_of (d_sig d)) as [h|]; [| done].
  destruct (sigismember _ _); [by apply nonblocking_bind |].
  by apply nonblocking_bind.
Qed.

Lemma raise_all_nonblocking (m : sigset) (ds : list delivery) :
  nonblocking (Async.raise_all m ds).
Proof.
  induction ds as [|d ds IH]; simpl; [done |].
  apply nonblocking_bind; [apply raise_nonblocking |]. intros a.
  by apply nonblocking_bind.
Qed.

Lemma release_from_nonblocking (m : sigset) (ss : list signo) :
  nonblocking (Async.release_from m ss).
Proof.
  induction ss as [|s ss IH]; simpl; [done |].
  destruct (sigismember m s); [done |].
  apply nonblocking_bind; [done |]. intros _.
  apply nonblocking_bind; [apply handler_nonblocking |]. intros _.
  by apply nonblocking_bind.
Qed.

Lemma release_nonblocking (m : sigset) : nonblocking (Async.release m).
Proof.
  unfold Async.release. apply nonblocking_bind; [done |]. intros w.
  apply release_from_nonblocking.
Qed.

Lemma arrive_nonblocking (pt : point) : nonblocking (Async.arrive pt).
Proof.
  unfold Async.arrive. apply nonblocking_bind; [done |]. intros w.
  destruct (arrivals w) as [|[q batch] rest]; [done |]. case_decide; [| done].
  apply nonblocking_bind; [done |]. intros _.
  apply nonblocking_bind; [apply raise_all_nonblocking | done].
Qed.

Lemma waitfg_enter_nonblocking : nonblocking waitfg_enter.
Proof.
  unfold waitfg_enter. apply nonblocking_bind; [apply arrive_nonblocking |]. intros _.
  apply nonblocking_bind; [done | intros _; apply arrive_nonblocking].
Qed.

Lemma waitfg_leave_nonblocking (m : sigset) : nonblocking (waitfg_leave m).
Proof.
  unfold waitfg_leave. apply nonblocking_bind; [apply arrive_nonblocking |]. intros _.
  unfold Async.sigprocmask_setmask. apply nonblocking_bind; [done |]. intros _.
  apply nonblocking_bind; [apply release_nonblocking | done].
Qed.

(** *** Every suspension uses up a signal *)

Lemma weight_handler (s : signo) (w : world) :
  weight (final (default skip (handler_of s) w)) = weight w.
Proof. by apply (handler_untouched weight). Qed.

Lemma length_hold (s : signo) (l : list signo) : (length (hold s l) ≤ S (length l))%nat.
Proof.
  induction l as [|x r IH]; simpl; [lia |]. repeat case_decide; simpl; lia.
Qed.

Lemma weight_raise (m : sigset) (d : delivery) (w : world) :
  (weight (final (Async.raise m d w)) ≤ S (weight w))%nat.
Proof.
  unfold Async.raise. step.
  pose proof (weight_handler (d_sig d) (with_children (children w ++ d_changed d) w)) as Hh.
  destruct (handler_of (d_sig d)) as [h|]; simpl in *; [| unfold weight; simpl; lia].
  destruct (sigismember _ _); simpl.
  - unfold weight. simpl. pose proof (length_hold (d_sig d) (pending w)). lia.
  - destruct (h _); simpl in *; unfold weight in *; simpl in *; lia.
Qed.

Lemma weight_raise_all (m : sigset) (ds : list delivery) (w : world) :
  (weight (final (Async.raise_all m ds w)) ≤ length ds + weight w)%nat.
Proof.
  revert w. induction ds as [|d ds IH]; intros w; simpl; [lia |].
  unfold mbind, M_bind. pose proof (weight_raise m d w) as Hd.
  destruct (Async.raise m d w) as [a w1| | | |]; simpl in *; try lia.
  specialize (IH w1). destruct (Async.raise_all m ds w1); simpl in *; lia.
Qed.

Lemma weight_arrive (pt : point) (w : world) :
  (weight (final (Async.arrive pt w)) ≤ weight w)%nat.
Proof.
  unfold Async.arrive. step.
  destruct (arrivals w) as [|[q batch] rest] eqn:E; [done |].
  case_decide; [| done]. simpl.
  pose proof (weight_raise_all (blocked w) batch (with_arrivals rest w)) as Hr.
  assert (weight w = (length batch + weight (with_arrivals rest w))%nat) as ->.
  { unfold weight. simpl. rewrite E. simpl.
    change (list_fmap _ _ (length ∘ snd) rest) with (length ∘ snd <$> rest). lia. }
  destruct (Async.raise_all _ _ _); simpl in *; lia.
Qed.

Lemma release_from_false (m : sigset) (ss : list signo) (w w' : world) :
  Async.release_from m ss w = Ret false w' → w' = w.
Proof.
  revert w. induction ss as [|s ss IH]; intros w; simpl; [by intros [= <-] |].
  destruct (sigismember m s); [apply IH |].
  set (h := default skip (handler_of s)). step.
  destruct (h _) as [[] w1| | | |]; try done.
  by destruct (Async.release_from m ss w1).
Qed.

Lemma weight_release_from (m : sigset) (ss : list signo) (w : world) :
  (weight (final (Async.release_from m ss w)) ≤ weight w)%nat.
Proof.
  revert w. induction ss as [|s ss IH]; intros w; simpl; [done |].
  destruct (sigismember m s); [apply IH |].
  set (w1 := with_pending (filter (λ x, x ≠ s) (pending w)) w).
  assert (weight w1 ≤ weight w)%nat as H1.
  { unfold weight, w1. simpl. pose proof (length_filter (λ x, x ≠ s) (pending w)). lia. }
  pose proof (weight_handler s w1) as Hh.
  set (h := default skip (handler_of s)) in *. step. fold w1.
  destruct (h w1) as [[] w2| | | |]; simpl in *; try lia.
  specialize (IH w2). destruct (Async.release_from m ss w2); simpl in *; lia.
Qed.

Lemma weight_release_from_true (m : sigset) (ss : list signo) (w w' : world) :
  (∀ x, x ∈ ss → x ∈ pending w) →
  Async.release_from m ss w = Ret true w' → (weight w' < weight w)%nat.
Proof.
  revert w. induction ss as [|s ss IH]; intros w Hin; simpl; [done |].
  destruct (sigismember m s).
  { apply IH. intros x Hx. apply Hin. by right. }
  set (w1 := with_pending (filter (λ x, x ≠ s) (pending w)) w).
  assert (weight w1 < weight w)%nat as H1.
  { unfold weight, w1. simpl.
    assert (length (filter (λ x, x ≠ s) (pending w)) < length (pending w))%nat; [| lia].
    apply (length_filter_lt _ _ s); [apply Hin; by left | by intros ?]. }
  pose proof (weight_handler s w1) as Hh.
  set (h := default skip (handler_of s)) in *. step. fold w1.
  destruct (h w1) as [[] w2| | | |]; simpl in *; try done.
  pose proof (weight_release_from m ss w2) as H2.
  destruct (Async.release_from m ss w2); simpl in *; try done.
  intros [= <-]. lia.
Qed.

Lemma raise_all_wakeups (m : sigset) (ds : list delivery) (w : world) :
  wakeups (final (Async.raise_all m ds w)) = wakeups w.
Proof. by apply (raise_all_keeps (λ v, wakeups v = wakeups w)). Qed.

Lemma weight_suspend_on (m : sigset) (tape : list (list delivery)) (w w' : world) :
  Async.suspend_on m tape w = Ret tt w' →
  (weight w' < weight (with_wakeups tape w))%nat.
Proof.
  revert w. induction tape as [|b tape IH]; intros w; simpl; [done |]. step.
  pose proof (weight_raise_all m b (with_wakeups tape w)) as Hr.
  pose proof (raise_all_wakeups m b (with_wakeups tape w)) as Hk.
  assert (weight (with_wakeups (b :: tape) w)
          = S (length b + weight (with_wakeups tape w))) as ->.
  { unfold weight. simpl.
    change (list_fmap _ _ (S ∘ length) tape) with (S ∘ length <$> tape). lia. }
  destruct (Async.raise_all m b _) as [[|] w1| | | |]; simpl in *; try done.
  - intros [= <-]. lia.
  - intros H. apply IH in H.
    assert (weight (with_wakeups tape w1) = weight w1) as E; [| lia].
    unfold weight. simpl. by rewrite Hk.
Qed.

(** A call of [sigsuspend] that returns has used up a pending signal or a
    wake-up. *)
Lemma weight_sigsuspend (m : sigset) (w w' : world) :
  Async.sigsuspend m w = Ret tt w' → (weight w' < weight w)%nat.
Proof.
  unfold Async.sigsuspend, Async.release. step.
  set (w0 := emit (ESigsuspend m) w).
  assert (weight w0 = weight w) as <- by done.
  change (pending w) with (pending w0).
  pose proof (weight_release_from_true m (pending w0) w0) as Ht.
  pose proof (release_from_false m (pending w0) w0) as Hf.
  destruct (Async.release_from m (pending w0) w0) as [[|] w1| | | |]; try done.
  - specialize (Ht w1 (λ _ H, H) eq_refl). simpl.
    pose proof (weight_release_from (blocked w1) (pending w1) w1) as Hl.
    destruct (Async.release_from _ _ w1); simpl in *; try done.
    intros [= <-]. lia.
  - rewrite (Hf w1 eq_refl). simpl.
    pose proof (weight_suspend_on m (wakeups w) w0) as Hs.
    destruct (Async.suspend_on m (wakeups w) w0) as [[] w2| | | |]; try done.
    specialize (Hs w2 eq_refl).
    pose proof (weight_release_from (blocked w2) (pending w2) w2) as Hl.
    destruct (Async.release_from _ _ w2); simpl in *; try done.
    intros [= <-]. unfold weight in *. simpl in *. lia.
Qed.

Lemma weight_turn (m : sigset) (w w' : world) :
  turn m w = Ret tt w' → (weight w' < weight w)%nat.
Proof.
  unfold turn. intros H.
  apply bind_Ret_inv in H as ([] & w1 & H1 & H).
  apply bind_Ret_inv in H as ([] & w2 & H2 & H3).
  pose proof (weight_arrive at_waitfg_sigsuspend w) as Ha. rewrite H1 in Ha.
  pose proof (weight_arrive at_waitfg_test w2) as Hb. rewrite H3 in Hb.
  apply weight_sigsuspend in H2. simpl in *. lia.
Qed.

Lemma weight_turns (n : nat) (m : sigset) (w w' : world) :
  turns n m w = Ret tt w' → (n + weight w' ≤ weight w)%nat.
Proof.
  revert w. induction n as [|n IH]; intros w; simpl.
  - intros [= <-]. lia.
  - intros H. apply bind_Ret_inv in H as ([] & w1 & H1 & H).
    apply weight_turn in H1. apply IH in H. lia.
Qed.

(** *** What an arrival leaves alone *)

Lemma raise_false (m : sigset) (d : delivery) (w w' : world) :
  Async.raise m d w = Ret false w' → jobs w' = jobs w.
Proof.
  unfold Async.raise. step.
  destruct (handler_of (d_sig d)) as [h|]; [| by intros [= <-]].
  destruct (sigismember _ _); simpl; [by intros [= <-] |].
  by destruct (h _).
Qed.

Lemma raise_all_false (m : sigset) (ds : list delivery) (w w' : world) :
  Async.raise_all m ds w = Ret false w' → jobs w' = jobs w.
Proof.
  revert w. induction ds as [|d ds IH]; intros w; simpl; [by intros [= <-] |].
  intros H. apply bind_Ret_inv in H as (a & w1 & H1 & H).
  apply bind_Ret_inv in H as (b & w2 & H2 & H3). injection H3 as Hab <-.
  apply orb_false_elim in Hab as [-> ->].
  apply raise_false in H1. apply IH in H2. congruence.
Qed.

Lemma sigint_handler_jobs (w : world) : jobs (final (sigint_handler w)) = jobs w.
Proof. by apply (sigint_handler_keeps (λ v, jobs v = jobs w)). Qed.

(** With SIGCHLD blocked, only a ctrl-z changes the job list. *)
Lemma raise_calm (m : sigset) (d : delivery) (b : bool) (w w' : world) :
  SIGCHLD ∈ m → d_sig d ≠ SIGTSTP →
  Async.raise m d w = Ret b w' → jobs w' = jobs w.
Proof.
  intros Hm Hd. unfold Async.raise. step.
  destruct (d_sig d) eqn:Es; simpl; try done.
  - destruct (sigismember m SIGINT); simpl; [by intros [= _ <-] |].
    pose proof (sigint_handler_jobs (with_children (children w ++ d_changed d) w)) as Hj.
    destruct (sigint_handler _); simpl in *; try done. by intros [= _ <-].
  - destruct (sigismember m SIGQUIT); simpl; [by intros [= _ <-] | done].
  - destruct (sigismember m SIGUSR1); simpl; by intros [= _ <-].
  - unfold sigismember. rewrite bool_decide_true by done. simpl. by intros [= _ <-].
  - by intros [= _ <-].
Qed.

Lemma raise_all_calm (m : sigset) (ds : list delivery) (b : bool) (w w' : world) :
  SIGCHLD ∈ m → Forall (λ d, d_sig d ≠ SIGTSTP) ds →
  Async.raise_all m ds w = Ret b w' → jobs w' = jobs w.
Proof.
  intros Hm Hds. revert b w.
  induction Hds as [|d ds Hd Hds IH]; intros b w; simpl; [by intros [= _ <-] |].
  intros H. apply bind_Ret_inv in H as (a & w1 & H1 & H).
  apply bind_Ret_inv in H as (c & w2 & H2 & H3). injection H3 as _ <-.
  apply raise_calm in H1; [| done..]. apply IH in H2. congruence.
Qed.

Lemma arrive_calm (w w' : world) :
  SIGCHLD ∈ blocked w → no_stop_before_sleep w →
  Async.arrive at_waitfg_sigsuspend w = Ret tt w' → jobs w' = jobs w.
Proof.
  intros Hm Hno. unfold Async.arrive. step. unfold no_stop_before_sleep in Hno.
  destruct (arrivals w) as [|[q batch] rest]; [by intros [= <-] |].
  apply Forall_cons in Hno as [Hq _]. case_decide; [| by intros [= <-]].
  simpl in *.
  pose proof (raise_all_calm (blocked w) batch) as Hc.
  destruct (Async.raise_all _ _ _) as [b w1| | | |] eqn:E; try done.
  intros [= <-]. by apply (Hc b _ w1) in E; [| | apply Hq].
Qed.

(** *** Asleep for ever *)

Lemma suspend_on_asleep (m : sigset) (tape : list (list delivery)) (w w' : world) :
  Async.suspend_on m tape w = Blocked w' → jobs w' = jobs w ∧ wakeups w' = [].
Proof.
  revert w. induction tape as [|b tape IH]; intros w; simpl; step.
  - by intros [= <-].
  - pose proof (raise_all_nonblocking m b (with_wakeups tape w)) as Hn.
    destruct (Async.raise_all m b _) as [[|] w1| | | |] eqn:E; try done.
    + intros H. destruct (IH _ H) as [Hj Hk]. split; [| done].
      apply raise_all_false in E. by rewrite Hj, E.
    + by destruct (Hn w0).
Qed.

Lemma sigsuspend_asleep (m : sigset) (w w' : world) :
  Async.sigsuspend m w = Blocked w' → jobs w' = jobs w ∧ wakeups w' = [].
Proof.
  unfold Async.sigsuspend. intros H.
  apply bind_Blocked_inv in H as [H | ([] & w0 & H0 & H)]; [done |].
  injection H0 as <-.
  apply bind_Blocked_inv in H as [H | (ran & w1 & H1 & H)];
    [by destruct (release_nonblocking m _ _ H) |].
  assert (Hlast : ∀ v, (v0 ← get; Async.release (blocked v0);; skip) v ≠ Blocked w').
  { intros v Hv. apply bind_Blocked_inv in Hv as [Hv | (v0 & v1 & [= <- <-] & Hv)];
      [done |].
    apply bind_Blocked_inv in Hv as [Hv | (? & ? & _ & Hv)]; [| done].
    by destruct (release_nonblocking _ _ _ Hv). }
  apply bind_Blocked_inv in H as [H | ([] & w2 & H2 & H)]; [| by destruct (Hlast w2)].
  destruct ran; [done |].
  unfold Async.release in H1. apply bind_Ret_inv in H1 as (v & v' & [= <- <-] & H1).
  apply release_from_false in H1 as ->.
  apply bind_Blocked_inv in H as [H | (v & v' & [= <- <-] & H)]; [done |].
  by apply suspend_on_asleep in H.
Qed.

(** *** The loop of [waitfg] *)

Lemma async_loop_unfold (fuel : nat) (p : Z) (m : sigset) (w : world) :
  Async.waitfg_loop fuel p m w = (Async.arrive at_waitfg_test;; after_test fuel p m) w.
Proof. by destruct fuel. Qed.

Lemma after_test_over (fuel : nat) (p : Z) (m : sigset) (w : world) :
  fgpid (jobs w) ≠ p → after_test fuel p m w = Ret tt w.
Proof. intros H. unfold after_test. step. by rewrite decide_False. Qed.

Lemma after_test_turn (fuel : nat) (p : Z) (m : sigset) (w : world) :
  fgpid (jobs w) = p →
  after_test (S fuel) p m w = (turn m;; after_test fuel p m) w.
Proof.
  intros H. unfold after_test at 1, turn. unfold mbind at 1, M_bind at 1, get at 1.
  rewrite decide_True by done. unfold mbind, M_bind.
  destruct (Async.arrive at_waitfg_sigsuspend w) as [[] w1| | | |]; try done.
  destruct (Async.sigsuspend m w1) as [[] w2| | | |]; try done.
  rewrite async_loop_unfold. unfold mbind, M_bind.
  by destruct (Async.arrive at_waitfg_test w2).
Qed.

Lemma after_test_sound (fuel : nat) (p : Z) (m : sigset) (w0 w1 : world) :
  after_test fuel p m w0 = Ret tt w1 → ∃ n, released p m w0 n w1.
Proof.
  revert w0. induction fuel as [|fuel IH]; intros w0;
    (destruct (decide (fgpid (jobs w0) = p)) as [D | D];
     [| rewrite after_test_over by done; intros [= <-]; exists 0%nat;
        split; [done | split; [done | intros; lia]]]).
  - unfold after_test. step. rewrite decide_True by done.
    destruct (Async.arrive _ w0) as [[] wa| | | |]; try done.
    by destruct (Async.sigsuspend m wa) as [[] wb| | | |].
  - rewrite after_test_turn by done. intros H.
    apply bind_Ret_inv in H as ([] & wa & Ha & H).
    destruct (IH _ H) as (n & Hn & Hne & Hbefore).
    exists (S n). split; [| split; [done |]].
    + simpl. unfold mbind, M_bind. by rewrite Ha.
    + intros [|i] Hi.
      * by exists w0.
      * destruct (Hbefore i) as (wi & Hwi & Ewi); [lia |].
        exists wi. split; [| done]. simpl. unfold mbind, M_bind. by rewrite Ha.
Qed.

Lemma after_test_complete (n fuel : nat) (p : Z) (m : sigset) (w0 w1 : world) :
  (weight w0 ≤ fuel)%nat → released p m w0 n w1 →
  after_test fuel p m w0 = Ret tt w1.
Proof.
  revert fuel w0. induction n as [|n IH]; intros fuel w0 Hfuel (Hn & Hne & Hbefore).
  - simpl in Hn. injection Hn as <-. by apply after_test_over.
  - destruct (Hbefore 0%nat) as (w & [= <-] & E0); [lia |].
    simpl in Hn. apply bind_Ret_inv in Hn as ([] & wa & Ha & Hn).
    pose proof (weight_turn _ _ _ Ha) as Hlt.
    destruct fuel as [|fuel]; [lia |].
    rewrite after_test_turn by done. unfold mbind, M_bind. rewrite Ha.
    apply IH; [lia |]. split; [done | split; [done |]]. intros i Hi.
    destruct (Hbefore (S i)) as (wi & Hwi & Ewi); [lia |].
    simpl in Hwi. unfold mbind, M_bind in Hwi. rewrite Ha in Hwi. by exists wi.
Qed.

Lemma arrive_blocked (pt : point) (w : world) :
  blocked (final (Async.arrive pt w)) = blocked w.
Proof. by apply (arrive_keeps (λ v, blocked v = blocked w)). Qed.

Lemma turn_blocked (m : sigset) (w : world) :
  blocked (final (turn m w)) = blocked w.
Proof. by apply (turn_keeps (λ v, blocked v = blocked w)). Qed.

Lemma no_stop_tail (w : world) :
  no_stop_before_sleep w → no_stop_before_sleep (with_arrivals (tail (arrivals w)) w).
Proof.
  unfold no_stop_before_sleep. simpl. intros H.
  destruct (arrivals w); [done |]. by apply Forall_cons in H as [_ ?].
Qed.

Lemma turn_no_stop (m : sigset) (w : world) :
  no_stop_before_sleep w → no_stop_before_sleep (final (turn m w)).
Proof. apply (turn_keeps no_stop_before_sleep); try done. apply no_stop_tail. Qed.

(** With SIGCHLD blocked and no ctrl-z landing before a suspension, the
    loop sleeps for ever only if the job is in the foreground. *)
Lemma after_test_asleep (fuel : nat) (p : Z) (m : sigset) (w0 w' : world) :
  (weight w0 ≤ fuel)%nat → SIGCHLD ∈ blocked w0 → no_stop_before_sleep w0 →
  after_test fuel p m w0 = Blocked w' → fgpid (jobs w') = p ∧ wakeups w' = [].
Proof.
  revert w0. induction fuel as [|fuel IH]; intros w0 Hfuel Hm Hno;
    (destruct (decide (fgpid (jobs w0) = p)) as [D | D];
     [| by rewrite after_test_over by done]).
  - unfold after_test. step. rewrite decide_True by done.
    pose proof (arrive_calm w0) as Hc.
    pose proof (arrive_nonblocking at_waitfg_sigsuspend w0) as Hnb.
    destruct (Async.arrive _ w0) as [[] wa| | | |] eqn:Ea; try done;
      [| by destruct (Hnb w)].
    specialize (Hc wa Hm Hno eq_refl).
    pose proof (sigsuspend_asleep m wa) as Hs.
    pose proof (weight_sigsuspend m wa) as Hw.
    pose proof (weight_arrive at_waitfg_sigsuspend w0) as Hwa. rewrite Ea in Hwa.
    destruct (Async.sigsuspend m wa) as [[] wb| | | |]; try done.
    + specialize (Hw wb eq_refl). simpl in Hwa. lia.
    + intros [= <-]. destruct (Hs w eq_refl) as [Hj Hk]. by rewrite Hj, Hc.
  - rewrite after_test_turn by done. intros H.
    apply bind_Blocked_inv in H as [H | ([] & wa & Ha & H)].
    + unfold turn in H.
      apply bind_Blocked_inv in H as [H | ([] & w1 & H1 & H)];
        [by destruct (arrive_nonblocking _ _ _ H) |].
      apply bind_Blocked_inv in H as [H | ([] & w2 & H2 & H)];
        [| by destruct (arrive_nonblocking _ _ _ H)].
      apply sigsuspend_asleep in H as [Hj Hk]. split; [| done].
      rewrite Hj. by rewrite (arrive_calm w0 w1).
    + pose proof (weight_turn _ _ _ Ha) as Hlt.
      pose proof (turn_blocked m w0) as Hb. rewrite Ha in Hb. simpl in Hb.
      pose proof (turn_no_stop m w0 Hno) as Hn. rewrite Ha in Hn. simpl in Hn.
      apply (IH wa); [lia | by rewrite Hb | done | done].
Qed.

(** *** What [waitfg] does, whatever lands *)

Lemma async_waitfg_unfold (p : Z) (w : world) :
  Async.waitfg p w =
  match Async.arrive at_waitfg_block w with
  | Ret _ wa =>
      let wb := with_blocked (SIGCHLD :: blocked wa) wa in
      match Async.arrive at_waitfg_test wb with
      | Ret _ w0 =>
          match after_test (weight wb) p (blocked wa) w0 with
          | Ret _ w1 => waitfg_leave (blocked wa) w1
          | Exit c v => Exit c v
          | Fault v => Fault v
          | Gone v => Gone v
          | Blocked v => Blocked v
          end
      | Exit c v => Exit c v
      | Fault v => Fault v
      | Gone v => Gone v
      | Blocked v => Blocked v
      end
  | Exit c v => Exit c v
  | Fault v => Fault v
  | Gone v => Gone v
  | Blocked v => Blocked v
  end.
Proof.
  unfold Async.waitfg. unfold mbind at 1, M_bind at 1.
  destruct (Async.arrive at_waitfg_block w) as [[] wa| | | |]; try done.
  unfold mbind at 1, M_bind at 1, sigprocmask_block. simpl.
  unfold mbind at 1, M_bind at 1, get at 1. unfold mbind at 1, M_bind at 1.
  rewrite async_loop_unfold. unfold mbind at 1, M_bind at 1.
  by destruct (Async.arrive at_waitfg_test _) as [[] w0| | | |].
Qed.

Lemma waitfg_enter_unfold (w : world) :
  waitfg_enter w =
  match Async.arrive at_waitfg_block w with
  | Ret _ wa => Async.arrive at_waitfg_test (with_blocked (SIGCHLD :: blocked wa) wa)
  | Exit c v => Exit c v
  | Fault v => Fault v
  | Gone v => Gone v
  | Blocked v => Blocked v
  end.
Proof.
  unfold waitfg_enter. unfold mbind at 1, M_bind at 1.
  by destruct (Async.arrive at_waitfg_block w) as [[] wa| | | |].
Qed.

(** How [waitfg] comes to its first test: with SIGCHLD added to the mask
    and nothing added to what is still to arrive. *)
Lemma waitfg_enter_spec (w w0 : world) :
  waitfg_enter w = Ret tt w0 →
  ∃ wa, Async.arrive at_waitfg_block w = Ret tt wa ∧ blocked wa = blocked w ∧
        Async.arrive at_waitfg_test (with_blocked (SIGCHLD :: blocked w) wa) = Ret tt w0 ∧
        blocked w0 = SIGCHLD :: blocked w ∧
        (weight w0 ≤ weight (with_blocked (SIGCHLD :: blocked w) wa))%nat ∧
        (weight w0 ≤ weight w)%nat.
Proof.
  rewrite waitfg_enter_unfold.
  pose proof (arrive_blocked at_waitfg_block w) as Hb.
  pose proof (weight_arrive at_waitfg_block w) as Hw.
  destruct (Async.arrive at_waitfg_block w) as [[] wa| | | |]; try done.
  simpl in Hb, Hw. rewrite Hb. intros H.
  pose proof (arrive_blocked at_waitfg_test (with_blocked (SIGCHLD :: blocked w) wa)) as Hb0.
  pose proof (weight_arrive at_waitfg_test (with_blocked (SIGCHLD :: blocked w) wa)) as Hw0.
  rewrite H in Hb0, Hw0. simpl in Hb0, Hw0.
  exists wa. repeat split; try done.
  assert (weight (with_blocked (SIGCHLD :: blocked w) wa) = weight wa) by done. lia.
Qed.

Lemma async_demoting_enter : demoting waitfg_enter.
Proof.
  intros js. apply waitfg_enter_keeps; simpl; auto using demotes_stop, demotes_delete.
Qed.

Lemma async_demoting_turns (n : nat) (m : sigset) : demoting (turns n m).
Proof.
  intros js. apply turns_keeps; simpl; auto using demotes_stop, demotes_delete.
Qed.

Lemma async_demoting_leave (m : sigset) : demoting (waitfg_leave m).
Proof.
  intros js. apply waitfg_leave_keeps; simpl; auto using demotes_stop, demotes_delete.
Qed.

Lemma turns_blocked (n : nat) (m : sigset) (w : world) :
  blocked (final (turns n m w)) = blocked w.
Proof. by apply (turns_keeps (λ v, blocked v = blocked w)). Qed.

Lemma waitfg_leave_blocked (m : sigset) (w w' : world) :
  waitfg_leave m w = Ret tt w' → blocked w' = m.
Proof.
  unfold waitfg_leave, Async.sigprocmask_setmask. intros H.
  apply bind_Ret_inv in H as ([] & w1 & _ & H).
  apply bind_Ret_inv in H as ([] & w2 & [= <-] & H).
  pose proof (release_keeps (λ v, blocked v = m)) as Hk.
  specialize (Hk ltac:(done) ltac:(done) ltac:(done) ltac:(done) ltac:(done) ltac:(done)
                m (with_blocked m w1) eq_refl).
  apply bind_Ret_inv in H as (b & w3 & H3 & [= <-]).
  by rewrite H3 in Hk.
Qed.

(** Demotions do not bring a job to the front. *)
Lemma fgpid_demoted (js js' : list job_t) (p : Z) :
  demotes js js' → (fg_count js ≤ 1)%nat → p ≠ 0 → fgpid js ≠ p → fgpid js' ≠ p.
Proof.
  intros Hd Hc Hp Hne E. apply Hne. unfold fgpid in E |- *.
  destruct (list_find _ js') as [[i y]|] eqn:Hf'; [| done].
  apply list_find_Some in Hf' as (Hi' & Hy & _).
  unfold demotes in Hd. rewrite Forall2_lookup in Hd. specialize (Hd i).
  rewrite Hi' in Hd. inversion Hd as [x y' Hxy Hi Ey|]; subst y'.
  assert (y = x) as -> by auto. symmetry in Hi.
  destruct (list_find _ js) as [[k z]|] eqn:Hf.
  - apply list_find_Some in Hf as (Hk & Hz & _).
    assert (k = i) as -> by (by eapply fg_count_unique).
    rewrite Hi in Hk. by simplify_eq.
  - apply list_find_None in Hf. rewrite Forall_lookup in Hf. by destruct (Hf _ _ Hi).
Qed.

(** [waitfg] returns exactly at the first test that fails. *)
Lemma async_waitfg_returns (p : Z) (w w' : world) :
  Async.waitfg p w = Ret tt w' ↔
  ∃ w0 n w1, waitfg_enter w = Ret tt w0 ∧ released p (blocked w) w0 n w1 ∧
             waitfg_leave (blocked w) w1 = Ret tt w'.
Proof.
  rewrite async_waitfg_unfold. split.
  - destruct (Async.arrive at_waitfg_block w) as [[] wa| | | |] eqn:E1; try done.
    cbv zeta.
    destruct (Async.arrive at_waitfg_test _) as [[] w0| | | |] eqn:E2; try done.
    assert (He : waitfg_enter w = Ret tt w0)
      by (by rewrite waitfg_enter_unfold, E1, E2).
    destruct (waitfg_enter_spec _ _ He) as (x & Hx & Hb & _).
    rewrite E1 in Hx. injection Hx as <-. rewrite Hb.
    destruct (after_test _ p (blocked w) w0) as [[] w1| | | |] eqn:Ea; try done.
    intros Hl. apply after_test_sound in Ea as [n Hn]. by exists w0, n, w1.
  - intros (w0 & n & w1 & He & Hn & Hl).
    apply waitfg_enter_spec in He as (wa & Ha & Hb & Ht & _ & Hw & _).
    rewrite Ha. cbv zeta. rewrite Hb, Ht.
    by rewrite (after_test_complete n _ p (blocked w) w0 w1).
Qed.

(** Every turn uses up a signal, and the turns run with SIGCHLD blocked. *)
Lemma async_waitfg_turns (p : Z) (w w0 w1 : world) (n : nat) :
  waitfg_enter w = Ret tt w0 → released p (blocked w) w0 n w1 →
  (n + weight w1 ≤ weight w)%nat ∧
  blocked w0 = SIGCHLD :: blocked w ∧ blocked w1 = SIGCHLD :: blocked w.
Proof.
  intros He (Hn & _).
  apply waitfg_enter_spec in He as (wa & _ & _ & _ & Hb0 & _ & Hw).
  pose proof (weight_turns _ _ _ _ Hn) as Ht.
  pose proof (turns_blocked n (blocked w) w0) as Hb1. rewrite Hn in Hb1. simpl in Hb1.
  split; [lia |]. split; [done | congruence].
Qed.

Lemma async_waitfg_mask (p : Z) (w w' : world) :
  Async.waitfg p w = Ret tt w' → blocked w' = blocked w.
Proof.
  intros H. apply async_waitfg_returns in H as (w0 & n & w1 & _ & _ & Hl).
  by apply waitfg_leave_blocked in Hl.
Qed.

Lemma async_waitfg_left (p : Z) (w w' : world) :
  p ≠ 0 → (fg_count (jobs w) ≤ 1)%nat →
  Async.waitfg p w = Ret tt w' → fgpid (jobs w') ≠ p.
Proof.
  intros Hp Hc H.
  apply async_waitfg_returns in H as (w0 & n & w1 & He & (Hn & Hne & _) & Hl).
  pose proof (demoting_final _ w async_demoting_enter) as D0.
  rewrite He in D0. simpl in D0.
  pose proof (demoting_final _ w0 (async_demoting_turns n (blocked w))) as D1.
  rewrite Hn in D1. simpl in D1.
  pose proof (demoting_final _ w1 (async_demoting_leave (blocked w))) as D2.
  rewrite Hl in D2. simpl in D2.
  apply (fgpid_demoted (jobs w1)); try done.
  pose proof (demotes_fg_count _ _ D0). pose proof (demotes_fg_count _ _ D1). lia.
Qed.

(** No wake-up is lost between a test and the suspension after it. *)
Lemma async_waitfg_asleep (p : Z) (w w' : world) :
  no_stop_before_sleep w →
  Async.waitfg p w = Blocked w' → fgpid (jobs w') = p ∧ wakeups w' = [].
Proof.
  intros Hno. rewrite async_waitfg_unfold.
  pose proof (waitfg_enter_spec w) as He. rewrite waitfg_enter_unfold in He.
  pose proof (arrive_nonblocking at_waitfg_block w) as Hn1.
  pose proof (arrive_keeps no_stop_before_sleep) as Hk.
  specialize (Hk ltac:(done) ltac:(done) ltac:(done) ltac:(done) ltac:(done)
                ltac:(done) no_stop_tail).
  pose proof (Hk at_waitfg_block w Hno) as Hno1.
  destruct (Async.arrive at_waitfg_block w) as [[] wa| | | |]; try done;
    [| exfalso; by eapply Hn1].
  cbv zeta. simpl in Hno1.
  pose proof (arrive_nonblocking at_waitfg_test
                (with_blocked (SIGCHLD :: blocked wa) wa)) as Hn2.
  pose proof (Hk at_waitfg_test (with_blocked (SIGCHLD :: blocked wa) wa) Hno1) as Hno2.
  destruct (Async.arrive at_waitfg_test _) as [[] w0| | | |]; try done;
    [| exfalso; by eapply Hn2].
  destruct (He w0 eq_refl) as (? & [= <-] & Hb & _ & Hb0 & Hw & _). simpl in Hno2.
  destruct (after_test _ p (blocked wa) w0) as [[] w1| | | |] eqn:Ea; try done.
  - intros Hl. by destruct (waitfg_leave_nonblocking _ _ _ Hl).
  - intros [= <-]. rewrite <- Hb in Hw, Hb0.
    eapply after_test_asleep; [exact Hw | | exact Hno2 | exact Ea].
    rewrite Hb0. by left.
Qed.

(** C5.  [waitfg(pid)] with signals landing anywhere between its
    statements.  After SIGCHLD is added to the mask the loop tests
    [fgpid(jobs) == pid]; every turn is one call of [sigsuspend] on the
    mask of the caller, followed by a new test.  The call returns exactly
    when, after some number [n] of such turns, the test fails for the first
    time, and what it does then is to put the caller's mask back.  Every
    turn uses up a signal that was delivered, so there is no turn without
    one; the tests and suspensions run with SIGCHLD blocked, and on return
    the mask is the caller's.  If no other job is in the foreground, [pid]
    is not what [fgpid] returns when the call returns.  A SIGCHLD that lands
    between a test and the suspension that follows it is held until the
    suspension lets it in: unless a ctrl-z lands there, the shell is left
    asleep for ever only with the job still in the foreground, and with
    nothing more to arrive. *)
Theorem waitfg_no_lost_wakeup (p : Z) (w : world) :
  (∀ w', Async.waitfg p w = Ret tt w' ↔
         ∃ w0 n w1, waitfg_enter w = Ret tt w0 ∧ released p (blocked w) w0 n w1 ∧
                    waitfg_leave (blocked w) w1 = Ret tt w') ∧
  (∀ w0 n w1, waitfg_enter w = Ret tt w0 → released p (blocked w) w0 n w1 →
              (n + weight w1 ≤ weight w)%nat ∧
              blocked w0 = SIGCHLD :: blocked w ∧ blocked w1 = SIGCHLD :: blocked w) ∧
  (∀ w', Async.waitfg p w = Ret tt w' → blocked w' = blocked w) ∧
  (p ≠ 0 → (fg_count (jobs w) ≤ 1)%nat →
   ∀ w', Async.waitfg p w = Ret tt w' → fgpid (jobs w') ≠ p) ∧
  (no_stop_before_sleep w →
   ∀ w', Async.waitfg p w = Blocked w' → fgpid (jobs w') = p ∧ wakeups w' = []).
Proof.
  split; [intros w'; apply async_waitfg_returns |].
  split; [intros w0 n w1; apply async_waitfg_turns |].
  split; [intros w'; apply async_waitfg_mask |].
  split; [intros Hp Hc w'; by apply async_waitfg_left |].
  intros Hno w'. by apply async_waitfg_asleep.
Qed.

(** *** [bg] and [fg] when no signal lands in [do_bgfg] itself *)







(** * Further properties of the code *)

(** ** The job list: add, delete and the lookups *)

Lemma emits_app (a b : list event) (w : world) :
  emits (a ++ b) w = emits b (emits a w).
Proof. unfold emits. by rewrite foldl_app. Qed.

Lemma emits_cons (e : event) (es : list event) (w : world) :
  emits (e :: es) w = emits es (emit e w).
Proof. done. Qed.

Lemma path_emits (es : list event) (w : world) : path (emits es w) = path w.
Proof.
  revert w. induction es as [|e es IH]; intros w; [done |]. by rewrite emits_cons, IH.
Qed.

(** The slot a search returns depends only on which entries pass the test. *)
Lemma find_slot_ext {A} (P : A → Prop) `{∀ x, Decision (P x)} (l l' : list A) :
  Forall2 (λ x y, P x ↔ P y) l l' →
  fst <$> list_find P l = fst <$> list_find P l'.
Proof.
  induction 1 as [|x y l l' Hxy _ IH]; [done |]. simpl.
  destruct (decide (P x)) as [Hx | Hx], (decide (P y)) as [Hy | Hy];
    try tauto; try done.
  rewrite <- !option_fmap_compose.
  change (fst ∘ prod_map S id) with (S ∘ (fst : nat * A → nat)).
  rewrite !option_fmap_compose. by rewrite IH.
Qed.

Lemma getjobpid_ext (js js' : list job_t) (q : Z) :
  (1 ≤ q → Forall2 (λ x y, pid x = q ↔ pid y = q) js js') →
  getjobpid js q = getjobpid js' q.
Proof.
  intros H. unfold getjobpid. case_decide; [done |]. apply find_slot_ext, H. lia.
Qed.

Lemma Forall2_insert_same {A} (R : A → A → Prop) (l : list A) (k : nat) (x y : A) :
  (∀ a, R a a) → l !! k = Some x → R x y → Forall2 R l (<[k := y]> l).
Proof.
  intros Hr. revert k. induction l as [|a l IH]; intros [|k] Hk Hxy; simplify_eq/=.
  - constructor; [done |]. by apply Forall_Forall2_diag, Forall_true.
  - constructor; [done |]. by apply IH.
Qed.

Lemma Forall2_alter_same {A} (R : A → A → Prop) (f : A → A) (l : list A) (k : nat) :
  (∀ a, R a a) → (∀ x, l !! k = Some x → R x (f x)) → Forall2 R l (alter f k l).
Proof.
  intros Hr. revert k. induction l as [|a l IH]; intros [|k] Hk; simpl.
  - constructor.
  - constructor.
  - constructor; [by apply Hk |]. by apply Forall_Forall2_diag, Forall_true.
  - constructor; [done |]. by apply IH.
Qed.

Lemma taken_of_initjobs (js : list job_t) (t : list bool) :
  foldl mark_taken (Some t) (initjobs js) = Some t.
Proof. induction js as [|j js IH]; [done | exact IH]. Qed.

(** X1.  [initjobs] leaves a list of MAXJOBS slots well formed and empty:
    no job is live, no lookup by pid or by jid finds anything, no job is
    in the foreground, and the first job to be added will get jid 1. *)
Theorem initjobs_empties (js : list job_t) (p i : Z) :
  length js = MAXJOBS →
  wf_jobs (initjobs js) ∧ live_count (initjobs js) = 0%nat ∧
  getjobpid (initjobs js) p = None ∧ getjobjid (initjobs js) i = None ∧
  pid2jid (initjobs js) p = 0 ∧ fgpid (initjobs js) = 0 ∧
  freejid (initjobs js) = Some 1.
Proof.
  intros Hl.
  assert (Hall : ∀ j, j ∈ initjobs js → j = mkjob 0 0 UNDEF "").
  { intros j Hj. unfold initjobs in Hj.
    by apply list_elem_of_fmap in Hj as (? & -> & _). }
  split; [by apply initjobs_wf |]. split; [| split; [| split; [| split; [| split]]]].
  - unfold live_count, initjobs. clear. induction js as [|j js IH]; [done |].
    rewrite fmap_cons, filter_cons_False; [done |]. intros Hlive. by apply Hlive.
  - apply getjobpid_None. destruct (decide (p < 1)); [by left | right].
    intros j Hj. rewrite (Hall j Hj). simpl. lia.
  - unfold getjobjid. case_decide; [done |]. apply fmap_None, list_find_None.
    apply Forall_forall. intros j Hj. rewrite (Hall j Hj). simpl. lia.
  - unfold pid2jid. case_decide; [done |].
    destruct (list_find _ _) as [[k j]|] eqn:E; [| done].
    apply list_find_Some in E as (Hk & _). apply list_elem_of_lookup_2 in Hk.
    by rewrite (Hall j Hk).
  - apply fgpid_none, initjobs_no_fg.
  - unfold freejid, taken_of. by rewrite taken_of_initjobs.
Qed.

Lemma not_full_room (js : list job_t) :
  ¬ table_full js → (live_count js < length js)%nat.
Proof.
  intros Hnf. unfold table_full in Hnf. apply not_Forall_Exists in Hnf; [| apply _].
  apply Exists_exists in Hnf as (j & Hj & Hnl). by eapply length_filter_lt.
Qed.

(** X2.  On a well-formed list [addjob] always returns, with 1 or with 0:
    with 1 exactly when the pid is positive and some slot is free; when it
    returns 0 the job list is the one it was given. *)
Theorem addjob_succeeds_iff (w : world) (p st : Z) (cmd : string) :
  wf_jobs (jobs w) →
  ∃ r w', addjob p st cmd w = Ret r w' ∧
          (r = 1 ↔ 1 ≤ p ∧ ¬ table_full (jobs w)) ∧
          (r = 1 ∨ r = 0 ∧ jobs w' = jobs w).
Proof.
  intros Hwf. destruct (decide (p < 1)) as [Hp | Hp].
  { exists 0, w. rewrite addjob_unfold, decide_True by done.
    split; [done |]. split; [| by right]. split; [done | lia]. }
  destruct (decide (table_full (jobs w))) as [Hfull | Hroom].
  { exists 0, (emit full_note w). rewrite addjob_unfold, decide_False by done.
    rewrite full_freejid by done. simpl.
    split; [done |]. split; [| by right]. split; [done | tauto]. }
  apply not_full_room in Hroom as Hlt. rewrite (wf_len _ Hwf) in Hlt.
  destruct (addjob_room w p st cmd Hwf Hlt) as (k & f & j0 & _ & _ & _ & _ & ->);
    [lia |].
  eexists 1, _. split; [done |]. split; [| by left]. split; [| done].
  intros _. split; [lia | done].
Qed.

(** What a successful [addjob] has done. *)
Lemma addjob_Ret1 (w w' : world) (p st : Z) (cmd : string) :
  addjob p st cmd w = Ret 1 w' →
  1 ≤ p ∧ ∃ f k, freejid (jobs w) = Some f ∧ f ≠ 0 ∧ free_slot (jobs w) = Some k ∧
                 jobs w' = <[k := mkjob p f st cmd]> (jobs w).
Proof.
  rewrite addjob_unfold. case_decide; [done |].
  destruct (freejid (jobs w)) as [f|]; [| done]. case_decide; [done |].
  destruct (free_slot (jobs w)) as [k|]; [| done]. intros E.
  split; [lia |]. exists f, k. split; [done |]. split; [done |]. split; [done |].
  injection E as <-. by destruct (verbose w).
Qed.

(** X3.  After a successful [addjob] of a pid no job has yet, the lookups
    find the new job: [getjobpid] returns its slot, which holds the pid, the
    state and the command line given; [pid2jid] returns its jid and
    [getjobjid] on that jid returns the same slot.  The lookups of every
    other pid are as before, and the list holds one live job more. *)
Theorem addjob_then_lookup (w w' : world) (p st : Z) (cmd : string) :
  wf_jobs (jobs w) → st = FG ∨ st = BG → (∀ j, j ∈ jobs w → pid j ≠ p) →
  addjob p st cmd w = Ret 1 w' →
  ∃ k j, getjobpid (jobs w') p = Some k ∧ jobs w' !! k = Some j ∧
         pid j = p ∧ state j = st ∧ cmdline j = cmd ∧
         pid2jid (jobs w') p = jid j ∧ getjobjid (jobs w') (jid j) = Some k ∧
         (∀ q, q ≠ p → getjobpid (jobs w') q = getjobpid (jobs w) q) ∧
         live_count (jobs w') = S (live_count (jobs w)).
Proof.
  intros Hwf Hst Hfresh Hadd.
  assert (Hwf' : wf_jobs (jobs w')) by (apply (wf_addjob w w' p st cmd); tauto).
  apply addjob_Ret1 in Hadd as (Hp & f & k & Hf & Hf0 & Hk & E).
  apply free_slot_Some in Hk as (j0 & Hk & Hj0 & _).
  assert (Hlt : (k < length (jobs w))%nat) by (by eapply lookup_lt_Some).
  set (nj := mkjob p f st cmd) in *.
  assert (Hnj : jobs w' !! k = Some nj) by (rewrite E; by apply list_lookup_insert_eq).
  assert (Hlive : live nj) by (unfold live; simpl; lia).
  assert (Hg : getjobpid (jobs w') p = Some k).
  { rewrite E. by apply (getjobpid_insert_fresh (jobs w) k nj). }
  exists k, nj. repeat split; try done.
  - unfold pid2jid, getjobpid in *. case_decide; [done |].
    destruct (list_find _ _) as [[i y]|] eqn:Ef; [| done]. simpl in Hg. simplify_eq.
    apply list_find_Some in Ef as (Hy & _). by simplify_eq.
  - by apply (getjobjid_live _ _ nj).
  - intros q Hq. rewrite E. symmetry. apply getjobpid_ext. intros Hq1.
    apply (Forall2_insert_same _ _ _ j0); [done | done |]. simpl. split; intros; lia.
  - rewrite E. by apply (live_count_insert _ _ j0).
Qed.

Lemma live_count_clear (js : list job_t) (k : nat) (j : job_t) :
  js !! k = Some j → live j →
  S (live_count (alter clearjob k js)) = live_count js.
Proof.
  unfold live_count. revert k. induction js as [|a js IH]; intros [|k] Hk Hl;
    simplify_eq/=.
  - rewrite (filter_cons_True live j) by done.
    by rewrite (filter_cons_False live (clearjob j)) by (intros H; by apply H).
  - rewrite !filter_cons. case_decide; simpl; by rewrite <- (IH k).
Qed.

(** X4.  [deletejob] on the pid of a job of a well-formed list returns 1
    and clears the slot of that job and no other: the list stays well
    formed, the pid is found no more, the lookups of every other pid are as
    before, and the list holds one live job less.  On a pid no job has it
    returns 0 and changes nothing. *)
Theorem deletejob_removes (w : world) (p : Z) :
  wf_jobs (jobs w) →
  (∀ k, getjobpid (jobs w) p = Some k →
     let js' := alter clearjob k (jobs w) in
     deletejob p w = Ret 1 (with_jobs (alter clearjob k) w) ∧
     wf_jobs js' ∧ getjobpid js' p = None ∧ pid2jid js' p = 0 ∧
     (∀ q, q ≠ p → getjobpid js' q = getjobpid (jobs w) q) ∧
     S (live_count js') = live_count (jobs w)) ∧
  (getjobpid (jobs w) p = None → deletejob p w = Ret 0 w).
Proof.
  intros Hwf. split.
  - intros k Hg js'. pose proof Hg as Hg'.
    apply getjobpid_Some in Hg' as (Hp & j & Hk & Ej & _).
    assert (Hl : live j) by (unfold live; lia).
    assert (Hnone : getjobpid js' p = None).
    { apply getjobpid_None. right. intros y Hy Ey.
      apply list_elem_of_lookup in Hy as [i Hi]. unfold js' in Hi.
      rewrite list_lookup_alter in Hi. case_decide as D.
      - rewrite Hk in Hi. simplify_eq/=. lia.
      - assert (i = k); [| done].
        eapply (wf_pids _ Hwf); [done | done | unfold live; lia | done | congruence]. }
    split; [| split; [| split; [| split; [| split]]]].
    + rewrite deletejob_unfold, deletejob_tbl_getjobpid, Hg. done.
    + by apply wf_clear.
    + done.
    + unfold pid2jid, getjobpid in *. case_decide; [done |].
      by destruct (list_find _ js') as [[]|].
    + intros q Hq. symmetry. apply getjobpid_ext. intros Hq1.
      apply Forall2_alter_same; [done |]. intros x Hx. simplify_eq. simpl.
      split; intros; lia.
    + by apply (live_count_clear _ _ j).
  - intros Hg. rewrite deletejob_unfold, deletejob_tbl_getjobpid, Hg. simpl.
    by destruct w.
Qed.

(** X5.  Adding a job and deleting it again gives the job list back, on a
    well-formed list whose free slots hold an empty command line (as
    [clearjob] leaves them). *)
Theorem add_then_delete_restores (w w1 : world) (p st : Z) (cmd : string) :
  wf_jobs (jobs w) → (∀ j, j ∈ jobs w → pid j ≠ p) →
  (∀ j, j ∈ jobs w → pid j = 0 → cmdline j = "") →
  addjob p st cmd w = Ret 1 w1 →
  ∃ w2, deletejob p w1 = Ret 1 w2 ∧ jobs w2 = jobs w.
Proof.
  intros Hwf Hfresh Hclr Hadd.
  apply addjob_Ret1 in Hadd as (Hp & f & k & Hf & Hf0 & Hk & E).
  apply free_slot_Some in Hk as (j0 & Hk & Hj0 & _).
  assert (Hlt : (k < length (jobs w))%nat) by (by eapply lookup_lt_Some).
  assert (Hg : getjobpid (jobs w1) p = Some k).
  { rewrite E. by apply (getjobpid_insert_fresh (jobs w) k (mkjob p f st cmd)). }
  eexists. rewrite deletejob_unfold, deletejob_tbl_getjobpid, Hg. split; [done |].
  simpl. rewrite E. apply list_eq. intros i.
  rewrite list_lookup_alter. case_decide as D.
  - subst i. rewrite list_lookup_insert_eq, Hk by done. simpl. f_equal.
    destruct Hwf as [_ Hs _ _]. rewrite Forall_lookup in Hs.
    pose proof (Hclr j0 (list_elem_of_lookup_2 _ _ _ Hk) Hj0) as Hc.
    destruct (Hs _ _ Hk) as [(E1 & E2 & E3) | (? & _)]; [| lia].
    destruct j0; simpl in *. by subst.
  - by rewrite list_lookup_insert_ne.
Qed.

Lemma getjobjid_Some (js : list job_t) (i : Z) (k : nat) :
  getjobjid js i = Some k ↔
  1 ≤ i ∧ ∃ j, js !! k = Some j ∧ jid j = i ∧
               ∀ a y, js !! a = Some y → (a < k)%nat → jid y ≠ i.
Proof.
  unfold getjobjid. case_decide as Hp; [split; [done | lia] |]. split.
  - intros H. apply fmap_Some in H as ([a j] & H & ->).
    apply list_find_Some in H. split; [lia | by exists j].
  - intros (_ & j & H). apply fmap_Some. exists (k, j). split; [| done].
    by apply list_find_Some.
Qed.

(** X6.  On a well-formed list the three lookups name live jobs and agree:
    [getjobpid] returns slot [k] for [p] exactly when slot [k] holds a live
    job of pid [p], [getjobjid] returns [k] for [i] exactly when slot [k]
    holds a live job of jid [i], and [pid2jid] returns a jid other than 0
    for [p] exactly when a live job has that pid and that jid. *)
Theorem lookups_name_live_jobs (js : list job_t) :
  wf_jobs js →
  (∀ p k, getjobpid js p = Some k ↔ ∃ j, js !! k = Some j ∧ live j ∧ pid j = p) ∧
  (∀ i k, getjobjid js i = Some k ↔ ∃ j, js !! k = Some j ∧ live j ∧ jid j = i) ∧
  (∀ p i, i ≠ 0 →
     pid2jid js p = i ↔ ∃ k j, js !! k = Some j ∧ live j ∧ pid j = p ∧ jid j = i).
Proof.
  intros Hwf.
  assert (Hslot : ∀ k j, js !! k = Some j → slot_ok j).
  { destruct Hwf as [_ Hs _ _]. by rewrite Forall_lookup in Hs. }
  split; [| split].
  - intros p k. split.
    + intros H. apply getjobpid_Some in H as (Hp & j & Hk & E & _).
      exists j. unfold live. split; [done | split; [lia | done]].
    + intros (j & Hk & Hl & <-). by apply getjobpid_live.
  - intros i k. split.
    + intros H. apply getjobjid_Some in H as (Hi & j & Hk & E & _).
      exists j. split; [done |]. split; [| done]. unfold live.
      destruct (Hslot _ _ Hk) as [(_ & ? & _) | (? & _)]; lia.
    + intros (j & Hk & Hl & <-). by apply getjobjid_live.
  - intros p i Hi. unfold pid2jid. split.
    + case_decide as Hp; [done |].
      destruct (list_find _ js) as [[k j]|] eqn:E; [| done]. intros <-.
      apply list_find_Some in E as (Hk & Ep & _).
      exists k, j. unfold live. repeat split; try done. lia.
    + intros (k & j & Hk & Hl & Ep & Ej).
      pose proof (getjobpid_live _ _ _ Hwf Hk Hl) as Hg. rewrite Ep in Hg.
      unfold getjobpid in Hg. case_decide; [done |].
      destruct (list_find _ js) as [[k' j']|] eqn:E; [| done].
      simpl in Hg. simplify_eq. apply list_find_Some in E as (Hk' & _).
      by simplify_eq.
Qed.

Lemma fg_job_live (js : list job_t) (k : nat) (j : job_t) :
  wf_jobs js → js !! k = Some j → state j = FG → 1 ≤ pid j.
Proof.
  intros [_ Hs _ _] Hk Hst. rewrite Forall_lookup in Hs.
  destruct (Hs _ _ Hk) as [(_ & _ & E) | (? & _)]; [by rewrite Hst in E | done].
Qed.

Lemma fg_job_fgpid (js : list job_t) (k : nat) (j : job_t) :
  (fg_count js ≤ 1)%nat → js !! k = Some j → state j = FG → fgpid js = pid j.
Proof.
  intros Hc Hk Hst. unfold fgpid.
  destruct (list_find _ js) as [[k' j']|] eqn:E.
  - apply list_find_Some in E as (Hk' & Hst' & _).
    assert (k' = k) by (by eapply fg_count_unique). by simplify_eq.
  - apply list_find_None in E. rewrite Forall_lookup in E. by destruct (E _ _ Hk).
Qed.

(** X7.  On a well-formed list [fgpid] returns 0 exactly when no job is in
    the foreground; a pid it returns is the pid of a job in state FG; and
    with at most one job in the foreground it returns the pid of that job. *)
Theorem fgpid_names_foreground_job (js : list job_t) :
  wf_jobs js →
  (fgpid js = 0 ↔ no_fg js) ∧
  (∀ p, p ≠ 0 → fgpid js = p → ∃ k j, js !! k = Some j ∧ pid j = p ∧ state j = FG) ∧
  ((fg_count js ≤ 1)%nat →
   ∀ k j, js !! k = Some j → state j = FG → fgpid js = pid j).
Proof.
  intros Hwf. split; [| split].
  - split; [| apply fgpid_none]. unfold fgpid.
    destruct (list_find _ js) as [[k j]|] eqn:E.
    + apply list_find_Some in E as (Hk & Hst & _). intros E0.
      pose proof (fg_job_live _ _ _ Hwf Hk Hst). lia.
    + intros _. apply list_find_None in E. exact E.
  - intros p Hp. unfold fgpid.
    destruct (list_find _ js) as [[k j]|] eqn:E; [| done]. intros <-.
    apply list_find_Some in E as (Hk & Hst & _). by exists k, j.
  - intros Hc k j Hk Hst. by apply (fg_job_fgpid _ k).
Qed.

Lemma listjobs_from_spec (js : list job_t) (i : nat) (w : world) :
  Forall slot_ok js →
  listjobs_from i js w = Ret tt (emits (flat_map job_listing (filter live js)) w).
Proof.
  intros Hs. revert i w. induction Hs as [|j js Hj _ IH]; intros i w; [done |].
  simpl. rewrite filter_cons. unfold live at 1.
  destruct (decide (pid j ≠ 0)) as [Hl | Hl]; run; [| by rewrite IH].
  rewrite IH. simpl. do 3 f_equal. unfold state_word.
  destruct Hj as [(? & _) | (_ & _ & [E | [E | E]])]; [done | | |];
    rewrite E; by repeat case_decide.
Qed.

(** X8.  On a well-formed list [listjobs] prints, for every live job in
    the order of the slots and for nothing else, the ids, then one of
    [Running], [Foreground] and [Stopped] - never the internal-error text
    - then the command line; it changes nothing else. *)
Theorem listjobs_prints_live_jobs (w : world) :
  wf_jobs (jobs w) →
  listjobs w = Ret tt (emits (flat_map job_listing (filter live (jobs w))) w).
Proof. intros [_ Hs _ _]. unfold listjobs. run. by apply listjobs_from_spec. Qed.

(** ** The refusals of bg and fg, and the other transitions *)

Lemma getjobjid_None_unused (js : list job_t) (i : Z) :
  wf_jobs js → ¬ jid_in_use js i → getjobjid js i = None.
Proof.
  intros Hwf Hun. destruct (getjobjid js i) as [k|] eqn:E; [| done].
  exfalso. apply Hun. apply getjobjid_Some in E as (Hi & j & Hk & Ej & _).
  apply wf_jid_used; [done | done |]. exists j. split; [| done].
  by eapply list_elem_of_lookup_2.
Qed.

(** X9.  The four refusals of [do_bgfg]; each prints its message and does
    nothing else - no signal is sent and no job changes.  Without an
    argument: that the command requires one.  With an argument that
    [atoi] reads as 0 (after the [%], if it starts with one): that the
    argument must be a pid or a jid.  With [%n] and no live job of jid
    [n]: no such job.  With [n] and no job of pid [n]: no such process. *)
Theorem do_bgfg_refusals (w : world) (cmd id : string) (more : list string) :
  wf_jobs (jobs w) →
  let n := atoi (if Ascii.eqb (char0 id) "%" then from1 id else id) in
  let says (s : string) := do_bgfg (cmd :: id :: more) w = Ret tt (emit (EPrintf s) w) in
  do_bgfg [cmd] w
  = Ret tt (emit (EPrintf (cmd +:+ " command requires PID or %jid argument" +:+ NL)) w) ∧
  (n = 0 → says (cmd +:+ ": argument must be a PID or %jid" +:+ NL)) ∧
  (n ≠ 0 → char0 id = "%"%char → ¬ jid_in_use (jobs w) n →
   says ("%" +:+ fmt_d n +:+ ": No such job" +:+ NL)) ∧
  (n ≠ 0 → char0 id ≠ "%"%char → (∀ j, j ∈ jobs w → pid j ≠ n) →
   says ("(" +:+ fmt_d n +:+ "): No such process" +:+ NL)).
Proof.
  intros Hwf n says. split; [done |]. unfold says, do_bgfg, bgfg_target. simpl.
  subst n. destruct (Ascii.eqb (char0 id) "%") eqn:Eid.
  - split; [| split].
    + intros E. run. by rewrite E.
    + intros Hn _ Hun. run. rewrite decide_False by done.
      by rewrite getjobjid_None_unused.
    + intros _ Hc. apply Ascii.eqb_eq in Eid. done.
  - split; [| split].
    + intros E. run. by rewrite E.
    + intros _ Hc. apply Ascii.eqb_neq in Eid. done.
    + intros Hn _ Hun. run. rewrite decide_False by done.
      assert (getjobpid (jobs w) (atoi id) = None) as ->; [| done].
      apply getjobpid_None. by right.
Qed.

(** X10.  [fg] on a job that runs in the background: SIGCONT is sent to
    the process group of its pid, its state is set to FG and the built-in
    goes on as [waitfg] on its pid - which is then what [fgpid] returns -
    so that it returns only with no job left in the foreground. *)
Theorem fg_takes_background_job (w : world) (id : string) (more : list string)
    (k : nat) (j : job_t) :
  jobs w !! k = Some j → state j = BG → designates w "fg" id k →
  let w1 := with_jobs (alter (set_state FG) k) (emit (EKill (- pid j) SIGCONT) w) in
  do_bgfg ("fg" :: id :: more) w = waitfg (pid j) w1 ∧
  (idle w →
   fgpid (jobs w1) = pid j ∧
   ∀ w', do_bgfg ("fg" :: id :: more) w = Ret tt w' → no_fg (jobs w')).
Proof.
  intros Hk Hst Hd w1. split; [| intros Hidle; split].
  - unfold do_bgfg. simpl. unfold designates in Hd. run.
    rewrite Hd, Hk. rewrite decide_True by auto. done.
  - by apply fgpid_alter_fg.
  - intros w' E. pose proof (do_bgfg_hoare ("fg" :: id :: more) w Hidle) as H.
    by rewrite E in H.
Qed.

(** X11.  The ids [jobs] prints can be given back to [bg]: a stopped job of
    a well-formed list is resumed by [bg %jid] and by [bg pid] alike, with
    the jid and the pid written as [%d] prints them - the pid being one
    that a [pid_t] holds, for [atoi] reads an [int]. *)
Theorem bg_accepts_printed_ids (w : world) (k : nat) (j : job_t) :
  wf_jobs (jobs w) → jobs w !! k = Some j → state j = ST →
  let resumed := Ret tt (emit (bg_line j)
                           (with_jobs (alter (set_state BG) k)
                              (emit (EKill (- pid j) SIGCONT) w))) in
  do_bgfg ["bg"; "%" +:+ fmt_d (jid j)] w = resumed ∧
  (pid j ≤ INT_MAX → do_bgfg ["bg"; fmt_d (pid j)] w = resumed).
Proof.
  intros Hwf Hk Hst resumed.
  assert (Hl : live j).
  { destruct Hwf as [_ Hs _ _]. rewrite Forall_lookup in Hs. unfold live.
    destruct (Hs _ _ Hk) as [(_ & _ & E) | (? & _)]; [by rewrite Hst in E | lia]. }
  destruct (designates_canonical w "bg" k j Hwf Hk Hl) as [Hj Hp].
  unfold designates in Hj, Hp. unfold resumed, do_bgfg. simpl. run. split.
  - rewrite Hj, Hk. by rewrite decide_True.
  - intros Hmax. rewrite (Hp Hmax), Hk. by rewrite decide_True.
Qed.

(** ** parseline *)

Lemma app_cons (c : ascii) (a b : string) : String c a +:+ b = String c (a +:+ b).
Proof. done. Qed.

Lemma app_assoc_s (a b c : string) : (a +:+ b) +:+ c = a +:+ b +:+ c.
Proof. induction a as [|x a IH]; [done |]. by rewrite !app_cons, IH. Qed.

Lemma length_app_s (a b : string) :
  String.length (a +:+ b) = (String.length a + String.length b)%nat.
Proof. induction a as [|x a IH]; [done |]. rewrite app_cons. simpl. by rewrite IH. Qed.

Lemma blank_last_snoc (s : string) (c : ascii) :
  blank_last (s +:+ String c "") = s +:+ " ".
Proof.
  induction s as [|x s IH]; [done |]. rewrite !app_cons. simpl. rewrite IH.
  by destruct (s +:+ String c "") eqn:E; [destruct s |].
Qed.

Lemma skip_spaces_spaces (n : nat) (s : string) :
  skip_spaces (spaces n +:+ s) = skip_spaces s.
Proof.
  induction n as [|n IH]; [done |].
  change (spaces (S n) +:+ s) with (String " " (spaces n +:+ s)). by simpl.
Qed.

Lemma cut_at_found (c : ascii) (a b : string) :
  free_of c a → cut_at c (a +:+ String c b) = Some (a, b).
Proof.
  induction a as [|x a IH]; intros Hf.
  - change ("" +:+ String c b) with (String c b). simpl. by rewrite Ascii.eqb_refl.
  - destruct Hf as [Hx Hf]. rewrite app_cons. simpl.
    rewrite (proj2 (Ascii.eqb_neq _ _) Hx), IH by done. done.
Qed.

Lemma cut_at_free (c : ascii) (a : string) : free_of c a → cut_at c a = None.
Proof.
  induction a as [|x a IH]; intros Hf; [done |]. destruct Hf as [Hx Hf]. simpl.
  by rewrite (proj2 (Ascii.eqb_neq _ _) Hx), IH.
Qed.

Lemma free_of_app (c : ascii) (a b : string) :
  free_of c a → free_of c b → free_of c (a +:+ b).
Proof.
  induction a as [|x a IH]; intros Ha Hb; [done |]. destruct Ha. rewrite app_cons.
  split; [done |]. by apply IH.
Qed.

(** The loop of [parseline] on the rest of a line that holds the tokens
    [ts] and then a [tail] on which the loop ends; [after_plain] says that
    the blank ending a plain word has just been consumed. *)
Lemma parse_args_tokens (ts : list (nat * token)) :
  ∀ (fuel : nat) (after_plain : bool) (buf tail : string),
    well_spaced after_plain ts → (length ts ≤ fuel)%nat →
    next_delim (skip_spaces tail) = None →
    (ends_plain after_plain ts = true → ∃ tail', tail = String " " tail') →
    (if after_plain then String " " buf else buf) = typed_line ts +:+ tail →
    parse_args fuel buf = text ∘ snd <$> ts.
Proof.
  induction ts as [|[n t] r IH]; intros fuel ap buf tail Hws Hfuel Hhalt Hend Hbuf.
  - simpl in *. change ("" +:+ tail) with tail in Hbuf.
    assert (next_delim (skip_spaces buf) = None) as Hb.
    { destruct ap; [| by subst]. rewrite <- Hbuf in Hhalt. exact Hhalt. }
    destruct fuel; simpl; [done | by rewrite Hb].
  - destruct Hws as (Hn & Hok & Hws). destruct fuel as [|fuel]; [simpl in Hfuel; lia |].
    assert (∃ k, buf = spaces k +:+ typed t +:+ typed_line r +:+ tail) as [k ->].
    { simpl in Hbuf. rewrite !app_assoc_s in Hbuf. destruct ap; [| by exists n].
      destruct n as [|n]; [by destruct Hn |]. exists n. simpl in Hbuf.
      rewrite app_cons in Hbuf. by simplify_eq. }
    simpl. rewrite skip_spaces_spaces. destruct t as [s | s]; simpl in *.
    + destruct Hok as (Hne & Hq & Hsp). destruct s as [|a s]; [done |].
      destruct Hsp as [Ha Hsp]. rewrite app_cons. simpl.
      rewrite (proj2 (Ascii.eqb_neq _ _) Ha). simpl in Hq. unfold next_delim.
      rewrite (proj2 (Ascii.eqb_neq _ _) Hq).
      assert (∃ X, typed_line r +:+ tail = String " " X) as [X HX].
      { destruct r as [|[m u] r].
        - destruct Hend as [tail' ->]; [done |]. by exists tail'.
        - destruct Hws as [Hm _]. destruct m as [|m]; [by destruct Hm |].
          simpl. rewrite app_cons. eauto. }
      rewrite HX. rewrite <- (app_cons a s).
      rewrite (cut_at_found " " (String a s) X) by done. simpl. f_equal.
      apply (IH fuel true X tail); [done | simpl in Hfuel; lia | done | done | done].
    + change ("" +:+ s +:+ "'") with (s +:+ "'"). rewrite app_assoc_s.
      change ("'" +:+ typed_line r +:+ tail) with (String "'" (typed_line r +:+ tail)).
      rewrite cut_at_found by done. simpl. f_equal.
      apply (IH fuel false _ tail); [done | simpl in Hfuel; lia | done | done | done].
Qed.

Lemma typed_line_length (ts : list (nat * token)) (ap : bool) :
  well_spaced ap ts → (length ts ≤ String.length (typed_line ts))%nat.
Proof.
  revert ap. induction ts as [|[n t] r IH]; intros ap Hws; [done |].
  destruct Hws as (_ & Hok & Hws). apply IH in Hws. simpl.
  rewrite !length_app_s.
  assert (1 ≤ String.length (typed t))%nat; [| lia].
  destruct t as [[|a s]|s]; simpl in *; [by destruct Hok | lia | lia].
Qed.

Lemma skip_spaces_blank (m : nat) : skip_spaces (spaces m +:+ " ") = "".
Proof. by rewrite skip_spaces_spaces. Qed.

(** X12.  [parseline] gives back the tokens of the line typed.  The line
    is any tokens - plain words and texts in single quotes, each after any
    number of blanks, one at least after a plain word - then any number of
    blanks and one last character, which [parseline] overwrites whatever it
    is (the newline, as a rule).  The result is the words and the quoted
    texts, quotes removed, in order.  The line fits the buffer of MAXLINE
    characters and the arguments the array of MAXARGS pointers. *)
Theorem parseline_round_trip (ts : list (nat * token)) (m : nat) (c : ascii) :
  well_spaced false ts →
  (length ts < MAXARGS)%nat →
  (String.length (typed_line ts +:+ spaces m +:+ String c "") < MAXLINE)%nat →
  parseline (typed_line ts +:+ spaces m +:+ String c "") = text ∘ snd <$> ts.
Proof.
  intros Hws _ _. unfold parseline.
  rewrite <- !app_assoc_s, blank_last_snoc, app_assoc_s.
  apply (parse_args_tokens ts _ false _ (spaces m +:+ " "));
    [done | | | | by rewrite ?app_assoc_s].
  - rewrite !length_app_s. apply typed_line_length in Hws. lia.
  - by rewrite skip_spaces_blank.
  - intros _. destruct m; [by exists "" |]. eexists. simpl. by rewrite app_cons.
Qed.

(** X13.  A quote that is opened and not closed ends the arguments:
    [parseline] returns the tokens before it and drops the rest of the
    line, without any message.  (The quote is set off by a blank from a
    plain word before it; otherwise it is part of that word.) *)
Theorem parseline_unclosed_quote (ts : list (nat * token)) (m : nat) (q : string)
    (c : ascii) :
  well_spaced false ts → free_of "'" q → (ends_plain false ts = true → m ≠ 0%nat) →
  (length ts < MAXARGS)%nat →
  (String.length (typed_line ts +:+ spaces m +:+ "'" +:+ q +:+ String c "") < MAXLINE)%nat →
  parseline (typed_line ts +:+ spaces m +:+ "'" +:+ q +:+ String c "")
  = text ∘ snd <$> ts.
Proof.
  intros Hws Hq Hm _ _. unfold parseline.
  assert (typed_line ts +:+ spaces m +:+ "'" +:+ q +:+ String c ""
          = (typed_line ts +:+ spaces m +:+ "'" +:+ q) +:+ String c "") as ->.
  { by rewrite !app_assoc_s. }
  rewrite blank_last_snoc, !app_assoc_s.
  apply (parse_args_tokens ts _ false _ (spaces m +:+ "'" +:+ q +:+ " "));
    [done | | | | by rewrite ?app_assoc_s].
  - rewrite !length_app_s. apply typed_line_length in Hws. lia.
  - rewrite skip_spaces_spaces.
    change ("'" +:+ q +:+ " ") with (String "'" (q +:+ " ")). simpl.
    apply cut_at_free, free_of_app; [done |]. split; [done | done].
  - intros He. destruct m; [by destruct (Hm He) |]. simpl. rewrite app_cons. eauto.
Qed.

(** ** Stages, redirections and the two children *)

Lemma split_stages_cons (a : string) (rest : list string) :
  split_stages (a :: rest)
  = if decide (a = "|") then [] :: split_stages rest
    else match split_stages rest with
         | s :: ss => (a :: s) :: ss
         | [] => [[a]]
         end.
Proof. done. Qed.

Lemma split_stages_nonempty (argv : list string) : split_stages argv ≠ [].
Proof.
  induction argv as [|a r IH]; [done |]. rewrite split_stages_cons.
  case_decide; [done |]. by destruct (split_stages r).
Qed.

(** X14.  The split of [my_pipe] loses nothing: the stages joined by [|]
    are the argument list again, no stage holds a [|], there is one stage
    more than there are [|] in the list, and [has_piping] holds exactly
    when there are two stages at least. *)
Theorem split_stages_round_trip (argv : list string) :
  join_stages (split_stages argv) = argv ∧
  Forall (λ s, "|" ∉ s) (split_stages argv) ∧
  length (split_stages argv) = S (length (filter (λ a, a = "|") argv)) ∧
  (has_piping argv = true ↔ (2 ≤ length (split_stages argv))%nat).
Proof.
  assert (H3 : length (split_stages argv) = S (length (filter (λ a, a = "|") argv))).
  { induction argv as [|a r IH]; [done |]. rewrite split_stages_cons, filter_cons.
    case_decide; simpl; [by rewrite IH |].
    pose proof (split_stages_nonempty r). by destruct (split_stages r). }
  split; [| split; [| split; [done |]]].
  - clear H3. induction argv as [|a r IH]; [done |]. rewrite split_stages_cons.
    pose proof (split_stages_nonempty r) as Hne.
    case_decide as Ha; [subst a; simpl |];
      (destruct (split_stages r) as [|s ss]; [done |]); simpl in *; by rewrite IH.
  - clear H3. induction argv as [|a r IH]; [repeat constructor; apply not_elem_of_nil |].
    rewrite split_stages_cons. case_decide as Ha.
    + constructor; [apply not_elem_of_nil | done].
    + pose proof (split_stages_nonempty r) as Hne.
      destruct (split_stages r) as [|s ss]; [done |].
      apply Forall_cons in IH as [Hs Hss]. constructor; [| done].
      intros Hin. apply elem_of_cons in Hin as [? | ?]; done.
  - rewrite H3. unfold has_piping. rewrite bool_decide_eq_true. split.
    + intros Hin.
      assert ("|" ∈ filter (λ a, a = "|") argv) as Hf by (by apply list_elem_of_filter).
      destruct (filter _ argv); [by apply elem_of_nil in Hf | simpl; lia].
    + intros Hlen. destruct (filter (λ a, a = "|") argv) as [|x l] eqn:E;
        [simpl in Hlen; lia |].
      assert (x ∈ filter (λ a, a = "|") argv) as Hx by (rewrite E; by left).
      apply list_elem_of_filter in Hx as [-> Hx]. done.
Qed.

Lemma setup_redirection_spec (args : list string) (w : world) :
  setup_redirection (Some <$> args) w
  = Ret (blank_redirects args) (emits (redirections args) w).
Proof.
  revert w. induction args as [|a r IH]; intros w; [done |].
  assert (mjoin (head (Some <$> r)) = head r) as Hh by (by destruct r).
  unfold blank_redirects, is_redirect in *. rewrite !fmap_cons.
  cbn [setup_redirection redirections]. rewrite Hh.
  case_decide as H1; [| case_decide as H2]; unfold mbind, M_bind, log, modify;
    rewrite IH; unfold mret, M_ret; simpl.
  - by rewrite decide_True by auto.
  - by rewrite decide_True by auto.
  - by rewrite decide_False by (by intros [? | ?]).
Qed.

Lemma args_of_blank (args : list string) :
  args_of (blank_redirects args) = before_redirect args.
Proof.
  induction args as [|a r IH]; [done |]. unfold blank_redirects in *.
  rewrite fmap_cons. cbn [args_of before_redirect]. case_decide; [done |].
  by rewrite IH.
Qed.

Lemma args_of_blank_stop (args : list string) (rest : list (option string)) :
  args_of (blank_redirects args ++ None :: rest) = before_redirect args.
Proof.
  induction args as [|a r IH]; [done |]. unfold blank_redirects in *.
  rewrite fmap_cons. cbn [args_of before_redirect app]. case_decide; [done |].
  by rewrite IH.
Qed.

(** X15.  [setup_redirection] on an argument list returns: it makes, in
    order, one redirection for every [<] (of standard input) and every [>]
    (of standard output), the file being the token after the operator or
    NULL if the operator is the last token; it puts NULL in the place of
    every operator and leaves the other entries alone.  What [execvp] will
    see of the list is therefore the arguments before the first operator. *)
Theorem setup_redirection_blanks_operators (args : list string) (w : world) :
  ∃ argv1, setup_redirection (Some <$> args) w = Ret argv1 (emits (redirections args) w) ∧
           length argv1 = length args ∧
           (∀ i a, args !! i = Some a →
                   argv1 !! i = Some (if decide (is_redirect a) then None else Some a)) ∧
           args_of argv1 = before_redirect args.
Proof.
  exists (blank_redirects args). split; [apply setup_redirection_spec |].
  split; [unfold blank_redirects; by rewrite length_fmap |]. split.
  - intros i a Hi. unfold blank_redirects. by rewrite list_lookup_fmap, Hi.
  - apply args_of_blank.
Qed.

Lemma last_blank (args : list string) :
  last (blank_redirects args)
  = (λ a, if decide (is_redirect a) then None else Some a) <$> last args.
Proof. unfold blank_redirects. by rewrite fmap_last. Qed.

Lemma execvp_found (prog : string) (argv : list (option string)) (w : world) :
  prog ∈ path w →
  execvp (Some prog) argv w = Gone (emit (EExecvp (Some prog) (args_of argv) true) w).
Proof. intros H. unfold execvp. run. by rewrite bool_decide_eq_true_2. Qed.

Lemma execvp_missing (prog : string) (argv : list (option string)) (w : world) :
  prog ∉ path w →
  execvp (Some prog) argv w
  = Ret (-1) (emit (EExecvp (Some prog) (args_of argv) false) w).
Proof. intros H. unfold execvp. run. by rewrite bool_decide_eq_false_2. Qed.

(** What the child of [eval] passes to [execvp]. *)
Lemma eval_child_argv (prog : string) (rest : list string) :
  ¬ is_redirect prog → prog ≠ "&" →
  (∀ a, last (prog :: rest) = Some a → ¬ is_redirect a) →
  ∃ a argv2,
    last (blank_redirects (prog :: rest)) = Some (Some a) ∧
    argv2 = (if decide (a = "&")
             then <[(length (blank_redirects (prog :: rest)) - 1)%nat := None]>
                    (blank_redirects (prog :: rest))
             else blank_redirects (prog :: rest)) ∧
    mjoin (head argv2) = Some prog ∧
    args_of argv2 = exec_args (prog :: rest).
Proof.
  intros Hprog Hamp Hlast. set (argv := prog :: rest) in *.
  destruct (last argv) as [a|] eqn:El; [| by apply last_None in El].
  pose proof (Hlast a eq_refl) as Ha.
  exists a, (if decide (a = "&")
             then <[(length (blank_redirects argv) - 1)%nat := None]> (blank_redirects argv)
             else blank_redirects argv).
  split; [by rewrite last_blank, El; simpl; rewrite decide_False |].
  split; [done |].
  assert (Hb0 : blank_redirects argv = Some prog :: blank_redirects rest).
  { unfold blank_redirects, argv. rewrite fmap_cons. by rewrite decide_False. }
  unfold exec_args, wants_bg. destruct (decide (a = "&")) as [-> | Hna].
  - rewrite bool_decide_eq_true_2 by done.
    apply last_Some in El as [body Eb]. rewrite Eb.
    assert (body ≠ []) as Hne.
    { intros ->. unfold argv in Eb. simpl in Eb. by simplify_eq. }
    assert (blank_redirects (body ++ ["&"]) = blank_redirects body ++ [Some "&"]) as Hbl.
    { unfold blank_redirects. by rewrite fmap_app. }
    rewrite Hbl, length_app. simpl.
    replace (length (blank_redirects body) + 1 - 1)%nat
      with (length (blank_redirects body) + 0)%nat by lia.
    rewrite insert_app_r. simpl.
    rewrite length_app. simpl. replace (length body + 1 - 1)%nat with (length body) by lia.
    rewrite take_app_length. split; [| apply args_of_blank_stop].
    destruct body as [|b body]; [done |]. unfold argv in Eb. simpl in Eb.
    injection Eb as -> _. unfold blank_redirects. rewrite fmap_cons. simpl.
    by rewrite decide_False.
  - rewrite bool_decide_eq_false_2 by (rewrite El; congruence).
    split; [by rewrite Hb0 | apply args_of_blank].
Qed.

(** X16.  The child of [eval], on a command whose first token is a
    program name and whose last token is no operator: it restores the
    mask, makes itself the leader of its own group, takes the default
    actions for SIGINT and SIGTSTP back and makes the redirections; then it
    is replaced by the program, run with the arguments before the first
    operator and without a closing [&], if [execvp] finds it; if not, it
    prints that the command was not found and calls [exit] with -1. *)
Theorem eval_child_runs (prog : string) (rest : list string) (m : sigset) (w : world) :
  ¬ is_redirect prog → prog ≠ "&" →
  (∀ a, last (prog :: rest) = Some a → ¬ is_redirect a) →
  let argv := prog :: rest in
  let w1 := emits (child_setup ++ redirections argv) (with_blocked m w) in
  (prog ∈ path w →
   eval_child argv m w = Gone (emit (EExecvp (Some prog) (exec_args argv) true) w1)) ∧
  (prog ∉ path w →
   eval_child argv m w
   = Exit (-1) (emit (EPrintf (prog +:+ ": Command not found" +:+ NL))
                  (emit (EExecvp (Some prog) (exec_args argv) false) w1))).
Proof.
  intros Hprog Hamp Hlast argv w1.
  destruct (eval_child_argv prog rest Hprog Hamp Hlast) as (a & argv2 & El & E2 & Hh & Ha).
  assert (Hstep : eval_child argv m w
                  = (err ← execvp (Some prog) argv2;
                     if decide (err < 0)
                     then printf (prog +:+ ": Command not found" +:+ NL);; exit err
                     else skip) w1).
  { unfold eval_child. run. rewrite (setup_redirection_spec argv). simpl.
    fold argv in El. rewrite El. rewrite <- E2, Hh. simpl.
    unfold w1. by rewrite emits_app. }
  rewrite Hstep. unfold mbind, M_bind. split; intros Hp.
  - rewrite execvp_found by (unfold w1; by rewrite path_emits). by rewrite Ha.
  - rewrite execvp_missing by (unfold w1; by rewrite path_emits). by rewrite Ha.
Qed.

(** X17.  A command that ends in [<] or [>] crashes the child of [eval]:
    [setup_redirection] has put NULL in the place of the operator, and the
    test for a closing [&] hands that NULL to [strcmp].  The redirections
    have been made by then; no program is run and nothing is printed. *)
Theorem eval_child_trailing_redirect_faults (argv : list string) (a : string)
    (m : sigset) (w : world) :
  last argv = Some a → is_redirect a →
  eval_child argv m w
  = Fault (emits (child_setup ++ redirections argv) (with_blocked m w)).
Proof.
  intros El Ha. unfold eval_child. run. rewrite (setup_redirection_spec argv). simpl.
  rewrite last_blank, El. simpl. by rewrite decide_True by done.
Qed.

Lemma setup_redirection_returns (argv : list (option string)) (w : world) :
  ∃ r w', setup_redirection argv w = Ret r w'.
Proof.
  revert w. induction argv as [|[a|] rest IH]; intros w; simpl;
    [by eexists _, _ | | by eexists _, _].
  repeat case_decide; run;
    [destruct (IH (emit (ERedirect STDIN_FILENO (mjoin (head rest))) w)) as (r & w' & ->)
    |destruct (IH (emit (ERedirect STDOUT_FILENO (mjoin (head rest))) w)) as (r & w' & ->)
    |destruct (IH w) as (r & w' & ->)]; by eexists _, _.
Qed.

(** X18.  The child of [eval] never comes back into the shell: whatever
    the command, it ends by being replaced by the program, by [exit] or in
    a crash; it neither returns to the caller nor sleeps. *)
Theorem eval_child_never_returns (argv : list string) (m : sigset) (w : world) :
  (∀ r w', eval_child argv m w ≠ Ret r w') ∧ (∀ w', eval_child argv m w ≠ Blocked w').
Proof.
  assert (H : match eval_child argv m w with
              | Ret _ _ | Blocked _ => False
              | _ => True
              end).
  { unfold eval_child. run.
    destruct (setup_redirection_returns (Some <$> argv)
                (emit (ESignal SIGTSTP SIG_DFL)
                   (emit (ESignal SIGINT SIG_DFL)
                      (emit (ESetpgid 0 0) (with_blocked m w))))) as (r & w' & E).
    change (list_fmap string (option string) Some argv) with (Some <$> argv).
    rewrite E. destruct (last r) as [[a|]|]; [| done | done].
    unfold execvp. run.
    destruct (mjoin (head _)) as [f|]; simpl; [| done].
    by destruct (bool_decide _). }
  split; intros; intros E; by rewrite E in H.
Qed.

(** X19.  The child of one stage of a pipeline, on a stage whose first
    token is a program name.  [my_pipe] writes no NULL after the tokens of
    a stage, so the row the child works on is the stage's tokens followed
    by what the stack held there before, up to its first NULL.  After the
    same first steps as the child of [eval], the child makes the
    redirections of the whole row; if one of the left-over pointers cannot
    be read, it crashes then.  Otherwise it takes its standard input from
    the pipe before it (if there is one) and gives its standard output to
    the pipe after it (unless it is the last stage), and is replaced by the
    program, run with the entries of the row before the first operator -
    a closing [&] and left-over strings among them.  If [execvp] does not
    find the program, the child reports the failure on the standard error
    and returns to its caller: unlike the child of [eval] it does not
    exit. *)
Theorem pipe_child_runs (prog : string) (rest : list string) (is_last : bool)
    (prev_fd wr : Z) (m : sigset) (w : world) :
  ¬ is_redirect prog →
  let left_over := default [] (head (stale w)) in
  let row := prog :: rest ++ strings_of left_over in
  let w1 := emits (child_setup ++ redirections row)
                  (with_stale (tail (stale w)) (with_blocked m w)) in
  let w2 := emits (pipe_ends is_last prev_fd wr) w1 in
  (readable left_over = false →
   pipe_child (prog :: rest) is_last prev_fd wr m w = Fault w1) ∧
  (readable left_over = true → prog ∈ path w →
   pipe_child (prog :: rest) is_last prev_fd wr m w
   = Gone (emit (EExecvp (Some prog) (before_redirect row) true) w2)) ∧
  (readable left_over = true → prog ∉ path w →
   pipe_child (prog :: rest) is_last prev_fd wr m w
   = Ret tt (emit (EStderr ("Failed to execute command: " +:+ prog +:+ NL))
               (emit (EExecvp (Some prog) (before_redirect row) false) w2))).
Proof.
  intros Hprog left_over row w1 w2.
  assert (Hstep : pipe_child (prog :: rest) is_last prev_fd wr m w
                  = if readable left_over
                    then (err ← execvp (Some prog) (blank_redirects row);
                          if decide (err = -1)
                          then log (EStderr ("Failed to execute command: "
                                             +:+ prog +:+ NL))
                          else skip) w2
                    else Fault w1).
  { unfold pipe_child. step. fold left_over.
    change (prog :: rest ++ strings_of left_over) with row.
    change (list_fmap string (option string) Some row) with (Some <$> row).
    rewrite (setup_redirection_spec row).
    change (emits (redirections row) _) with w1.
    destruct (readable left_over); [| done].
    assert (blank_redirects row
            = Some prog :: blank_redirects (rest ++ strings_of left_over)) as Hrow.
    { unfold row, blank_redirects. rewrite fmap_cons. by rewrite decide_False. }
    rewrite Hrow. simpl. rewrite (decide_False (P := is_redirect prog)) by done.
    unfold w2, pipe_ends. rewrite !emits_app.
    destruct (decide (prev_fd ≠ -1)), is_last; done. }
  rewrite Hstep. unfold mbind, M_bind.
  split; [by intros -> |]. split; intros -> Hp.
  - rewrite execvp_found by (unfold w2, w1; by rewrite !path_emits).
    by rewrite args_of_blank.
  - rewrite execvp_missing by (unfold w2, w1; by rewrite !path_emits).
    by rewrite args_of_blank.
Qed.

(** ** Signals that arrive while the shell waits *)

Lemma waitfg_unfold (p : Z) (w : world) :
  waitfg p w
  = (waitfg_loop (length (wakeups w)) p (blocked w);;
     sigprocmask_setmask (blocked w)) (with_blocked (SIGCHLD :: blocked w) w).
Proof. done. Qed.

Lemma waitfg_loop_turn (fuel : nat) (p : Z) (m : sigset) (w w1 : world) :
  fgpid (jobs w) = p → sigsuspend m w = Ret tt w1 →
  waitfg_loop (S fuel) p m w = waitfg_loop fuel p m w1.
Proof. intros Hfg Hs. simpl. run. by rewrite decide_True, Hs. Qed.

Lemma waitfg_loop_over (fuel : nat) (p : Z) (m : sigset) (w : world) :
  fgpid (jobs w) ≠ p → waitfg_loop fuel p m w = Ret tt w.
Proof. intros Hfg. destruct fuel; simpl; run; by rewrite decide_False. Qed.

(** A suspension ended by one signal whose handler runs and returns. *)
Lemma sigsuspend_handled (m : sigset) (d : delivery) (tape : list (list delivery))
    (h : M unit) (w w2 : world) :
  wakeups w = [d] :: tape → handler_of (d_sig d) = Some h → d_sig d ∉ m →
  h (with_children (children w ++ d_changed d)
       (with_wakeups tape (emit (ESigsuspend m) w))) = Ret tt w2 →
  sigsuspend m w = Ret tt w2.
Proof.
  intros Hw Hh Hm Hrun. unfold sigsuspend. run. rewrite Hw. simpl. run.
  unfold deliver. run. rewrite Hh. unfold sigismember.
  rewrite bool_decide_eq_false_2 by done. run. by rewrite Hrun.
Qed.

Lemma no_fg_without (js : list job_t) (k : nat) (j : job_t) (f : job_t → job_t) :
  (fg_count js ≤ 1)%nat → js !! k = Some j → state j = FG → state (f j) ≠ FG →
  no_fg (alter f k js).
Proof.
  intros Hc Hk Hst Hf. apply Forall_lookup. intros i y Hi Ey.
  rewrite list_lookup_alter in Hi. case_decide as D.
  - rewrite Hk in Hi. by simplify_eq/=.
  - assert (i = k); [| done]. symmetry. by eapply fg_count_unique.
Qed.


Lemma waitpid_some (p : Z) (st : wstatus) (rest : list (Z * wstatus)) (w : world) :
  children w = (p, st) :: rest →
  waitpid_nohang w = Ret (p, Some st) (emit (EWaitpid p) (with_children rest w)).
Proof. intros H. unfold waitpid_nohang. by rewrite H. Qed.

Lemma waitpid_none (w : world) :
  children w = [] → waitpid_nohang w = Ret (0, None) (emit (EWaitpid 0) w).
Proof. intros H. unfold waitpid_nohang. by rewrite H. Qed.

(** The handler with one changed child to reap. *)
Lemma sigchld_handler_one (p : Z) (st : wstatus) (w wa : world) :
  children w = [(p, st)] → 0 < p →
  reap_one p st (emit (EWaitpid p) (with_children [] w)) = Ret tt wa →
  children wa = [] →
  sigchld_handler w = Ret tt (emit (EWaitpid 0) wa).
Proof.
  intros Hc Hp Hr Ha. unfold sigchld_handler. step. rewrite Hc.
  cbn [sigchld_loop]. unfold mbind at 1, M_bind at 1.
  rewrite (waitpid_some p st [] w Hc). simpl. rewrite decide_True by done.
  unfold mbind at 1, M_bind at 1. rewrite Hr.
  unfold mbind, M_bind. by rewrite (waitpid_none wa Ha).
Qed.

(** X21.  ctrl-c while the shell waits for its foreground job, which dies
    of the signal: the first suspension ends when the handler has sent
    SIGINT to the group of the job - the job stays in the foreground and
    the shell suspends again; the second ends when the child-status handler
    has reaped the child, written the one-line notice and deleted the job.
    Then [waitfg] returns: the slot of the job is cleared, no job is in the
    foreground, and the mask is the one on entry. *)
Theorem ctrl_c_ends_foreground_job (w : world) (k : nat) (j : job_t) (sig : Z)
    (rest : list (list delivery)) :
  wf_jobs (jobs w) → (fg_count (jobs w) ≤ 1)%nat →
  jobs w !! k = Some j → state j = FG →
  SIGINT ∉ blocked w → SIGCHLD ∉ blocked w → children w = [] → writes_ok w →
  wakeups w = [mkdelivery SIGINT []]
              :: [mkdelivery SIGCHLD [(pid j, WSignaled sig)]] :: rest →
  ∃ w', waitfg (pid j) w = Ret tt w' ∧
        jobs w' = alter clearjob k (jobs w) ∧ no_fg (jobs w') ∧
        blocked w' = blocked w ∧ wakeups w' = rest ∧
        trace w' = trace w ++ [ESigsuspend (blocked w); EKill (- pid j) SIGINT;
                               ESigsuspend (blocked w); EWaitpid (pid j);
                               EWrite STDOUT_FILENO (terminated_msg j sig) true;
                               EWaitpid 0].
Proof.
  intros Hwf Hc Hk Hst Hint Hchld Hch Hok Hw.
  pose proof (fg_job_live _ _ _ Hwf Hk Hst) as Hp.
  pose proof (fg_job_fgpid _ _ _ Hc Hk Hst) as Hfg.
  assert (Hg : getjobpid (jobs w) (pid j) = Some k).
  { apply getjobpid_live; [done | done | unfold live; lia]. }
  assert (Hno : no_fg (alter clearjob k (jobs w))).
  { by apply (no_fg_without _ _ j). }
  set (m := blocked w).
  set (w0 := with_blocked (SIGCHLD :: blocked w) w).
  set (tape := [mkdelivery SIGCHLD [(pid j, WSignaled sig)]] :: rest).
  set (w1 := emit (EKill (- pid j) SIGINT)
               (with_children (children w0 ++ [])
                  (with_wakeups tape (emit (ESigsuspend m) w0)))).
  assert (Hs1 : sigsuspend m w0 = Ret tt w1).
  { apply (sigsuspend_handled _ (mkdelivery SIGINT []) tape sigint_handler);
      [done | done | done |].
    unfold sigint_handler. step. by rewrite Hfg, decide_True by lia. }
  assert (Hs2 : ∃ w3, sigsuspend m w1 = Ret tt w3 ∧
                      jobs w3 = alter clearjob k (jobs w) ∧ wakeups w3 = rest ∧
                      trace w3 = trace w1 ++ [ESigsuspend m; EWaitpid (pid j);
                                   EWrite STDOUT_FILENO (terminated_msg j sig) true;
                                   EWaitpid 0]).
  { set (W0 := with_children (children w1 ++ [(pid j, WSignaled sig)])
                 (with_wakeups rest (emit (ESigsuspend m) w1))).
    assert (∃ w3, sigchld_handler W0 = Ret tt w3 ∧
                  jobs w3 = alter clearjob k (jobs w) ∧ wakeups w3 = rest ∧
                  trace w3 = trace w1 ++ [ESigsuspend m; EWaitpid (pid j);
                               EWrite STDOUT_FILENO (terminated_msg j sig) true;
                               EWaitpid 0]) as (w3 & H3 & Hrest).
    { destruct (reap_one_spec (emit (EWaitpid (pid j)) (with_children [] W0))
                  (pid j) (WSignaled sig))
        as (w3 & Hr & Hj3 & Ht3 & Hc3 & Hw3 & Hok3);
        [done | intros _; simpl; by rewrite Hg |].
      exists (emit (EWaitpid 0) w3).
      split; [apply (sigchld_handler_one (pid j) (WSignaled sig));
              [unfold W0; simpl; by rewrite Hch | lia | done | done] |].
      simpl. rewrite Hj3, Hw3, Ht3. simpl.
      split; [| split; [done |]].
      - unfold status_effect. simpl. by rewrite deletejob_tbl_getjobpid, Hg.
      - unfold status_notice, job_of. simpl. rewrite Hg. simpl. rewrite Hk.
        by rewrite <- !app_assoc. }
    exists w3. split; [| done].
    by apply (sigsuspend_handled _ (mkdelivery SIGCHLD [(pid j, WSignaled sig)]) rest
                sigchld_handler). }
  destruct Hs2 as (w3 & Hs2 & Hj3 & Hw3 & Ht3).
  exists (with_blocked m w3).
  rewrite waitfg_unfold, Hw. simpl length. unfold mbind, M_bind.
  rewrite (waitfg_loop_turn _ _ _ w0 w1) by done.
  rewrite (waitfg_loop_turn _ _ _ w1 w3) by done.
  rewrite waitfg_loop_over by (rewrite Hj3, (fgpid_none _ Hno); lia).
  split; [done |]. simpl. rewrite Hj3, Hw3, Ht3. simpl.
  split; [done |]. split; [done |]. split; [done |]. split; [done |].
  by rewrite <- !app_assoc.
Qed.

(** X22.  Whatever signal arrives, under whatever mask and with whatever
    children reported, and however the handler ends - by returning, by
    [exit] or in a crash - the job list it leaves is well formed if the one
    it found was. *)
Theorem handlers_keep_well_formed (m : sigset) (d : delivery) (w : world) :
  wf_jobs (jobs w) → wf_jobs (jobs (final (deliver m d w))).
Proof.
  apply (deliver_keeps (λ v, wf_jobs (jobs v))); try done.
  - intros k j v Hk Hl Hv. simpl. apply wf_set_state; [by right; right | | done].
    intros j' Hj'. by simplify_eq.
  - intros p v Hv. simpl. rewrite deletejob_tbl_getjobpid.
    destruct (getjobpid (jobs v) p); [by apply wf_clear | done].
Qed.

(** ** eval, line by line *)

(** X23.  A line of blanks only (or of the newline alone) does nothing:
    [eval] returns with the world as it was - nothing forked, nothing
    printed, the mask untouched. *)
Theorem eval_blank_line (m : nat) (c : ascii) (w : world) :
  eval (spaces m +:+ String c "") w = Ret tt w.
Proof.
  assert (parseline (spaces m +:+ String c "") = []) as Hp.
  { unfold parseline. rewrite blank_last_snoc.
    apply (parse_args_tokens [] _ false _ (spaces m +:+ " "));
      [done | simpl; lia | by rewrite skip_spaces_blank | done | done]. }
  unfold eval. by rewrite Hp.
Qed.

(** X24.  [quit], whatever follows it on the line and whatever jobs there
    are, ends the shell by [exit(0)] at once: no job is signalled or waited
    for.  [jobs], whatever follows it, prints the list as [listjobs] does
    and returns. *)
Theorem eval_quit_and_jobs (cmd : string) (rest : list string) (w : world) :
  (parseline cmd = "quit" :: rest → eval cmd w = Exit 0 w) ∧
  (parseline cmd = "jobs" :: rest → wf_jobs (jobs w) →
   eval cmd w = Ret tt (emits (flat_map job_listing (filter live (jobs w))) w)).
Proof.
  split.
  - intros Hp. unfold eval. rewrite Hp. by rewrite decide_True by auto.
  - intros Hp [_ Hs _ _]. unfold eval. rewrite Hp. rewrite decide_True by auto.
    unfold builtin_cmd. simpl. unfold listjobs. step.
    by rewrite listjobs_from_spec.
Qed.

(** X25.  When the launch fails before a child exists, [eval] returns with
    SIGCHLD, SIGINT and SIGTSTP still blocked: the mask saved before the
    launch is not put back.  That is so when [fork] fails for a single
    command (after [Error forking] is printed), when [pipe] fails for the
    first stage of a pipeline (after [Piping error]) and when [fork] fails
    for that stage.  The job list is as it was. *)
Theorem launch_failure_leaves_signals_blocked (cmd argv0 : string)
    (rest : list string) (w : world) :
  parseline cmd = argv0 :: rest → ¬ is_builtin argv0 →
  (has_piping (argv0 :: rest) = false →
   ∀ r fk, forks w = r :: fk → r < 0 →
     eval cmd w = Ret tt (emit (EPrintf "Error forking")
                            (emit (EFork r)
                               (with_forks fk (with_blocked (mask3 ++ blocked w) w))))) ∧
  (has_piping (argv0 :: rest) = true →
   (∀ pk, pipes w = None :: pk →
      eval cmd w = Ret tt (emit (EPrintf "Piping error")
                             (emit (EPipe None)
                                (with_pipes pk (with_blocked (mask3 ++ blocked w) w))))) ∧
   (∀ fds pk r fk, pipes w = Some fds :: pk → forks w = r :: fk → r < 0 →
      eval cmd w = Ret tt (emit (EStderr "fork")
                             (emit (EFork r)
                                (with_forks fk
                                   (emit (EPipe (Some fds))
                                      (with_pipes pk
                                         (with_blocked (mask3 ++ blocked w) w)))))))).
Proof.
  intros Hp Hnb. unfold is_builtin in Hnb. split; [| split].
  - intros Hnp r fk Hf Hr. unfold eval. rewrite Hp, Hnp, decide_False by done.
    unfold fork. step. rewrite Hf. simpl. by rewrite decide_True by done.
  - intros pk Hpk. unfold eval. rewrite Hp, H, decide_False by done.
    unfold my_pipe. pose proof (split_stages_nonempty (argv0 :: rest)) as Hne.
    destruct (split_stages (argv0 :: rest)) as [|stage more]; [done |].
    cbn [pipe_loop]. unfold pipe. step. by rewrite Hpk.
  - intros [rd wr] pk r fk Hpk Hf Hr. unfold eval. rewrite Hp, H, decide_False by done.
    unfold my_pipe. pose proof (split_stages_nonempty (argv0 :: rest)) as Hne.
    destruct (split_stages (argv0 :: rest)) as [|stage more]; [done |].
    cbn [pipe_loop]. unfold pipe, fork. step. rewrite Hpk. simpl. rewrite Hf. simpl.
    rewrite decide_False by lia. by rewrite decide_True by done.
Qed.

(** X27.  A single command ending in [&], with room in a well-formed job
    list and [fork] returning a pid no job has: [eval] forks, puts the child
    in its own group, registers it in the first free slot as a background
    job whose command line is the whole line typed, prints the line
    [[jid] (pid) command line], puts the mask back and returns without
    waiting. *)
Theorem eval_background_launch (cmd argv0 : string) (rest : list string)
    (p : Z) (fk : list Z) (w : world) :
  parseline cmd = argv0 :: rest → ¬ is_builtin argv0 →
  has_piping (argv0 :: rest) = false → wants_bg (argv0 :: rest) = true →
  wf_jobs (jobs w) → ¬ table_full (jobs w) →
  forks w = p :: fk → 0 < p → (∀ j, j ∈ jobs w → pid j ≠ p) →
  ∃ k f w', eval cmd w = Ret tt w' ∧
            free_slot (jobs w) = Some k ∧ 1 ≤ f ≤ Z.of_nat MAXJOBS ∧
            jobs w' = <[k := mkjob p f BG cmd]> (jobs w) ∧
            blocked w' = blocked w ∧
            trace w' = trace w ++ launch_events p
                       ++ (if verbose w then [added_note f p cmd] else [])
                       ++ [bg_line (mkjob p f BG cmd)].
Proof.
  intros Hp Hnb Hnp Hbg Hwf Hroom Hf Hpos Hfresh. unfold is_builtin in Hnb.
  apply not_full_room in Hroom. rewrite (wf_len _ Hwf) in Hroom.
  unfold eval. rewrite Hp, Hnp, decide_False by done.
  unfold fork. step. rewrite Hf. simpl. rewrite !decide_False by lia.
  unfold register_job. rewrite Hbg. unfold mbind at 1, M_bind at 1.
  match goal with
  | |- context [addjob p BG cmd ?W] =>
      destruct (addjob_room W p BG cmd) as (k & f & j0 & Hk & Hj0 & E0 & Hfr & Ea);
        [done | done | lia |]; rewrite Ea; clear Ea
  end.
  simpl in Hk, Hj0.
  assert (Hlt : (k < length (jobs w))%nat) by (by eapply lookup_lt_Some).
  set (nj := mkjob p f BG cmd) in *.
  assert (Hget : getjobpid (<[k := nj]> (jobs w)) p = Some k).
  { apply (getjobpid_insert_fresh (jobs w) k nj); [done | simpl; lia | done]. }
  assert (Hjid : pid2jid (<[k := nj]> (jobs w)) p = f).
  { unfold pid2jid. unfold getjobpid in Hget. rewrite decide_False in Hget by lia.
    rewrite decide_False by lia.
    destruct (list_find _ _) as [[i y]|] eqn:Ef; [| done].
    simpl in Hget. simplify_eq. apply list_find_Some in Ef as (Hy & _).
    rewrite list_lookup_insert_eq in Hy by done. by simplify_eq. }
  exists k, f. step.
  destruct (verbose w); simpl; rewrite Hget, Hjid; simpl;
    rewrite list_lookup_insert_eq by done; simpl;
    (eexists; split; [done |]); simpl;
    (split; [done |]); (split; [done |]); (split; [done |]); (split; [done |]);
    unfold launch_events, bg_line; simpl; by rewrite <- !app_assoc.
Qed.

(** X28.  A single command without [&], with room in a well-formed job
    list that has no foreground job: [eval] forks, puts the child in its
    own group, registers it in the first free slot as the foreground job,
    puts the mask back and goes on as [waitfg] on the child's pid - which
    is then what [fgpid] returns. *)
Theorem eval_foreground_launch (cmd argv0 : string) (rest : list string)
    (p : Z) (fk : list Z) (w : world) :
  parseline cmd = argv0 :: rest → ¬ is_builtin argv0 →
  has_piping (argv0 :: rest) = false → wants_bg (argv0 :: rest) = false →
  wf_jobs (jobs w) → ¬ table_full (jobs w) → no_fg (jobs w) →
  forks w = p :: fk → 0 < p →
  ∃ k f, free_slot (jobs w) = Some k ∧ 1 ≤ f ≤ Z.of_nat MAXJOBS ∧
         let w1 := with_jobs (λ js, <[k := mkjob p f FG cmd]> js)
                     (emits (launch_events p)
                        (with_forks fk (with_blocked (mask3 ++ blocked w) w))) in
         let w2 := with_blocked (blocked w)
                     (if verbose w then emit (added_note f p cmd) w1 else w1) in
         eval cmd w = waitfg p w2 ∧ fgpid (jobs w2) = p.
Proof.
  intros Hp Hnb Hnp Hbg Hwf Hroom Hidle Hf Hpos. unfold is_builtin in Hnb.
  apply not_full_room in Hroom. rewrite (wf_len _ Hwf) in Hroom.
  unfold eval. rewrite Hp, Hnp, decide_False by done.
  unfold fork. step. rewrite Hf. simpl. rewrite !decide_False by lia.
  unfold register_job. rewrite Hbg. unfold mbind at 1, M_bind at 1.
  match goal with
  | |- context [addjob p FG cmd ?W] =>
      destruct (addjob_room W p FG cmd) as (k & f & j0 & Hk & Hj0 & E0 & Hfr & Ea);
        [done | done | lia |]; rewrite Ea; clear Ea
  end.
  simpl in Hk, Hj0.
  assert (Hlt : (k < length (jobs w))%nat) by (by eapply lookup_lt_Some).
  exists k, f. split; [done |]. split; [done |]. cbv zeta. split.
  - simpl. by destruct (verbose w).
  - assert (fgpid (<[k := mkjob p f FG cmd]> (jobs w)) = p) as Hfg.
    { by apply (fgpid_insert_fg (jobs w) k (mkjob p f FG cmd)). }
    by destruct (verbose w).
Qed.

(** ** main *)

Lemma bind_never_returns {A B} (m : M A) (k : A → M B) (w : world) :
  (∀ a v r v', k a v ≠ Ret r v') → ∀ r v', (m ≫= k) w ≠ Ret r v'.
Proof. intros Hk r v'. unfold mbind, M_bind. by destruct (m w). Qed.

Lemma shell_loop_never_returns (emit_prompt : bool) (inputs : list input) (w : world) :
  ∀ r w', shell_loop emit_prompt inputs w ≠ Ret r w'.
Proof.
  revert w. induction inputs as [|i rest IH]; intros w; simpl.
  - apply bind_never_returns. by intros.
  - apply bind_never_returns. intros _ v. apply bind_never_returns. intros v0 v1.
    apply bind_never_returns. intros ? v2. apply bind_never_returns. intros ? v3.
    apply IH.
Qed.

(** X29.  Control never reaches the end of [main]: whatever is read, the
    run ends by [exit], in a crash, in a child replaced by a program, or
    asleep.  At the end of the input it ends by [exit(0)]; with no line to
    read at all, the shell has by then redirected its standard error,
    installed its five handlers, cleared the job list and - unless [-p]
    was given - printed the prompt once. *)
Theorem main_never_returns (v p : bool) (inputs : list input) (w : world) :
  (∀ r w', main v p inputs w ≠ Ret r w') ∧
  main v p [] w
  = Exit 0 (emits (if p then [] else [EPrintf prompt])
              (with_jobs initjobs
                 (emits [ESignal SIGUSR1 sigusr1_handler_f;
                         ESignal SIGINT sigint_handler_f;
                         ESignal SIGTSTP sigtstp_handler_f;
                         ESignal SIGCHLD sigchld_handler_f;
                         ESignal SIGQUIT sigquit_handler_f]
                    (with_verbose v (emit (EDup2 STDOUT_FILENO STDERR_FILENO) w))))).
Proof.
  split.
  - unfold main. do 8 (apply bind_never_returns; intros ? ?).
    apply shell_loop_never_returns.
  - unfold main. step. by destruct p.
Qed.

(** * Concrete runs *)

Lemma demo_jobs_wf : wf_jobs demo_jobs.
Proof. apply wf_check_wf, (bool_decide_unpack _). vm_compute. exact I. Defined.

Lemma prompt_jobs_wf : wf_jobs prompt_jobs.
Proof. apply wf_check_wf, (bool_decide_unpack _). vm_compute. exact I. Defined.

Lemma full_jobs_wf : wf_jobs full_jobs.
Proof. apply wf_check_wf, (bool_decide_unpack _). vm_compute. exact I. Defined.

Lemma jobs_static_wf : wf_jobs jobs_static.
Proof. apply wf_check_wf, (bool_decide_unpack _). vm_compute. exact I. Defined.

(** Job 1 is deleted; the next job added gets jid 1 again. *)
Lemma addjob_jid_minimal_and_reused_witness :
  wf_jobs (jobs prompt_world) ∧
  ∃ w1 w2 k, deletejob 101 prompt_world = Ret 1 w1 ∧
             addjob 104 BG "x" w1 = Ret 1 w2 ∧
             jobs w2 = <[k := mkjob 104 1 BG "x"]> (jobs w1).
Proof.
  split; [exact prompt_jobs_wf |].
  destruct (addjob_jid_minimal_and_reused prompt_world prompt_jobs_wf) as [_ H].
  destruct (H 0%nat (mkjob 101 1 BG ("sleep 9 &" +:+ NL)) eq_refl)
    as (w1 & Hdel & _ & Hadd).
  { unfold live. simpl. lia. }
  destruct (Hadd 104 BG "x") as (w2 & k & f & Ha & Hj & Hf & _); [lia |].
  simpl in Hf. assert (f = 1) as -> by lia.
  exists w1, w2, k. done.
Defined.

Lemma sigchld_handler_drains_witness :
  wf_jobs (jobs reap_world) ∧ reapable (jobs reap_world) (children reap_world) ∧
  writes_ok reap_world ∧
  ∃ w', sigchld_handler reap_world = Ret tt w' ∧ children w' = [] ∧
        wakeups w' = wakeups reap_world ∧
        jobs w' = [cleared; mkjob 102 2 ST ("vi" +:+ NL); cleared] ++ replicate 13 cleared.
Proof.
  assert (H1 : wf_jobs (jobs reap_world)) by exact demo_jobs_wf.
  assert (H2 : reapable (jobs reap_world) (children reap_world)).
  { apply (bool_decide_unpack _). vm_compute. exact I. }
  assert (H3 : writes_ok reap_world).
  { apply (bool_decide_unpack _). vm_compute. exact I. }
  split; [exact H1 |]. split; [exact H2 |]. split; [exact H3 |].
  destruct (sigchld_handler_drains reap_world) as (_ & _ & H).
  destruct (H H1 H2 H3) as (w' & E & C & K & J & _).
  exists w'. split; [exact E |]. split; [exact C |]. split; [exact K |].
  rewrite J. vm_compute. reflexivity.
Defined.

Lemma sigchld_handler_faults_iff_unregistered_witness :
  wf_jobs (jobs orphan_world) ∧ NoDup (children orphan_world).*1 ∧
  Forall (λ c, 0 < c.1) (children orphan_world) ∧ writes_ok orphan_world ∧
  ∃ w', sigchld_handler orphan_world = Fault w'.
Proof.
  assert (H1 : wf_jobs (jobs orphan_world)) by exact demo_jobs_wf.
  assert (H2 : NoDup (children orphan_world).*1).
  { apply (bool_decide_unpack _). vm_compute. exact I. }
  assert (H3 : Forall (λ c : Z * wstatus, 0 < c.1) (children orphan_world)).
  { apply (bool_decide_unpack _). vm_compute. exact I. }
  assert (H4 : writes_ok orphan_world).
  { apply (bool_decide_unpack _). vm_compute. exact I. }
  split; [exact H1 |]. split; [exact H2 |]. split; [exact H3 |]. split; [exact H4 |].
  apply (sigchld_handler_faults_iff_unregistered orphan_world H1 H2 H3 H4).
  apply (bool_decide_unpack _). vm_compute. exact I.
Defined.


(** [bg %1] on job 1, which runs in the background already. *)
Lemma bgfg_no_transition_no_effect_witness :
  designates prompt_world "bg" "%1" 0 ∧
  do_bgfg ["bg"; "%1"] prompt_world = Ret tt prompt_world.
Proof.
  assert (Hd : designates prompt_world "bg" "%1" 0) by reflexivity.
  split; [exact Hd |].
  apply (bgfg_no_transition_no_effect prompt_world "bg" "%1" [] 0
           (mkjob 101 1 BG ("sleep 9 &" +:+ NL)) Hd eq_refl).
  left. split; [reflexivity | left; reflexivity].
Defined.


Lemma full_table_add_fails_after_fork_witness :
  wf_jobs (jobs full_parent) ∧ table_full (jobs full_parent) ∧
  addjob 117 FG sleep5 full_parent = Ret 0 (emit full_note full_parent) ∧
  jobs (final (eval sleep5 full_parent)) = jobs full_parent ∧
  trace (final (eval sleep5 full_parent))
  = trace full_parent ++ launch_events 117 ++ [full_note].
Proof.
  assert (H1 : wf_jobs (jobs full_parent)) by exact full_jobs_wf.
  assert (H2 : table_full (jobs full_parent)).
  { apply (bool_decide_unpack _). vm_compute. exact I. }
  destruct (full_table_add_fails_after_fork full_parent H1 H2) as [A E].
  split; [exact H1 |]. split; [exact H2 |]. split; [apply A; lia |].
  apply (E sleep5 "sleep" ["5"] 117 []).
  - reflexivity.
  - intros [H | [H | [H | H]]]; discriminate H.
  - reflexivity.
  - reflexivity.
  - lia.
  - apply Forall_forall, (bool_decide_unpack _). vm_compute. exact I.
  - apply (bool_decide_unpack _). vm_compute. exact I.
Defined.

(** With the list full the child is forked all the same, and runs the
    command. *)
Lemma full_table_job_started_anyway :
  wf_jobs (jobs full_parent) ∧ table_full (jobs full_parent) ∧
  ¬ not_started full_parent sleep5 ∧
  trace (final (eval sleep5 full_parent))
  = launch_events 117 ++ [full_note] ∧
  eval sleep5 full_child
  = Gone (mkworld full_jobs false [] 
            [EFork 0; ESetpgid 0 0; ESignal SIGINT SIG_DFL; ESignal SIGTSTP SIG_DFL;
             EExecvp (Some "sleep") ["sleep"; "5"] true]
            [] [] [] [] [] ["sleep"]).
Proof.
  split; [exact full_jobs_wf |].
  split; [apply (bool_decide_unpack _); vm_compute; exact I |].
  split; [| split; [by vm_compute | by vm_compute]].
  intros H. apply (H 117). vm_compute. left.
Qed.

(** The three-stage pipeline leaves three jobs and three groups. *)
Lemma pipeline_three_jobs_three_groups :
  parseline abc_cmd = abc_argv ∧ has_piping abc_argv = true ∧
  ∃ w', my_pipe abc_argv [] abc_cmd abc_world = Ret tt w' ∧
        (pid <$> filter live (jobs w')) = [101; 102; 103] ∧
        pgid_events (trace w') = [(101, 101); (102, 102); (103, 103)] ∧
        ¬ one_job_one_group 101 w'.
Proof.
  split; [reflexivity |]. split; [reflexivity |].
  eexists. split; [vm_compute; reflexivity |].
  split; [reflexivity |]. split; [reflexivity |].
  intros [H _]. vm_compute in H. discriminate H.
Qed.

Lemma pipeline_job_and_group_per_stage_witness :
  wants_bg abc_argv = true ∧ wf_jobs (jobs abc_world) ∧
  ∃ w', my_pipe abc_argv [] abc_cmd abc_world = Ret tt w' ∧
        live_count (jobs w') = 3%nat ∧
        ∃ t, trace w' = trace abc_world ++ t ∧
             pgid_events t = [(101, 101); (102, 102); (103, 103)].
Proof.
  split; [reflexivity |]. split; [exact jobs_static_wf |].
  destruct (pipeline_job_and_group_per_stage abc_argv [] abc_cmd abc_world)
    as (_ & B & _).
  destruct (B [101; 102; 103] [(3, 4); (5, 6); (7, 8)] [] [])
    as (w' & E & Hc & _ & _ & Ht).
  - reflexivity.
  - reflexivity.
  - reflexivity.
  - reflexivity.
  - reflexivity.
  - exact jobs_static_wf.
  - vm_compute. lia.
  - apply (bool_decide_unpack _). vm_compute. exact I.
  - apply (bool_decide_unpack _). vm_compute. exact I.
  - intros p j Hin Hj Hp.
    assert (Hz : Forall (λ j, pid j = 0) (jobs abc_world)).
    { apply (bool_decide_unpack _). vm_compute. exact I. }
    rewrite Forall_forall in Hz. specialize (Hz j Hj).
    assert (Hpos : Forall (λ p, 0 < p) [101; 102; 103]).
    { apply (bool_decide_unpack _). vm_compute. exact I. }
    rewrite Forall_forall in Hpos. specialize (Hpos p Hin). lia.
  - exists w'. split; [exact E |]. split; [exact Hc | exact Ht].
Defined.

(** Job 103 ends after the test of [waitfg] and before its [sigsuspend]:
    the signal is held, [sigsuspend] lets it in and returns, and [waitfg]
    returns.  With nothing arriving the shell sleeps, 103 in the
    foreground. *)
Lemma waitfg_no_lost_wakeup_witness :
  103 ≠ 0 ∧ (fg_count (jobs ended_before_sleep) ≤ 1)%nat ∧
  no_stop_before_sleep demo_world ∧
  (∃ w', Async.waitfg 103 ended_before_sleep = Ret tt w' ∧
         fgpid (jobs w') ≠ 103 ∧ blocked w' = blocked ended_before_sleep ∧
         getjobpid (jobs w') 103 = None ∧
         ∃ w0 n w1, waitfg_enter ended_before_sleep = Ret tt w0 ∧
                    released 103 (blocked ended_before_sleep) w0 n w1 ∧
                    (n + weight w1 ≤ 1)%nat ∧ blocked w1 = [SIGCHLD]) ∧
  ∃ w', Async.waitfg 103 demo_world = Blocked w' ∧
        fgpid (jobs w') = 103 ∧ wakeups w' = [].
Proof.
  assert (Hc : (fg_count (jobs ended_before_sleep) ≤ 1)%nat) by (vm_compute; lia).
  assert (Hno : no_stop_before_sleep demo_world).
  { apply (bool_decide_unpack _). vm_compute. exact I. }
  split; [lia |]. split; [exact Hc |]. split; [exact Hno |]. split.
  - destruct (waitfg_no_lost_wakeup 103 ended_before_sleep) as (A & B & C & D & _).
    eexists. split; [vm_compute; reflexivity |].
    match goal with |- _ ≠ _ ∧ _ => idtac end.
    split; [apply (D ltac:(lia) Hc); vm_compute; reflexivity |].
    split; [apply C; vm_compute; reflexivity |].
    split; [vm_compute; reflexivity |].
    destruct (proj1 (A _) ltac:(vm_compute; reflexivity)) as (w0 & n & w1 & He & Hr & _).
    destruct (B _ _ _ He Hr) as (Hw & _ & Hb).
    exists w0, n, w1. split; [exact He |]. split; [exact Hr |]. split; [exact Hw | exact Hb].
  - destruct (waitfg_no_lost_wakeup 103 demo_world) as (_ & _ & _ & _ & E).
    eexists. split; [vm_compute; reflexivity |].
    apply (E Hno). vm_compute. reflexivity.
Defined.

(** The block is what keeps the wake-up: were the loop of [waitfg] entered
    with SIGCHLD let in, the handler would run between the test and
    [sigsuspend], and the shell would sleep with no job in the
    foreground. *)
Lemma loop_without_block_loses_wakeup :
  blocked ended_before_sleep = [] ∧
  ∃ w', after_test 1 103 [] ended_before_sleep = Blocked w' ∧
        fgpid (jobs w') = 0 ∧ getjobpid (jobs w') 103 = None ∧
        wakeups w' = [] ∧ arrivals w' = [] ∧ pending w' = [].
Proof.
  split; [reflexivity |]. eexists. split; [vm_compute; reflexivity |]. by repeat split.
Qed.

(** ** Concrete runs of the further properties *)

Lemma prompt_jobs_fresh_104 : ∀ j, j ∈ jobs prompt_world → pid j ≠ 104.
Proof. apply Forall_forall, (bool_decide_unpack _). vm_compute. exact I. Defined.

Lemma initjobs_empties_witness :
  length jobs_static = MAXJOBS ∧
  wf_jobs (initjobs jobs_static) ∧ getjobpid (initjobs jobs_static) 101 = None ∧
  freejid (initjobs jobs_static) = Some 1.
Proof.
  split; [reflexivity |].
  destruct (initjobs_empties jobs_static 101 1 eq_refl) as (H1 & _ & H3 & _ & _ & _ & H7).
  split; [exact H1 |]. split; [exact H3 | exact H7].
Defined.

(** A fourth job at the prompt: there is room, it is added. *)
Lemma addjob_succeeds_iff_witness :
  wf_jobs (jobs prompt_world) ∧
  ∃ r w', addjob 104 BG "x" prompt_world = Ret r w' ∧
          (r = 1 ↔ 1 ≤ 104 ∧ ¬ table_full (jobs prompt_world)).
Proof.
  split; [exact prompt_jobs_wf |].
  destruct (addjob_succeeds_iff prompt_world 104 BG "x" prompt_jobs_wf)
    as (r & w' & E & H & _).
  exists r, w'. split; [exact E | exact H].
Defined.

Lemma addjob_then_lookup_witness :
  wf_jobs (jobs prompt_world) ∧ (∀ j, j ∈ jobs prompt_world → pid j ≠ 104) ∧
  ∃ w', addjob 104 BG "x" prompt_world = Ret 1 w' ∧
        ∃ k j, getjobpid (jobs w') 104 = Some k ∧ jobs w' !! k = Some j ∧
               pid2jid (jobs w') 104 = jid j.
Proof.
  split; [exact prompt_jobs_wf |]. split; [exact prompt_jobs_fresh_104 |].
  eexists. split; [vm_compute; reflexivity |].
  destruct (addjob_then_lookup prompt_world _ 104 BG "x" prompt_jobs_wf
              (or_intror eq_refl) prompt_jobs_fresh_104 ltac:(vm_compute; reflexivity))
    as (k & j & Hg & Hk & _ & _ & _ & Hj & _).
  exists k, j. split; [exact Hg |]. split; [exact Hk | exact Hj].
Defined.

(** Job 1 is deleted. *)
Lemma deletejob_removes_witness :
  wf_jobs (jobs prompt_world) ∧ getjobpid (jobs prompt_world) 101 = Some 0%nat ∧
  deletejob 101 prompt_world = Ret 1 (with_jobs (alter clearjob 0%nat) prompt_world) ∧
  getjobpid (alter clearjob 0%nat (jobs prompt_world)) 101 = None.
Proof.
  split; [exact prompt_jobs_wf |]. split; [reflexivity |].
  destruct (deletejob_removes prompt_world 101 prompt_jobs_wf) as [H _].
  destruct (H 0%nat eq_refl) as (H1 & _ & H3 & _).
  split; [exact H1 | exact H3].
Defined.

Lemma add_then_delete_restores_witness :
  wf_jobs (jobs prompt_world) ∧ (∀ j, j ∈ jobs prompt_world → pid j ≠ 104) ∧
  (∀ j, j ∈ jobs prompt_world → pid j = 0 → cmdline j = "") ∧
  ∃ w1 w2, addjob 104 BG "x" prompt_world = Ret 1 w1 ∧
           deletejob 104 w1 = Ret 1 w2 ∧ jobs w2 = jobs prompt_world.
Proof.
  assert (Hc : ∀ j, j ∈ jobs prompt_world → pid j = 0 → cmdline j = "").
  { apply (proj1 (Forall_forall (λ j, pid j = 0 → cmdline j = "") _)).
    apply (bool_decide_unpack _). vm_compute. exact I. }
  split; [exact prompt_jobs_wf |]. split; [exact prompt_jobs_fresh_104 |].
  split; [exact Hc |].
  eexists. 
  destruct (add_then_delete_restores prompt_world _ 104 BG "x" prompt_jobs_wf
              prompt_jobs_fresh_104 Hc ltac:(vm_compute; reflexivity))
    as (w2 & Hd & Hj).
  exists w2. split; [reflexivity |]. split; [exact Hd | exact Hj].
Defined.

(** Job 2 of the three is found by its pid and by its jid. *)
Lemma lookups_name_live_jobs_witness :
  wf_jobs demo_jobs ∧
  getjobpid demo_jobs 102 = Some 1%nat ∧ getjobjid demo_jobs 2 = Some 1%nat.
Proof.
  split; [exact demo_jobs_wf |].
  destruct (lookups_name_live_jobs demo_jobs demo_jobs_wf) as (Hp & Hj & _).
  assert (Hl : live (mkjob 102 2 ST ("vi" +:+ NL))) by (unfold live; simpl; lia).
  split.
  - apply Hp. exists (mkjob 102 2 ST ("vi" +:+ NL)).
    split; [reflexivity |]. split; [exact Hl | reflexivity].
  - apply Hj. exists (mkjob 102 2 ST ("vi" +:+ NL)).
    split; [reflexivity |]. split; [exact Hl | reflexivity].
Defined.

Lemma fgpid_names_foreground_job_witness :
  wf_jobs demo_jobs ∧ (fg_count demo_jobs ≤ 1)%nat ∧ fgpid demo_jobs = 103.
Proof.
  assert (Hc : (fg_count demo_jobs ≤ 1)%nat).
  { apply (bool_decide_unpack _). vm_compute. exact I. }
  split; [exact demo_jobs_wf |]. split; [exact Hc |].
  destruct (fgpid_names_foreground_job demo_jobs demo_jobs_wf) as (_ & _ & H).
  exact (H Hc 2%nat (mkjob 103 3 FG ("cat" +:+ NL)) eq_refl eq_refl).
Defined.

(** [jobs] at the prompt: two jobs, six calls of [printf]. *)
Lemma listjobs_prints_live_jobs_witness :
  wf_jobs (jobs prompt_world) ∧
  listjobs prompt_world
  = Ret tt (emits [EPrintf "[1] (101) "; EPrintf "Running ";
                   EPrintf ("sleep 9 &" +:+ NL);
                   EPrintf "[2] (102) "; EPrintf "Stopped "; EPrintf ("vi" +:+ NL)]
              prompt_world).
Proof.
  split; [exact prompt_jobs_wf |].
  exact (listjobs_prints_live_jobs prompt_world prompt_jobs_wf).
Defined.

(** [bg %7] with no job 7, and [bg 4294967296], which [atoi] reads as 0. *)
Lemma do_bgfg_refusals_witness :
  wf_jobs (jobs prompt_world) ∧ ¬ jid_in_use (jobs prompt_world) 7 ∧
  do_bgfg ["bg"; "%7"] prompt_world
  = Ret tt (emit (EPrintf ("%7: No such job" +:+ NL)) prompt_world) ∧
  atoi "4294967296" = 0 ∧
  do_bgfg ["bg"; "4294967296"] prompt_world
  = Ret tt (emit (EPrintf ("bg: argument must be a PID or %jid" +:+ NL)) prompt_world).
Proof.
  assert (Hun : ¬ jid_in_use (jobs prompt_world) 7).
  { intros (j & Hj & _ & E). revert j Hj E.
    apply (proj1 (Forall_forall (λ j, jid j ≠ 7) _)).
    apply (bool_decide_unpack _). vm_compute. exact I. }
  assert (H0 : atoi "4294967296" = 0) by (vm_compute; reflexivity).
  split; [exact prompt_jobs_wf |]. split; [exact Hun |]. split; [| split; [exact H0 |]].
  - destruct (do_bgfg_refusals prompt_world "bg" "%7" [] prompt_jobs_wf) as (_ & _ & H & _).
    apply H; [discriminate | reflexivity | exact Hun].
  - destruct (do_bgfg_refusals prompt_world "bg" "4294967296" [] prompt_jobs_wf)
      as (_ & H & _).
    exact (H H0).
Defined.

(** [fg %1] on job 1, which runs in the background. *)
Lemma fg_takes_background_job_witness :
  designates prompt_world "fg" "%1" 0 ∧
  do_bgfg ["fg"; "%1"] prompt_world
  = waitfg 101 (with_jobs (alter (set_state FG) 0%nat)
                  (emit (EKill (-101) SIGCONT) prompt_world)).
Proof.
  assert (Hd : designates prompt_world "fg" "%1" 0) by reflexivity.
  split; [exact Hd |].
  exact (proj1 (fg_takes_background_job prompt_world "%1" [] 0
                  (mkjob 101 1 BG ("sleep 9 &" +:+ NL)) eq_refl eq_refl Hd)).
Defined.

(** [bg %2] and [bg 102] on the stopped job 2. *)
Lemma bg_accepts_printed_ids_witness :
  wf_jobs (jobs prompt_world) ∧ 102 ≤ INT_MAX ∧
  do_bgfg ["bg"; "%2"] prompt_world = do_bgfg ["bg"; "102"] prompt_world ∧
  do_bgfg ["bg"; "102"] prompt_world
  = Ret tt (emit (bg_line (mkjob 102 2 ST ("vi" +:+ NL)))
              (with_jobs (alter (set_state BG) 1%nat)
                 (emit (EKill (-102) SIGCONT) prompt_world))).
Proof.
  assert (Hmax : 102 ≤ INT_MAX) by (unfold INT_MAX; lia).
  split; [exact prompt_jobs_wf |]. split; [exact Hmax |].
  destruct (bg_accepts_printed_ids prompt_world 1 (mkjob 102 2 ST ("vi" +:+ NL))
              prompt_jobs_wf eq_refl eq_refl) as [Hj Hp].
  split; [exact (eq_trans Hj (eq_sym (Hp Hmax))) | exact (Hp Hmax)].
Defined.

(** [ls -l  'my file'] and the newline. *)
Lemma parseline_round_trip_witness :
  well_spaced false ls_tokens ∧
  parseline ("ls -l  'my file'" +:+ NL) = ["ls"; "-l"; "my file"].
Proof.
  assert (Hws : well_spaced false ls_tokens).
  { apply (bool_decide_unpack _). vm_compute. exact I. }
  split; [exact Hws |].
  apply (parseline_round_trip ls_tokens 0 "010" Hws); vm_compute; lia.
Defined.

(** [ls -l  'my file], the quote left open. *)
Lemma parseline_unclosed_quote_witness :
  well_spaced false (take 2 ls_tokens) ∧
  parseline ("ls -l  'my file" +:+ NL) = ["ls"; "-l"].
Proof.
  assert (Hws : well_spaced false (take 2 ls_tokens)).
  { apply (bool_decide_unpack _). vm_compute. exact I. }
  split; [exact Hws |].
  apply (parseline_unclosed_quote (take 2 ls_tokens) 2 "my file" "010" Hws).
  - apply (bool_decide_unpack _). vm_compute. exact I.
  - intros _. discriminate.
  - vm_compute. lia.
  - vm_compute. lia.
Defined.

(** [sort < in > out &] in the child of [eval]. *)
Lemma eval_child_runs_witness :
  eval_child ["sort"; "<"; "in"; ">"; "out"; "&"] [] child_world
  = Gone (emit (EExecvp (Some "sort") ["sort"] true)
            (emits [ESetpgid 0 0; ESignal SIGINT SIG_DFL; ESignal SIGTSTP SIG_DFL;
                    ERedirect STDIN_FILENO (Some "in");
                    ERedirect STDOUT_FILENO (Some "out")]
               (with_blocked [] child_world))).
Proof.
  destruct (eval_child_runs "sort" ["<"; "in"; ">"; "out"; "&"] [] child_world) as [H _].
  - intros [E | E]; discriminate E.
  - discriminate.
  - intros a [= <-] [E | E]; discriminate E.
  - apply H. apply (bool_decide_unpack _). vm_compute. exact I.
Defined.

(** [sort <] in the child of [eval]. *)
Lemma eval_child_trailing_redirect_faults_witness :
  eval_child ["sort"; "<"] [] child_world
  = Fault (emits [ESetpgid 0 0; ESignal SIGINT SIG_DFL; ESignal SIGTSTP SIG_DFL;
                  ERedirect STDIN_FILENO None]
             (with_blocked [] child_world)).
Proof.
  apply (eval_child_trailing_redirect_faults ["sort"; "<"] "<" [] child_world eq_refl).
  left. reflexivity.
Defined.

(** [echo x], the first stage of [echo x | cat], in a row where an
    earlier pipeline left two pointers behind: they now point at the [|]
    and the [cat] of the line just read. *)
Lemma pipe_child_runs_witness :
  readable [Str "|"; Str "cat"] = true ∧ "echo" ∈ path echo_world ∧
  pipe_child ["echo"; "x"] false (-1) 4 [] echo_world
  = Gone (emit (EExecvp (Some "echo") ["echo"; "x"; "|"; "cat"] true)
            (emits [ESetpgid 0 0; ESignal SIGINT SIG_DFL; ESignal SIGTSTP SIG_DFL;
                    EDup2 4 STDOUT_FILENO]
               (with_stale [] (with_blocked [] echo_world)))).
Proof.
  assert (Hin : "echo" ∈ path echo_world) by (apply (bool_decide_unpack _); vm_compute; exact I).
  split; [reflexivity |]. split; [exact Hin |].
  destruct (pipe_child_runs "echo" ["x"] false (-1) 4 [] echo_world) as (_ & H & _).
  - intros [E | E]; discriminate E.
  - exact (H eq_refl Hin).
Defined.


Lemma ctrl_c_ends_foreground_job_witness :
  ∃ w', waitfg 103 ctrl_c_world = Ret tt w' ∧
        jobs w' = alter clearjob 2%nat demo_jobs ∧
        trace w' = [ESigsuspend []; EKill (-103) SIGINT; ESigsuspend [];
                    EWaitpid 103;
                    EWrite STDOUT_FILENO
                      ("Job [3] (103) terminated by signal 2" +:+ NL) true;
                    EWaitpid 0].
Proof.
  destruct (ctrl_c_ends_foreground_job ctrl_c_world 2 (mkjob 103 3 FG ("cat" +:+ NL))
              2 [])
    as (w' & E & Hj & _ & _ & _ & Ht).
  - exact demo_jobs_wf.
  - apply (bool_decide_unpack _). vm_compute. exact I.
  - reflexivity.
  - reflexivity.
  - apply not_elem_of_nil.
  - apply not_elem_of_nil.
  - reflexivity.
  - apply (bool_decide_unpack _). vm_compute. exact I.
  - reflexivity.
  - exists w'. split; [exact E |]. split; [exact Hj | exact Ht].
Defined.

(** ctrl-z with job 3 in the foreground. *)
Lemma handlers_keep_well_formed_witness :
  wf_jobs (jobs demo_world) ∧
  wf_jobs (jobs (final (deliver [] (mkdelivery SIGTSTP []) demo_world))).
Proof.
  split; [exact demo_jobs_wf |].
  exact (handlers_keep_well_formed [] (mkdelivery SIGTSTP []) demo_world demo_jobs_wf).
Defined.

(** [quit now], whatever jobs there are. *)
Lemma eval_quit_and_jobs_witness :
  parseline ("quit now" +:+ NL) = ["quit"; "now"] ∧
  eval ("quit now" +:+ NL) prompt_world = Exit 0 prompt_world.
Proof.
  split; [reflexivity |].
  exact (proj1 (eval_quit_and_jobs ("quit now" +:+ NL) ["now"] prompt_world) eq_refl).
Defined.

(** [sleep 5] when [fork] fails. *)
Lemma launch_failure_leaves_signals_blocked_witness :
  ∃ w', eval sleep5 (with_forks [-1] prompt_world) = Ret tt w' ∧
        blocked w' = [SIGTSTP; SIGINT; SIGCHLD] ∧ jobs w' = prompt_jobs.
Proof.
  destruct (launch_failure_leaves_signals_blocked sleep5 "sleep" ["5"]
              (with_forks [-1] prompt_world)) as [H _].
  - reflexivity.
  - intros [H | [H | [H | H]]]; discriminate H.
  - eexists. split; [apply (H eq_refl (-1) []); [reflexivity | lia] |].
    split; reflexivity.
Defined.

(** [sleep 9 &] at the prompt: the third job. *)
Lemma eval_background_launch_witness :
  ∃ k f w', eval ("sleep 9 &" +:+ NL) launch_world = Ret tt w' ∧
            free_slot (jobs launch_world) = Some k ∧
            jobs w' = <[k := mkjob 104 f BG ("sleep 9 &" +:+ NL)]> (jobs launch_world) ∧
            blocked w' = blocked launch_world.
Proof.
  destruct (eval_background_launch ("sleep 9 &" +:+ NL) "sleep" ["9"; "&"] 104 []
              launch_world) as (k & f & w' & E & Hk & _ & Hj & Hb & _).
  - reflexivity.
  - intros [H | [H | [H | H]]]; discriminate H.
  - reflexivity.
  - reflexivity.
  - exact prompt_jobs_wf.
  - intros H. apply (bool_decide_pack _) in H. vm_compute in H. exact H.
  - reflexivity.
  - lia.
  - exact prompt_jobs_fresh_104.
  - exists k, f, w'. split; [exact E |]. split; [exact Hk |]. split; [exact Hj | exact Hb].
Defined.

(** [sleep 5] at the prompt: the shell waits for 104. *)
Lemma eval_foreground_launch_witness :
  ∃ w2, eval sleep5 launch_world = waitfg 104 w2 ∧ fgpid (jobs w2) = 104.
Proof.
  destruct (eval_foreground_launch sleep5 "sleep" ["5"] 104 [] launch_world)
    as (k & f & _ & _ & E & Hf).
  - reflexivity.
  - intros [H | [H | [H | H]]]; discriminate H.
  - reflexivity.
  - reflexivity.
  - exact prompt_jobs_wf.
  - intros H. apply (bool_decide_pack _) in H. vm_compute in H. exact H.
  - apply (bool_decide_unpack _). vm_compute. exact I.
  - reflexivity.
  - lia.
  - eexists. split; [exact E | exact Hf].
Defined.
